(** * OpenBroker: the STOMP-over-WebSocket client of the dashboard

    A shallow embedding of the class [StompWebSocketClient] of the
    frontend's WebSocket service, in its revision with market-data
    subscriptions (the account-only revision, services/websocket.ts, is
    the same code without the market, depth and last-trade registries),
    together with the part of the browser it talks to: the WebSocket
    objects it creates, the timers it arms with [setTimeout], and the
    callbacks its callers register.

    The class is event driven, so every method is a computation over one
    explicit [state]; an exception leaves the state as it was at the
    point of the [throw], exactly as in JavaScript.  A string is the
    sequence of the bytes of its UTF-8 encoding, the form in which it
    travels in a text frame; numbers that count are [nat]. *)

From Stdlib Require Import ZArith Ascii String List Bool Lia.
From stdpp Require Import base option list strings pretty gmap.

Set Warnings "-register-all".
Local Open Scope string_scope.

(** ** Strings, as the client uses them *)

Module Str.

Definition LF : ascii := Ascii.ascii_of_nat 10.
Definition NUL : ascii := Ascii.ascii_of_nat 0.
Definition DQUOTE : ascii := Ascii.ascii_of_nat 34.

(** ['\x00'], the frame terminator. *)
Definition nul : string := String NUL EmptyString.

(** ['\n'] *)
Definition lf : string := String LF EmptyString.

(** [s.startsWith(p)] *)
Definition startsWith (s p : string) : bool := String.prefix p s.

(** [s.includes(p)] *)
Fixpoint includes (s p : string) : bool :=
  String.prefix p s ||
  match s with
  | EmptyString => false
  | String _ s' => includes s' p
  end.

(** [s.substring(n)] *)
Fixpoint drop (n : nat) (s : string) : string :=
  match n, s with
  | O, _ => s
  | S n', String _ s' => drop n' s'
  | S _, EmptyString => EmptyString
  end.

(** The white space and the line terminators of JavaScript, which
    [trim()] removes, in their UTF-8 encodings: the six of one byte,
    ... *)
Definition is_js_space (c : ascii) : bool :=
  let n := Ascii.nat_of_ascii c in
  (n =? 9)%nat || (n =? 10)%nat || (n =? 11)%nat || (n =? 12)%nat
  || (n =? 13)%nat || (n =? 32)%nat.

(** ... the no-break space U+00A0, which is the two bytes C2 A0 (a
    byte A0 by itself is no character), ... *)
Definition is_js_space2 (a b : ascii) : bool :=
  (Ascii.nat_of_ascii a =? 194)%nat && (Ascii.nat_of_ascii b =? 160)%nat.

(** ... and those of three: U+1680, U+2000 to U+200A, U+2028, U+2029,
    U+202F, U+205F, U+3000 and U+FEFF. *)
Definition is_js_space3 (a b c : ascii) : bool :=
  let x := Ascii.nat_of_ascii a in
  let y := Ascii.nat_of_ascii b in
  let z := Ascii.nat_of_ascii c in
  (x =? 225)%nat && (y =? 154)%nat && (z =? 128)%nat
  || (x =? 226)%nat && (y =? 128)%nat
     && ((128 <=? z)%nat && (z <=? 138)%nat
         || (z =? 168)%nat || (z =? 169)%nat || (z =? 175)%nat)
  || (x =? 226)%nat && (y =? 129)%nat && (z =? 159)%nat
  || (x =? 227)%nat && (y =? 128)%nat && (z =? 128)%nat
  || (x =? 239)%nat && (y =? 187)%nat && (z =? 191)%nat.

Fixpoint trimStart (s : string) : string :=
  match s with
  | String a s1 =>
      if is_js_space a then trimStart s1
      else
        match s1 with
        | String b s2 =>
            if is_js_space2 a b then trimStart s2
            else
              match s2 with
              | String c s3 => if is_js_space3 a b c then trimStart s3 else s
              | EmptyString => s
              end
        | EmptyString => s
        end
  | EmptyString => EmptyString
  end.

Fixpoint trimEnd (s : string) : string :=
  match s with
  | EmptyString => EmptyString
  | String a s' =>
      match trimEnd s' with
      | EmptyString =>
          if is_js_space a then EmptyString else String a EmptyString
      | String b EmptyString =>
          if is_js_space2 a b then EmptyString
          else String a (String b EmptyString)
      | String b (String c EmptyString) =>
          if is_js_space3 a b c then EmptyString
          else String a (String b (String c EmptyString))
      | t => String a t
      end
  end.

(** [s.trim()] *)
Definition trim (s : string) : string := trimEnd (trimStart s).

(** [s.split('\n')]: the accumulator [cur] holds the current line
    reversed. *)
Fixpoint split_go (cur : string) (s : string) : list string :=
  match s with
  | EmptyString => [String.rev cur]
  | String c s' =>
      if Ascii.eqb c LF then String.rev cur :: split_go EmptyString s'
      else split_go (String c cur) s'
  end.

Definition split_lines (s : string) : list string := split_go EmptyString s.

(** [s] between double quotes. *)
Definition quoted (s : string) : string :=
  String DQUOTE (s ++ String DQUOTE EmptyString).

(** Truthiness of a string: [if (s)]. *)
Definition truthy (s : string) : bool :=
  match s with EmptyString => false | _ => true end.

End Str.

(** ** JSON values and [JSON.parse] *)

(** A number is kept as the decimal it was written as:
    [JNumber m e] stands for [m * 10^e]. *)
Inductive json : Type :=
| JNull
| JBool (b : bool)
| JNumber (mantissa exponent : Z)
| JString (s : string)
| JArray (items : list json)
| JObject (members : list (string * json)).

Module Json.

Definition is_ws (c : ascii) : bool :=
  let n := Ascii.nat_of_ascii c in
  (n =? 32)%nat || (n =? 9)%nat || (n =? 10)%nat || (n =? 13)%nat.

Fixpoint skip_ws (s : string) : string :=
  match s with
  | String c s' => if is_ws c then skip_ws s' else s
  | EmptyString => EmptyString
  end.

Definition digit (c : ascii) : option Z :=
  let n := Ascii.nat_of_ascii c in
  if (48 <=? n)%nat && (n <=? 57)%nat then Some (Z.of_nat (n - 48)) else None.

(** Reads a possibly empty run of digits onto the accumulator; returns
    the value, the number of digits read and the rest. *)
Fixpoint digits (acc : Z) (count : nat) (s : string) : Z * nat * string :=
  match s with
  | String c s' =>
      match digit c with
      | Some d => digits (10 * acc + d) (S count) s'
      | None => (acc, count, s)
      end
  | EmptyString => (acc, count, s)
  end.

(** The integer part: a single [0], or a non-empty run not starting with
    [0]. *)
Definition int_part (s : string) : option (Z * string) :=
  match s with
  | String c s' =>
      match digit c with
      | Some 0%Z => Some (0%Z, s')
      | Some d => let '(v, _, r) := digits d 1 s' in Some (v, r)
      | None => None
      end
  | EmptyString => None
  end.

Definition frac_part (int : Z) (s : string) : option (Z * nat * string) :=
  match s with
  | String "." s' =>
      let '(v, n, r) := digits int 0 s' in
      if (n =? 0)%nat then None else Some (v, n, r)
  | _ => Some (int, 0%nat, s)
  end.

Definition exp_part (s : string) : option (Z * string) :=
  match s with
  | String c s' =>
      if Ascii.eqb c "e" || Ascii.eqb c "E" then
        let '(neg, s'') :=
          match s' with
          | String "-" t => (true, t)
          | String "+" t => (false, t)
          | _ => (false, s')
          end in
        let '(v, n, r) := digits 0 0 s'' in
        if (n =? 0)%nat then None
        else Some (if neg then (- v)%Z else v, r)
      else Some (0%Z, s)
  | EmptyString => Some (0%Z, s)
  end.

Definition number (s : string) : option (json * string) :=
  let '(neg, s1) :=
    match s with
    | String "-" t => (true, t)
    | _ => (false, s)
    end in
  '(i, s2) ← int_part s1;
  '(m, nfrac, s3) ← frac_part i s2;
  '(e, s4) ← exp_part s3;
  Some (JNumber (if neg then (- m)%Z else m) (e - Z.of_nat nfrac), s4).

(** The characters of a string literal after its opening quote.  The
    two-character escapes are decoded; [\uXXXX] escapes are not: a
    literal with one is reported as not parsed. *)
Definition unescape (e : ascii) : option ascii :=
  if Ascii.eqb e Str.DQUOTE then Some Str.DQUOTE
  else if Ascii.eqb e "\" then Some "\"%char
  else if Ascii.eqb e "/" then Some "/"%char
  else if Ascii.eqb e "b" then Some (Ascii.ascii_of_nat 8)
  else if Ascii.eqb e "f" then Some (Ascii.ascii_of_nat 12)
  else if Ascii.eqb e "n" then Some (Ascii.ascii_of_nat 10)
  else if Ascii.eqb e "r" then Some (Ascii.ascii_of_nat 13)
  else if Ascii.eqb e "t" then Some (Ascii.ascii_of_nat 9)
  else None.

Fixpoint string_body (acc : string) (s : string) : option (string * string) :=
  match s with
  | EmptyString => None
  | String c s' =>
      if Ascii.eqb c Str.DQUOTE then Some (String.rev acc, s')
      else if Ascii.eqb c "\" then
        match s' with
        | String e s'' =>
            match unescape e with
            | Some c' => string_body (String c' acc) s''
            | None => None
            end
        | EmptyString => None
        end
      else if (Ascii.nat_of_ascii c <? 32)%nat then None
      else string_body (String c acc) s'
  end.

(** Recursive descent.  [fuel] bounds the depth of the calls; a nested
    value and a further element or member each take at least one
    character of the text, so [parse] starts with twice its length. *)
Fixpoint value (fuel : nat) (s : string) : option (json * string) :=
  match fuel with
  | O => None
  | S fuel' =>
      match skip_ws s with
      | String "{" r =>
          match skip_ws r with
          | String "}" r' => Some (JObject [], r')
          | _ => '(ms, r') ← members fuel' r; Some (JObject ms, r')
          end
      | String "[" r =>
          match skip_ws r with
          | String "]" r' => Some (JArray [], r')
          | _ => '(vs, r') ← elements fuel' r; Some (JArray vs, r')
          end
      | String "t" (String "r" (String "u" (String "e" r))) => Some (JBool true, r)
      | String "f" (String "a" (String "l" (String "s" (String "e" r)))) =>
          Some (JBool false, r)
      | String "n" (String "u" (String "l" (String "l" r))) => Some (JNull, r)
      | String c r as t =>
          if Ascii.eqb c Str.DQUOTE then
            '(str, r') ← string_body EmptyString r; Some (JString str, r')
          else number t
      | EmptyString => None
      end
  end
with elements (fuel : nat) (s : string) : option (list json * string) :=
  match fuel with
  | O => None
  | S fuel' =>
      '(v, r) ← value fuel' s;
      match skip_ws r with
      | String "]" r' => Some ([v], r')
      | String "," r' => '(vs, r'') ← elements fuel' r'; Some (v :: vs, r'')
      | _ => None
      end
  end
with members (fuel : nat) (s : string) : option (list (string * json) * string) :=
  match fuel with
  | O => None
  | S fuel' =>
      match skip_ws s with
      | String c r =>
          if Ascii.eqb c Str.DQUOTE then
            '(k, r1) ← string_body EmptyString r;
            match skip_ws r1 with
            | String ":" r2 =>
                '(v, r3) ← value fuel' r2;
                match skip_ws r3 with
                | String "}" r' => Some ([(k, v)], r')
                | String "," r' =>
                    '(ms, r'') ← members fuel' r'; Some ((k, v) :: ms, r'')
                | _ => None
                end
            | _ => None
            end
          else None
      | EmptyString => None
      end
  end.

(** [JSON.parse(text)]: [None] stands for the [SyntaxError] it throws.
    Anything but white space after the value is an error. *)
Definition parse (text : string) : option json :=
  '(v, r) ← value (2 * String.length text + 2) text;
  match skip_ws r with
  | EmptyString => Some v
  | _ => None
  end.

End Json.

(** ** The frames the client sends *)

Inductive scope : Type := balance | positions | orders | market.

Definition scope_name (sc : scope) : string :=
  match sc with
  | balance => "balance"
  | positions => "positions"
  | orders => "orders"
  | market => "market"
  end.

(** One constructor per template literal handed to [ws.send]; [encode]
    gives the literal itself. *)
Inductive frame : Type :=
| CONNECT
| SUBSCRIBE (subId : nat) (destination : string)
| UNSUBSCRIBE (subId : nat)
| SEND (destination body : string)
| DISCONNECT.

Definition encode (f : frame) : string :=
  match f with
  | CONNECT =>
      "CONNECT" ++ Str.lf ++ "accept-version:1.2,2.0" ++ Str.lf ++ Str.lf ++ Str.nul
  | SUBSCRIBE subId destination =>
      "SUBSCRIBE" ++ Str.lf ++ "id:" ++ pretty subId ++ Str.lf
        ++ "destination:" ++ destination ++ Str.lf
        ++ "ack:auto" ++ Str.lf ++ Str.lf ++ Str.nul
  | UNSUBSCRIBE subId =>
      "UNSUBSCRIBE" ++ Str.lf ++ "id:" ++ pretty subId ++ Str.lf ++ Str.lf ++ Str.nul
  | SEND destination body =>
      "SEND" ++ Str.lf ++ "destination:" ++ destination ++ Str.lf
        ++ "content-type:application/json" ++ Str.lf
        ++ "content-length:" ++ pretty (String.length body) ++ Str.lf ++ Str.lf
        ++ body ++ Str.nul
  | DISCONNECT => "DISCONNECT" ++ Str.lf ++ Str.lf ++ Str.nul
  end.

Definition is_SUBSCRIBE_to (destination : string) (f : frame) : bool :=
  match f with
  | SUBSCRIBE _ d => String.eqb d destination
  | _ => false
  end.

Definition is_UNSUBSCRIBE (f : frame) : bool :=
  match f with UNSUBSCRIBE _ => true | _ => false end.

(** [JSON.stringify({ request: 'GET', scope })] *)
Definition request_body (sc : scope) : string :=
  "{" ++ Str.quoted "request" ++ ":" ++ Str.quoted "GET" ++ ","
      ++ Str.quoted "scope" ++ ":" ++ Str.quoted (scope_name sc) ++ "}".

(** ** [Map<string, V>]: keys in insertion order *)

Module JsMap.

Definition t (V : Type) : Type := list (string * V).

Fixpoint get {V} (k : string) (m : t V) : option V :=
  match m with
  | [] => None
  | (k', v) :: m' => if String.eqb k k' then Some v else get k m'
  end.

Definition has {V} (k : string) (m : t V) : bool :=
  match get k m with Some _ => true | None => false end.

(** An existing key keeps its place, a new one goes last. *)
Fixpoint set {V} (k : string) (v : V) (m : t V) : t V :=
  match m with
  | [] => [(k, v)]
  | (k', v') :: m' =>
      if String.eqb k k' then (k, v) :: m' else (k', v') :: set k v m'
  end.

Fixpoint remove {V} (k : string) (m : t V) : t V :=
  match m with
  | [] => []
  | (k', v') :: m' =>
      if String.eqb k k' then remove k m' else (k', v') :: remove k m'
  end.

Definition keys {V} (m : t V) : list string := List.map fst m.

End JsMap.

(** ** The state: the object's fields and the browser around it *)

Inductive readyState : Type := CONNECTING | OPEN | CLOSING | CLOSED.

Definition readyState_eqb (a b : readyState) : bool :=
  match a, b with
  | CONNECTING, CONNECTING | OPEN, OPEN | CLOSING, CLOSING | CLOSED, CLOSED => true
  | _, _ => false
  end.

(** What the event loop still owes the client: a [setTimeout] whose
    callback is [connectInternal], or the text of a [Blob] whose promise
    continues in [parseMessage]. *)
Inductive task : Type :=
| Timer (delay : nat)
| BlobText (text : string).

(** A callback is a reference to a function of the caller; [indexOf]
    compares references. *)
Definition callback : Type := nat.

Definition registry : Type := JsMap.t (list callback).

Record state : Type := mkState {
  (* fields of StompWebSocketClient *)
  ws : option nat;
  reconnectAttempts : nat;
  maxReconnectAttempts : nat;
  reconnectDelay : nat;
  callbacks : registry;
  marketCallbacks : registry;
  depthCallbacks : registry;
  lastTradeCallbacks : registry;
  subscriptions : gmap string nat;
  subscriptionCounter : nat;
  connected : bool;
  (* the browser *)
  sockets : list readyState;      (* every WebSocket created, by creation order *)
  wire : list (nat * frame);      (* frames accepted by [send], with their socket *)
  pending : list task;            (* timers and promises not yet run *)
  delivered : list (callback * json);   (* callback invocations, oldest first *)
  raises : callback -> json -> bool;    (* whether a callback throws on a payload *)
  ctorThrows : bool               (* whether [new WebSocket(wsUrl)] throws *)
}.

Definition set_ws (v : option nat) (s : state) : state :=
  mkState v (reconnectAttempts s) (maxReconnectAttempts s) (reconnectDelay s)
    (callbacks s) (marketCallbacks s) (depthCallbacks s) (lastTradeCallbacks s)
    (subscriptions s) (subscriptionCounter s) (connected s)
    (sockets s) (wire s) (pending s) (delivered s) (raises s) (ctorThrows s).

Definition set_reconnectAttempts (v : nat) (s : state) : state :=
  mkState (ws s) v (maxReconnectAttempts s) (reconnectDelay s)
    (callbacks s) (marketCallbacks s) (depthCallbacks s) (lastTradeCallbacks s)
    (subscriptions s) (subscriptionCounter s) (connected s)
    (sockets s) (wire s) (pending s) (delivered s) (raises s) (ctorThrows s).

Definition set_callbacks (v : registry) (s : state) : state :=
  mkState (ws s) (reconnectAttempts s) (maxReconnectAttempts s) (reconnectDelay s)
    v (marketCallbacks s) (depthCallbacks s) (lastTradeCallbacks s)
    (subscriptions s) (subscriptionCounter s) (connected s)
    (sockets s) (wire s) (pending s) (delivered s) (raises s) (ctorThrows s).

Definition set_marketCallbacks (v : registry) (s : state) : state :=
  mkState (ws s) (reconnectAttempts s) (maxReconnectAttempts s) (reconnectDelay s)
    (callbacks s) v (depthCallbacks s) (lastTradeCallbacks s)
    (subscriptions s) (subscriptionCounter s) (connected s)
    (sockets s) (wire s) (pending s) (delivered s) (raises s) (ctorThrows s).

Definition set_depthCallbacks (v : registry) (s : state) : state :=
  mkState (ws s) (reconnectAttempts s) (maxReconnectAttempts s) (reconnectDelay s)
    (callbacks s) (marketCallbacks s) v (lastTradeCallbacks s)
    (subscriptions s) (subscriptionCounter s) (connected s)
    (sockets s) (wire s) (pending s) (delivered s) (raises s) (ctorThrows s).

Definition set_lastTradeCallbacks (v : registry) (s : state) : state :=
  mkState (ws s) (reconnectAttempts s) (maxReconnectAttempts s) (reconnectDelay s)
    (callbacks s) (marketCallbacks s) (depthCallbacks s) v
    (subscriptions s) (subscriptionCounter s) (connected s)
    (sockets s) (wire s) (pending s) (delivered s) (raises s) (ctorThrows s).

Definition set_subscriptions (v : gmap string nat) (s : state) : state :=
  mkState (ws s) (reconnectAttempts s) (maxReconnectAttempts s) (reconnectDelay s)
    (callbacks s) (marketCallbacks s) (depthCallbacks s) (lastTradeCallbacks s)
    v (subscriptionCounter s) (connected s)
    (sockets s) (wire s) (pending s) (delivered s) (raises s) (ctorThrows s).

Definition set_subscriptionCounter (v : nat) (s : state) : state :=
  mkState (ws s) (reconnectAttempts s) (maxReconnectAttempts s) (reconnectDelay s)
    (callbacks s) (marketCallbacks s) (depthCallbacks s) (lastTradeCallbacks s)
    (subscriptions s) v (connected s)
    (sockets s) (wire s) (pending s) (delivered s) (raises s) (ctorThrows s).

Definition set_connected (v : bool) (s : state) : state :=
  mkState (ws s) (reconnectAttempts s) (maxReconnectAttempts s) (reconnectDelay s)
    (callbacks s) (marketCallbacks s) (depthCallbacks s) (lastTradeCallbacks s)
    (subscriptions s) (subscriptionCounter s) v
    (sockets s) (wire s) (pending s) (delivered s) (raises s) (ctorThrows s).

Definition set_sockets (v : list readyState) (s : state) : state :=
  mkState (ws s) (reconnectAttempts s) (maxReconnectAttempts s) (reconnectDelay s)
    (callbacks s) (marketCallbacks s) (depthCallbacks s) (lastTradeCallbacks s)
    (subscriptions s) (subscriptionCounter s) (connected s)
    v (wire s) (pending s) (delivered s) (raises s) (ctorThrows s).

Definition set_wire (v : list (nat * frame)) (s : state) : state :=
  mkState (ws s) (reconnectAttempts s) (maxReconnectAttempts s) (reconnectDelay s)
    (callbacks s) (marketCallbacks s) (depthCallbacks s) (lastTradeCallbacks s)
    (subscriptions s) (subscriptionCounter s) (connected s)
    (sockets s) v (pending s) (delivered s) (raises s) (ctorThrows s).

Definition set_pending (v : list task) (s : state) : state :=
  mkState (ws s) (reconnectAttempts s) (maxReconnectAttempts s) (reconnectDelay s)
    (callbacks s) (marketCallbacks s) (depthCallbacks s) (lastTradeCallbacks s)
    (subscriptions s) (subscriptionCounter s) (connected s)
    (sockets s) (wire s) v (delivered s) (raises s) (ctorThrows s).

Definition set_delivered (v : list (callback * json)) (s : state) : state :=
  mkState (ws s) (reconnectAttempts s) (maxReconnectAttempts s) (reconnectDelay s)
    (callbacks s) (marketCallbacks s) (depthCallbacks s) (lastTradeCallbacks s)
    (subscriptions s) (subscriptionCounter s) (connected s)
    (sockets s) (wire s) (pending s) v (raises s) (ctorThrows s).

(** [new StompWebSocketClient()], in a browser where nothing has happened
    yet. *)
Definition init (raises : callback -> json -> bool) (ctorThrows : bool) : state :=
  mkState None 0 5 1000 [] [] [] [] ∅ 0 false [] [] [] [] raises ctorThrows.

(** ** Computations: state that survives a [throw] *)

Inductive exn : Type :=
| TypeError            (* a method called on [null] *)
| InvalidStateError    (* [send] on a socket that is still CONNECTING *)
| SyntaxError          (* [JSON.parse], or [new WebSocket] on a bad URL *)
| Thrown (cb : callback).   (* whatever a callback threw *)

Inductive outcome (A : Type) : Type :=
| Ret (a : A)
| Exn (e : exn).
Arguments Ret {A} a.
Arguments Exn {A} e.

Definition M (A : Type) : Type := state -> outcome A * state.

#[global] Instance M_ret : MRet M := fun A a s => (Ret a, s).

#[global] Instance M_bind : MBind M := fun A B f m s =>
  match m s with
  | (Ret a, s') => f a s'
  | (Exn e, s') => (Exn e, s')
  end.

Definition get : M state := fun s => (Ret s, s).

Definition modify (f : state -> state) : M unit := fun s => (Ret tt, f s).

Definition throw {A} (e : exn) : M A := fun s => (Exn e, s).

(** [try { body } catch { handler }] *)
Definition try_catch (body handler : M unit) : M unit := fun s =>
  match body s with
  | (Ret a, s') => (Ret a, s')
  | (Exn _, s') => handler s'
  end.

Definition when (b : bool) (m : M unit) : M unit :=
  if b then m else mret tt.

(** [for (const x of xs) body(x)], and [xs.forEach(body)] when [body]
    leaves [xs] as it is: the first exception ends the loop. *)
Fixpoint forEach {A} (xs : list A) (body : A -> M unit) : M unit :=
  match xs with
  | [] => mret tt
  | x :: xs' => body x ;; forEach xs' body
  end.

(** ** The browser's side *)

(** [sockets[i].readyState]; a handle that was never created reads as
    closed. *)
Definition readyState_of (s : state) (i : nat) : readyState :=
  default CLOSED (sockets s !! i).

(** [this.ws?.readyState === WebSocket.OPEN] *)
Definition ws_open (s : state) : bool :=
  match ws s with
  | Some i => readyState_eqb (readyState_of s i) OPEN
  | None => false
  end.

(** [this.ws.send(f)]: throws while CONNECTING, transmits when OPEN, and
    drops the data once the socket is closing or closed. *)
Definition ws_send (f : frame) : M unit :=
  s ← get;
  match ws s with
  | None => throw TypeError
  | Some i =>
      match readyState_of s i with
      | CONNECTING => throw InvalidStateError
      | OPEN => modify (fun s => set_wire (wire s ++ [(i, f)]) s)
      | CLOSING | CLOSED => mret tt
      end
  end.

(** [sock.close()]: starts the closing handshake unless it already
    started; the close event comes later. *)
Definition socket_close (i : nat) : M unit :=
  s ← get;
  match readyState_of s i with
  | CONNECTING | OPEN => modify (fun s => set_sockets (<[i := CLOSING]> (sockets s)) s)
  | CLOSING | CLOSED => mret tt
  end.

(** [new WebSocket(this.wsUrl)]: the new handle. *)
Definition new_WebSocket : M nat :=
  s ← get;
  if ctorThrows s then throw SyntaxError
  else modify (fun s => set_sockets (sockets s ++ [CONNECTING]) s) ;;
       mret (length (sockets s)).

(** [setTimeout(..., delay)] and [promise.then(...)]. *)
Definition defer (t : task) : M unit :=
  modify (fun s => set_pending (pending s ++ [t]) s).

(** [callback(data)], for a callback that does not call the client
    while it runs, as the callback of the dashboard page; the general
    case is [Reentrant.invoke] below. *)
Definition invoke (data : json) (cb : callback) : M unit :=
  modify (fun s => set_delivered (delivered s ++ [(cb, data)]) s) ;;
  s ← get;
  if raises s cb data then throw (Thrown cb) else mret tt.

(** [JSON.parse(text)] *)
Definition JSON_parse (text : string) : M json :=
  match Json.parse text with
  | Some v => mret v
  | None => throw SyntaxError
  end.

(** ** The methods of [StompWebSocketClient] *)

Definition account_destination (accountKey : string) : string :=
  "/account/" ++ accountKey ++ "/updates".

Definition depth_destination (instrumentKey : string) : string :=
  "/markets/" ++ instrumentKey ++ "/depth".

Definition last_trade_destination (instrumentKey : string) : string :=
  "/markets/" ++ instrumentKey ++ "/last_trade".

Definition connect : M unit :=
  s ← get;
  if ws_open s || connected s then mret tt
  else defer (Timer 500).

Definition attemptReconnect : M unit :=
  s ← get;
  if (reconnectAttempts s <? maxReconnectAttempts s)%nat then
    modify (fun s => set_reconnectAttempts (S (reconnectAttempts s)) s) ;;
    s' ← get;
    let delay := (reconnectDelay s' * 2 ^ (reconnectAttempts s' - 1))%nat in
    defer (Timer delay)
  else mret tt.

(** The four handlers are installed on every socket alike and read
    [this.ws] when they run, so they are functions of the client, not of
    the socket. *)
Definition connectInternal : M unit :=
  try_catch
    (i ← new_WebSocket; modify (set_ws (Some i)))
    attemptReconnect.

Definition sendConnect : M unit :=
  s ← get; when (ws_open s) (ws_send CONNECT).

Definition subscribeToDestination (destination : string) : M unit :=
  s ← get;
  match subscriptions s !! destination with
  | Some _ => mret tt
  | None =>
      modify (fun s => set_subscriptionCounter (S (subscriptionCounter s)) s) ;;
      s1 ← get;
      let subId := subscriptionCounter s1 in
      modify (fun s => set_subscriptions (<[destination := subId]> (subscriptions s)) s) ;;
      s2 ← get;
      when (ws_open s2) (ws_send (SUBSCRIBE subId destination))
  end.

Definition resubscribeAll : M unit :=
  s ← get;
  forEach (JsMap.keys (callbacks s)) subscribeToDestination ;;
  forEach (JsMap.keys (marketCallbacks s)) subscribeToDestination ;;
  forEach (JsMap.keys (depthCallbacks s)) subscribeToDestination ;;
  forEach (JsMap.keys (lastTradeCallbacks s)) subscribeToDestination.

Definition notifyCallbacks (destination : string) (data : json) : M unit :=
  s ← get;
  match JsMap.get destination (callbacks s) with
  | Some cbs => forEach cbs (invoke data)
  | None => mret tt
  end.

Definition notifyMarketCallbacks (destination : string) (data : json) : M unit :=
  s ← get;
  match JsMap.get destination (marketCallbacks s) with
  | Some cbs => forEach cbs (invoke data)
  | None => mret tt
  end.

Definition notifyDepthCallbacks (destination : string) (data : json) : M unit :=
  s ← get;
  match JsMap.get destination (depthCallbacks s) with
  | Some cbs => forEach cbs (invoke data)
  | None => mret tt
  end.

Definition notifyLastTradeCallbacks (destination : string) (data : json) : M unit :=
  s ← get;
  match JsMap.get destination (lastTradeCallbacks s) with
  | Some cbs => forEach cbs (invoke data)
  | None => mret tt
  end.

(** The loop over the lines of a MESSAGE frame: the locals
    [destination], [body] and [inBody]. *)
Definition scan_line (acc : string * string * bool) (line : string)
  : string * string * bool :=
  let '(destination, body, inBody) := acc in
  if Str.startsWith line "destination:" then
    (Str.trim (Str.drop (String.length "destination:") line), body, inBody)
  else if String.eqb line "" then (destination, body, true)
  else if inBody && negb (String.eqb line Str.nul) then
    (destination, body ++ line, inBody)
  else acc.

Definition scan_frame (message : string) : string * string * bool :=
  fold_left scan_line (Str.split_lines message) ("", "", false).

Definition handleStompMessage (message : string) : M unit :=
  let '(destination, body, _) := scan_frame message in
  when (Str.truthy destination && Str.truthy body)
    (try_catch
       (if Str.includes destination "/markets/" && Str.includes destination "/depth" then
          depth ← JSON_parse body; notifyDepthCallbacks destination depth
        else if Str.includes destination "/markets/"
                && Str.includes destination "/last_trade" then
          lastTrade ← JSON_parse body; notifyLastTradeCallbacks destination lastTrade
        else if Str.startsWith destination "/market/" then
          marketData ← JSON_parse body; notifyMarketCallbacks destination marketData
        else
          accountUpdate ← JSON_parse body; notifyCallbacks destination accountUpdate)
       (mret tt)).

Definition parseMessage (message : string) : M unit :=
  if Str.startsWith message "CONNECTED" then
    modify (set_connected true) ;;
    modify (set_reconnectAttempts 0) ;;
    resubscribeAll
  else if Str.startsWith message "MESSAGE" then
    handleStompMessage message
  else
    try_catch (JSON_parse message ;; mret tt) (mret tt).

(** What [onmessage] receives. *)
Inductive wsdata : Type :=
| Text (text : string)
| Blob (content : string).

Definition handleMessage (data : wsdata) : M unit :=
  match data with
  | Blob content => defer (BlobText content)
  | Text text => parseMessage text
  end.

Definition onopen : M unit :=
  modify (set_connected false) ;; sendConnect.

Definition onmessage (data : wsdata) : M unit := handleMessage data.

Definition onerror : M unit := mret tt.

Definition onclose : M unit :=
  modify (set_connected false) ;; attemptReconnect.

(** [index = xs.indexOf(x); if (index > -1) xs.splice(index, 1)] *)
Fixpoint remove_first (cb : callback) (cbs : list callback) : list callback :=
  match cbs with
  | [] => []
  | c :: cbs' => if (c =? cb)%nat then cbs' else c :: remove_first cb cbs'
  end.

(** [if (subId && ...)]: a number is truthy unless it is zero. *)
Definition truthy_id (subId : option nat) : bool :=
  match subId with
  | Some n => negb (n =? 0)%nat
  | None => false
  end.

Definition subscribe (accountKey : string) (cb : callback) : M unit :=
  let destination := account_destination accountKey in
  s ← get;
  when (negb (JsMap.has destination (callbacks s)))
    (modify (fun s => set_callbacks (JsMap.set destination [] (callbacks s)) s)) ;;
  s ← get;
  match JsMap.get destination (callbacks s) with
  | Some cbs =>
      modify (fun s =>
        set_callbacks (JsMap.set destination (cbs ++ [cb])%list (callbacks s)) s)
  | None => throw TypeError
  end ;;
  s ← get;
  when (connected s && ws_open s) (subscribeToDestination destination).

Definition unsubscribe (accountKey : string) (cb : callback) : M unit :=
  let destination := account_destination accountKey in
  s ← get;
  match JsMap.get destination (callbacks s) with
  | Some cbs =>
      let cbs' := remove_first cb cbs in
      modify (fun s => set_callbacks (JsMap.set destination cbs' (callbacks s)) s) ;;
      when (length cbs' =? 0)%nat
        (modify (fun s => set_callbacks (JsMap.remove destination (callbacks s)) s) ;;
         s ← get;
         let subId := subscriptions s !! destination in
         when (truthy_id subId && ws_open s)
           (ws_send (UNSUBSCRIBE (default 0 subId)) ;;
            modify (fun s =>
              set_subscriptions (delete destination (subscriptions s)) s)))
  | None => mret tt
  end.

Definition sendRequest (accountKey : string) (sc : scope) : M unit :=
  s ← get;
  if negb (connected s) || negb (ws_open s) then mret tt
  else ws_send (SEND (account_destination accountKey) (request_body sc)).

Definition subscribeToMarketData (instrumentKey : string)
    (depthCallback lastTradeCallback : callback) : M unit :=
  let depthDestination := depth_destination instrumentKey in
  let lastTradeDestination := last_trade_destination instrumentKey in
  s ← get;
  when (negb (JsMap.has depthDestination (depthCallbacks s)))
    (modify (fun s =>
       set_depthCallbacks (JsMap.set depthDestination [] (depthCallbacks s)) s)) ;;
  s ← get;
  match JsMap.get depthDestination (depthCallbacks s) with
  | Some cbs =>
      modify (fun s =>
        set_depthCallbacks
          (JsMap.set depthDestination (cbs ++ [depthCallback])%list (depthCallbacks s)) s)
  | None => throw TypeError
  end ;;
  s ← get;
  when (negb (JsMap.has lastTradeDestination (lastTradeCallbacks s)))
    (modify (fun s =>
       set_lastTradeCallbacks
         (JsMap.set lastTradeDestination [] (lastTradeCallbacks s)) s)) ;;
  s ← get;
  match JsMap.get lastTradeDestination (lastTradeCallbacks s) with
  | Some cbs =>
      modify (fun s =>
        set_lastTradeCallbacks
          (JsMap.set lastTradeDestination (cbs ++ [lastTradeCallback])%list
             (lastTradeCallbacks s)) s)
  | None => throw TypeError
  end ;;
  s ← get;
  when (connected s && ws_open s)
    (subscribeToDestination depthDestination ;;
     subscribeToDestination lastTradeDestination).

Definition unsubscribeFromMarketData (instrumentKey : string)
    (depthCallback lastTradeCallback : callback) : M unit :=
  let depthDestination := depth_destination instrumentKey in
  let lastTradeDestination := last_trade_destination instrumentKey in
  s ← get;
  match JsMap.get depthDestination (depthCallbacks s) with
  | Some cbs =>
      let cbs' := remove_first depthCallback cbs in
      modify (fun s =>
        set_depthCallbacks (JsMap.set depthDestination cbs' (depthCallbacks s)) s) ;;
      when (length cbs' =? 0)%nat
        (modify (fun s =>
           set_depthCallbacks (JsMap.remove depthDestination (depthCallbacks s)) s) ;;
         s ← get;
         let subId := subscriptions s !! depthDestination in
         when (truthy_id subId && ws_open s)
           (ws_send (UNSUBSCRIBE (default 0 subId)) ;;
            modify (fun s =>
              set_subscriptions (delete depthDestination (subscriptions s)) s)))
  | None => mret tt
  end ;;
  s ← get;
  match JsMap.get lastTradeDestination (lastTradeCallbacks s) with
  | Some cbs =>
      let cbs' := remove_first lastTradeCallback cbs in
      modify (fun s =>
        set_lastTradeCallbacks
          (JsMap.set lastTradeDestination cbs' (lastTradeCallbacks s)) s) ;;
      when (length cbs' =? 0)%nat
        (modify (fun s =>
           set_lastTradeCallbacks
             (JsMap.remove lastTradeDestination (lastTradeCallbacks s)) s) ;;
         s ← get;
         let subId := subscriptions s !! lastTradeDestination in
         when (truthy_id subId && ws_open s)
           (ws_send (UNSUBSCRIBE (default 0 subId)) ;;
            modify (fun s =>
              set_subscriptions (delete lastTradeDestination (subscriptions s)) s)))
  | None => mret tt
  end.

Definition disconnect : M unit :=
  s ← get;
  match ws s with
  | Some i =>
      when (connected s && readyState_eqb (readyState_of s i) OPEN)
        (ws_send DISCONNECT) ;;
      socket_close i ;;
      modify (set_ws None)
  | None => mret tt
  end ;;
  modify (set_callbacks []) ;;
  modify (set_marketCallbacks []) ;;
  modify (set_depthCallbacks []) ;;
  modify (set_lastTradeCallbacks []) ;;
  modify (set_subscriptions ∅) ;;
  modify (set_reconnectAttempts 0) ;;
  modify (set_connected false).

Definition isConnected (s : state) : bool := connected s && ws_open s.

(** ** Events: calls of the public methods and what the browser does *)

Inductive event : Type :=
| Connect
| Disconnect
| Subscribe (accountKey : string) (cb : callback)
| Unsubscribe (accountKey : string) (cb : callback)
| SubscribeToMarketData (instrumentKey : string) (depthCb lastTradeCb : callback)
| UnsubscribeFromMarketData (instrumentKey : string) (depthCb lastTradeCb : callback)
| SendRequest (accountKey : string) (sc : scope)
| Fire (k : nat)                          (* the k-th pending task runs *)
| SocketOpen (i : nat)                    (* socket i: open event *)
| SocketMessage (i : nat) (data : wsdata) (* socket i: message event *)
| SocketError (i : nat)                   (* socket i: error event *)
| SocketClose (i : nat).                  (* socket i: close event *)

(** Whether the browser can produce the event in this state.  Method
    calls are always possible; a socket opens once, delivers messages
    while open, and closes once. *)
Definition enabled (e : event) (s : state) : bool :=
  match e with
  | Fire k => bool_decide (is_Some (pending s !! k))
  | SocketOpen i =>
      match sockets s !! i with Some CONNECTING => true | _ => false end
  | SocketMessage i _ =>
      match sockets s !! i with Some OPEN => true | _ => false end
  | SocketError i | SocketClose i =>
      match sockets s !! i with
      | Some CLOSED | None => false
      | Some _ => true
      end
  | _ => true
  end.

Definition handle (e : event) : M unit :=
  match e with
  | Connect => connect
  | Disconnect => disconnect
  | Subscribe accountKey cb => subscribe accountKey cb
  | Unsubscribe accountKey cb => unsubscribe accountKey cb
  | SubscribeToMarketData k d l => subscribeToMarketData k d l
  | UnsubscribeFromMarketData k d l => unsubscribeFromMarketData k d l
  | SendRequest accountKey sc => sendRequest accountKey sc
  | Fire k =>
      s ← get;
      modify (fun s => set_pending (delete k (pending s)) s) ;;
      match pending s !! k with
      | Some (Timer _) => connectInternal
      | Some (BlobText text) => parseMessage text
      | None => mret tt
      end
  | SocketOpen i =>
      modify (fun s => set_sockets (<[i := OPEN]> (sockets s)) s) ;; onopen
  | SocketMessage i data => onmessage data
  | SocketError i => onerror
  | SocketClose i =>
      modify (fun s => set_sockets (<[i := CLOSED]> (sockets s)) s) ;; onclose
  end.

(** One turn of the event loop.  An exception that escapes a handler is
    reported by the browser and the program goes on. *)
Definition step (e : event) (s : state) : option state :=
  if enabled e s then Some (snd (handle e s)) else None.

Fixpoint run (es : list event) (s : state) : option state :=
  match es with
  | [] => Some s
  | e :: es' =>
      match step e s with
      | Some s' => run es' s'
      | None => None
      end
  end.

Definition reachable (s : state) : Prop :=
  ∃ raises ctorThrows es, run es (init raises ctorThrows) = Some s.

(** Frames a socket has carried, oldest first. *)
Definition sent_on (i : nat) (s : state) : list frame :=
  List.map snd (List.filter (fun p => (fst p =? i)%nat) (wire s)).

(** ** The dashboard page, which calls the client

    The page has an effect for the selected account: it registers its
    callback and asks for the three parts of the account; the clean-up
    of the effect removes the callback.  Another effect calls
    [connect()] when the page is mounted and [disconnect()] when it is
    unmounted. *)
Module Dashboard.

Definition accountEffect (selectedAccountKey : string) (cb : callback) : M unit :=
  when (Str.truthy selectedAccountKey)
    (subscribe selectedAccountKey cb ;;
     sendRequest selectedAccountKey balance ;;
     sendRequest selectedAccountKey positions ;;
     sendRequest selectedAccountKey orders).

Definition accountCleanup (selectedAccountKey : string) (cb : callback) : M unit :=
  when (Str.truthy selectedAccountKey) (unsubscribe selectedAccountKey cb).

Definition mountEffect : M unit := connect.

Definition mountCleanup : M unit := disconnect.

End Dashboard.

(** ** The revision without market data

    [services/websocket.ts] is the client before market data was added:
    one registry, one loop in [resubscribeAll], no dispatch on the
    destination.  The other methods are the same, text for text. *)
Module AccountOnly.

Definition handleStompMessage (message : string) : M unit :=
  let '(destination, body, _) := scan_frame message in
  when (Str.truthy destination && Str.truthy body)
    (try_catch
       (accountUpdate ← JSON_parse body; notifyCallbacks destination accountUpdate)
       (mret tt)).

Definition resubscribeAll : M unit :=
  s ← get;
  forEach (JsMap.keys (callbacks s)) subscribeToDestination.

Definition parseMessage (message : string) : M unit :=
  if Str.startsWith message "CONNECTED" then
    modify (set_connected true) ;;
    modify (set_reconnectAttempts 0) ;;
    resubscribeAll
  else if Str.startsWith message "MESSAGE" then
    handleStompMessage message
  else
    try_catch (JSON_parse message ;; mret tt) (mret tt).

Definition disconnect : M unit :=
  s ← get;
  match ws s with
  | Some i =>
      when (connected s && readyState_eqb (readyState_of s i) OPEN)
        (ws_send DISCONNECT) ;;
      socket_close i ;;
      modify (set_ws None)
  | None => mret tt
  end ;;
  modify (set_callbacks []) ;;
  modify (set_subscriptions ∅) ;;
  modify (set_reconnectAttempts 0) ;;
  modify (set_connected false).

End AccountOnly.

(** ** Callbacks that call the client

    [invoke] is the call of a callback that leaves the client alone, as
    the callback of the dashboard does.  A callback is any function,
    though: while it runs it may call the public methods of the client,
    and [forEach] walks the array itself, which [subscribe] pushes to
    and [unsubscribe] splices, not a copy of it.  Here a callback comes
    with the calls it makes, in their order, before it returns or
    throws; which calls they are may depend on the state it finds the
    client in. *)
Module Reentrant.

Inductive client_call : Type :=
| DoConnect
| DoDisconnect
| DoSubscribe (accountKey : string) (cb : callback)
| DoUnsubscribe (accountKey : string) (cb : callback)
| DoSubscribeToMarketData (instrumentKey : string) (depthCb lastTradeCb : callback)
| DoUnsubscribeFromMarketData (instrumentKey : string) (depthCb lastTradeCb : callback)
| DoSendRequest (accountKey : string) (sc : scope).

Definition perform (c : client_call) : M unit :=
  match c with
  | DoConnect => connect
  | DoDisconnect => disconnect
  | DoSubscribe accountKey cb => subscribe accountKey cb
  | DoUnsubscribe accountKey cb => unsubscribe accountKey cb
  | DoSubscribeToMarketData k d l => subscribeToMarketData k d l
  | DoUnsubscribeFromMarketData k d l => unsubscribeFromMarketData k d l
  | DoSendRequest accountKey sc => sendRequest accountKey sc
  end.

(** What a callback does with the client: a call, made inside a [try]
    of the callback's own or not. *)
Inductive action : Type :=
| Call (c : client_call)
| Try (c : client_call).

Definition call_of (x : action) : client_call :=
  match x with
  | Call c | Try c => c
  end.

Definition act (x : action) : M unit :=
  match x with
  | Call c => perform c
  | Try c => try_catch (perform c) (mret tt)
  end.

(** The four maps of callback arrays. *)
Inductive registry_name : Type := Account | Market | Depth | LastTrade.

Definition registry_named (r : registry_name) (s : state) : registry :=
  match r with
  | Account => callbacks s
  | Market => marketCallbacks s
  | Depth => depthCallbacks s
  | LastTrade => lastTradeCallbacks s
  end.

(** The array that [forEach] walks is the one that the map held under
    the destination when the walk began.  It stays in the map until its
    key is deleted, by the [unsubscribe] that has emptied it, or until
    the map is cleared, by [disconnect()]; from then on no method
    reaches it and it keeps what it held: nothing in the first case,
    and in the second what it held before the call.  A key that comes
    back later belongs to a new array. *)
Inductive array_ref : Type :=
| InMap
| CutOff (content : list callback).

Definition array_content (r : registry_name) (d : string) (a : array_ref)
    (s : state) : list callback :=
  match a with
  | InMap => default [] (JsMap.get d (registry_named r s))
  | CutOff content => content
  end.

(** The array after the call [c] that led from [s] to [s']. *)
Definition array_after (r : registry_name) (d : string) (c : client_call)
    (s s' : state) (a : array_ref) : array_ref :=
  match a with
  | CutOff content => CutOff content
  | InMap =>
      match JsMap.get d (registry_named r s') with
      | Some _ => InMap
      | None =>
          match c with
          | DoDisconnect => CutOff (default [] (JsMap.get d (registry_named r s)))
          | _ => CutOff []
          end
      end
  end.

Section Scripts.

(** What a callback does when it is invoked with a payload and finds
    the client in a state. *)
Variable script : callback -> json -> state -> list action.

(** The actions of one invocation; a call that throws outside a [try]
    ends it. *)
Fixpoint run_calls (r : registry_name) (d : string) (xs : list action)
    (a : array_ref) : M array_ref :=
  match xs with
  | [] => mret a
  | x :: xs' =>
      s ← get;
      act x ;;
      s' ← get;
      run_calls r d xs' (array_after r d (call_of x) s s' a)
  end.

(** [callback(data)], for a callback taken from the array [a]. *)
Definition invoke (r : registry_name) (d : string) (data : json) (cb : callback)
    (a : array_ref) : M array_ref :=
  s ← get;
  modify (fun s => set_delivered (delivered s ++ [(cb, data)]) s) ;;
  a' ← run_calls r d (script cb data s) a;
  s' ← get;
  if raises s' cb data then throw (Thrown cb) else mret a'.

(** [callbacks.forEach(callback => callback(data))] from index [k] on,
    with [n] indices to go: the length is read once, before the walk,
    and an index that the array no longer has is passed over. *)
Fixpoint walk (r : registry_name) (d : string) (data : json) (n k : nat)
    (a : array_ref) : M unit :=
  match n with
  | O => mret tt
  | S n' =>
      s ← get;
      match array_content r d a s !! k with
      | Some cb => a' ← invoke r d data cb a; walk r d data n' (S k) a'
      | None => walk r d data n' (S k) a
      end
  end.

Definition notify (r : registry_name) (destination : string) (data : json)
  : M unit :=
  s ← get;
  match JsMap.get destination (registry_named r s) with
  | Some cbs => walk r destination data (length cbs) 0 InMap
  | None => mret tt
  end.

Definition notifyCallbacks : string -> json -> M unit := notify Account.
Definition notifyMarketCallbacks : string -> json -> M unit := notify Market.
Definition notifyDepthCallbacks : string -> json -> M unit := notify Depth.
Definition notifyLastTradeCallbacks : string -> json -> M unit := notify LastTrade.

Definition handleStompMessage (message : string) : M unit :=
  let '(destination, body, _) := scan_frame message in
  when (Str.truthy destination && Str.truthy body)
    (try_catch
       (if Str.includes destination "/markets/" && Str.includes destination "/depth" then
          depth ← JSON_parse body; notifyDepthCallbacks destination depth
        else if Str.includes destination "/markets/"
                && Str.includes destination "/last_trade" then
          lastTrade ← JSON_parse body; notifyLastTradeCallbacks destination lastTrade
        else if Str.startsWith destination "/market/" then
          marketData ← JSON_parse body; notifyMarketCallbacks destination marketData
        else
          accountUpdate ← JSON_parse body; notifyCallbacks destination accountUpdate)
       (mret tt)).

End Scripts.

(** A callback that calls nothing. *)
Definition no_calls : callback -> json -> state -> list action :=
  fun _ _ _ => [].

End Reentrant.

(** * Vocabulary of the properties

    Concrete frames, runs and states, and the predicates in which the
    properties below are stated. *)

Local Open Scope nat_scope.
Local Open Scope list_scope.

(** ** Frames, runs and states used as examples *)

Definition silent : callback -> json -> bool := fun _ _ => false.

(** Callback 1 throws on every payload, no other callback does. *)
Definition first_throws : callback -> json -> bool := fun cb _ => (cb =? 1)%nat.

(** The account update of the dashboard's balance panel, as sent on the
    wire. *)
Definition balance_text : string :=
  "{" ++ Str.quoted "balance" ++ ":{"
      ++ Str.quoted "account_key" ++ ":" ++ Str.quoted "ACC1" ++ ","
      ++ Str.quoted "cash" ++ ":100.5,"
      ++ Str.quoted "version_number" ++ ":3}}".

Definition balance_update : json :=
  JObject [("balance",
            JObject [("account_key", JString "ACC1");
                     ("cash", JNumber 1005 (-1));
                     ("version_number", JNumber 3 0)])].

(** Inbound frames, written by the grammar of the wire: command, header
    lines, a blank line, the body, the terminating NUL. *)
Definition CONNECTED_frame : string :=
  ("CONNECTED" ++ Str.lf ++ "version:1.2" ++ Str.lf ++ Str.lf ++ Str.nul)%string.

Definition MESSAGE_frame (destination body : string) : string :=
  ("MESSAGE" ++ Str.lf ++ "destination:" ++ destination ++ Str.lf ++ Str.lf
     ++ body ++ Str.nul)%string.

(** The MESSAGE frame of C9, by the grammar of the wire: the NUL follows
    the JSON text directly. *)
Definition balance_frame : string :=
  MESSAGE_frame "/account/ACC1/updates" balance_text.

(** The same frame with a line break between the JSON text and the
    NUL. *)
Definition balance_frame_lf : string :=
  MESSAGE_frame "/account/ACC1/updates" (balance_text ++ Str.lf)%string.

(** The events that bring a new client to the connected state over
    socket 0. *)
Definition handshake : list event :=
  [Connect; Fire 0; SocketOpen 0; SocketMessage 0 (Text CONNECTED_frame)].

(** The state after a run, for runs whose events are all enabled. *)
Definition after (es : list event) (s : state) : state := default s (run es s).

(** The run that C1 describes: a listener on ACC1 is subscribed over
    socket 0, socket 0 closes, the reconnect timer opens socket 1, and
    the server acknowledges with CONNECTED. *)
Definition reconnection : list event :=
  handshake
  ++ [Subscribe "ACC1" 1; SocketClose 0; Fire 0; SocketOpen 1;
      SocketMessage 1 (Text CONNECTED_frame)].

(** A session whose first socket is still connecting. *)
Definition opening_session : state :=
  snd (handle (Fire 0) (snd (handle Connect (init silent false)))).

(** The first socket failed before it opened: one reconnect timer is
    pending. *)
Definition awaiting_retry : state :=
  after [Connect; Fire 0; SocketClose 0] (init silent false).

Definition connected_session : state := after handshake (init silent false).

Definition two_listeners : state :=
  after (handshake ++ [Subscribe "ACC1" 1; Subscribe "ACC1" 2])
    (init first_throws false).

(** Callback 1 listens on ACC1 over a connected session whose socket
    then closes. *)
Definition listener_offline : state :=
  after (handshake ++ [Subscribe "ACC1" 1; SocketClose 0]) (init silent false).

(** ** Predicates and measures *)

(** The registry after [cb] is registered for [destination]: pushed onto
    the list of the destination, which is created when absent. *)
Definition push_callback (destination : string) (cb : callback) (r : registry)
  : registry :=
  JsMap.set destination (default [] (JsMap.get destination r) ++ [cb]) r.

(** What [unsubscribe] and the two halves of [unsubscribeFromMarketData]
    do alike once the callback list of a destination is gone: the
    UNSUBSCRIBE frame and the removal of the subscription, behind their
    guard. *)
Definition drop_subscription (destination : string) : M unit :=
  s ← get;
  let subId := subscriptions s !! destination in
  when (truthy_id subId && ws_open s)
    (ws_send (UNSUBSCRIBE (default 0 subId)) ;;
     modify (fun s => set_subscriptions (delete destination (subscriptions s)) s)).

(** The state [disconnect] leaves: the registries and the counter
    cleared, the current socket (if any) asked to close, and a DISCONNECT
    frame on the wire when the session was connected over an open
    socket. *)
Definition disconnected (s : state) : state :=
  let cleared (s : state) :=
    set_connected false (set_reconnectAttempts 0 (set_subscriptions ∅
      (set_lastTradeCallbacks [] (set_depthCallbacks [] (set_marketCallbacks []
        (set_callbacks [] s)))))) in
  match ws s with
  | None => cleared s
  | Some i =>
      match readyState_of s i with
      | OPEN =>
          cleared (set_ws None (set_sockets (<[i := CLOSING]> (sockets s))
            (if connected s then set_wire (wire s ++ [(i, DISCONNECT)]) s else s)))
      | CONNECTING =>
          cleared (set_ws None (set_sockets (<[i := CLOSING]> (sockets s)) s))
      | CLOSING | CLOSED => cleared (set_ws None s)
      end
  end.

Definition respects (R : state -> state -> Prop) {A} (m : M A) : Prop :=
  ∀ s, R s (snd (m s)).

Definition attempts_kept (s s' : state) : Prop :=
  reconnectAttempts s' = reconnectAttempts s.

(** The counter stayed, or went up by one. *)
Definition counted_once (s s' : state) : Prop :=
  reconnectAttempts s' = reconnectAttempts s
  ∨ reconnectAttempts s' = S (reconnectAttempts s).

(** The step at which a CONNECTED frame reaches [parseMessage]: a text
    message, or the text of a [Blob] message once its promise resolves. *)
Definition receives_CONNECTED (e : event) (s : state) : bool :=
  match e with
  | SocketMessage _ (Text text) => Str.startsWith text "CONNECTED"
  | Fire k =>
      match pending s !! k with
      | Some (BlobText text) => Str.startsWith text "CONNECTED"
      | _ => false
      end
  | _ => false
  end.

(** The reconnection policy in the words of the specification, under its
    default configuration; attempts are counted from 1. *)
Definition spec_nextDelay (attempt : nat) : nat := 1000 * 2 ^ (attempt - 1).

Definition spec_shouldRetry (attempt : nat) : bool := (attempt <? 5)%nat.

(** The states of the specification's session machine that [connect()]
    is said to ignore, read off the fields. *)
Definition is_Opening (s : state) : bool :=
  match ws s with
  | Some i => readyState_eqb (readyState_of s i) CONNECTING && negb (connected s)
  | None => false
  end.

Definition is_AwaitingAck (s : state) : bool := ws_open s && negb (connected s).

Definition is_Connected (s : state) : bool := ws_open s && connected s.

(** Sockets that are connecting or open. *)
Definition is_outstanding (r : readyState) : bool :=
  match r with CONNECTING | OPEN => true | CLOSING | CLOSED => false end.

Definition outstanding (s : state) : nat :=
  length (List.filter is_outstanding (sockets s)).

(** A call of [subscribe] or [unsubscribe] for one account key. *)
Inductive call : Type :=
| CallSubscribe (cb : callback)
| CallUnsubscribe (cb : callback).

Definition call_event (accountKey : string) (c : call) : event :=
  match c with
  | CallSubscribe cb => Subscribe accountKey cb
  | CallUnsubscribe cb => Unsubscribe accountKey cb
  end.

(** The calls made one after the other, as long as none throws. *)
Definition make_calls (accountKey : string) (cs : list call) : M unit :=
  forEach cs (fun c => handle (call_event accountKey c)).

Definition subscribes_to (d : string) (w : list (nat * frame)) : nat :=
  length (List.filter (fun p => is_SUBSCRIBE_to d (snd p)) w).

Definition unsubscribes (w : list (nat * frame)) : nat :=
  length (List.filter (fun p => is_UNSUBSCRIBE (snd p)) w).



(** Every destination with a callback list, in the order
    [resubscribeAll] visits them. *)
Definition registered_destinations (s : state) : list string :=
  JsMap.keys (callbacks s) ++ JsMap.keys (marketCallbacks s)
  ++ JsMap.keys (depthCallbacks s) ++ JsMap.keys (lastTradeCallbacks s).

(** The callbacks registered for a destination, over the four
    registries. *)
Definition listeners (s : state) (d : string) : list callback :=
  default [] (JsMap.get d (callbacks s))
  ++ default [] (JsMap.get d (marketCallbacks s))
  ++ default [] (JsMap.get d (depthCallbacks s))
  ++ default [] (JsMap.get d (lastTradeCallbacks s)).

(** The socket [i] is the transport and is open. *)
Definition transport_open (i : nat) (s : state) : Prop :=
  ws s = Some i ∧ readyState_of s i = OPEN.

(** A registry never keeps an empty list: a destination is a key exactly
    while it has a callback. *)
Definition lists_nonempty (r : registry) : Prop :=
  ∀ d cbs, JsMap.get d r = Some cbs → cbs ≠ [].

Definition registries_nonempty (s : state) : Prop :=
  lists_nonempty (callbacks s) ∧ lists_nonempty (marketCallbacks s)
  ∧ lists_nonempty (depthCallbacks s) ∧ lists_nonempty (lastTradeCallbacks s).

(** Identifiers start at 1 and never exceed the counter, so a new one is
    always fresh. *)
Definition ids_allocated (s : state) : Prop :=
  ∀ d subId, subscriptions s !! d = Some subId → 1 ≤ subId ≤ subscriptionCounter s.

(** The transport handle refers to a socket that exists. *)
Definition ws_exists (s : state) : Prop :=
  ∀ i, ws s = Some i → i < length (sockets s).

Definition well_formed (s : state) : Prop :=
  registries_nonempty s ∧ ids_allocated s ∧ ws_exists s.

Definition keeps_well_formed (s s' : state) : Prop := well_formed s → well_formed s'.

(** ** Further vocabulary *)

(** The four callback registries hold nothing. *)
Definition no_listeners (s : state) : Prop :=
  callbacks s = [] ∧ marketCallbacks s = []
  ∧ depthCallbacks s = [] ∧ lastTradeCallbacks s = [].

(** What [JSON.stringify] wrote in [sendRequest], read back. *)
Definition request_object (sc : scope) : json :=
  JObject [("request", JString "GET"); ("scope", JString (scope_name sc))].

(** *** The line scan of [handleStompMessage], said declaratively *)

Definition is_destination_line (line : string) : bool :=
  Str.startsWith line "destination:".

(** [line.substring('destination:'.length).trim()] *)
Definition header_value (line : string) : string :=
  Str.trim (Str.drop (String.length "destination:") line).

(** The lines behind the first empty line, if there is one. *)
Fixpoint after_blank (lines : list string) : option (list string) :=
  match lines with
  | [] => None
  | line :: lines' =>
      if String.eqb line "" then Some lines' else after_blank lines'
  end.

(** A line behind the empty line counts as body unless it starts with
    [destination:], is empty, or is a NUL alone. *)
Definition is_body_line (line : string) : bool :=
  negb (is_destination_line line) && negb (String.eqb line "")
  && negb (String.eqb line Str.nul).

Definition glue (lines : list string) : string :=
  fold_right String.append "" lines.

(** The value of the last [destination:] line, wherever it stands. *)
Definition decoded_destination (lines : list string) : string :=
  from_option header_value "" (last (List.filter is_destination_line lines)).

(** The body lines, put together without separators. *)
Definition decoded_body (lines : list string) : string :=
  glue (List.filter is_body_line (default [] (after_blank lines))).

(** [lines.join('\n')] *)
Fixpoint join_lines (lines : list string) : string :=
  match lines with
  | [] => ""
  | [line] => line
  | line :: lines' => line ++ Str.lf ++ join_lines lines'
  end.

Fixpoint lf_free (s : string) : bool :=
  match s with
  | EmptyString => true
  | String c s' => negb (Ascii.eqb c Str.LF) && lf_free s'
  end.

(** *** Texts with a NUL *)

(** No character of the string is NUL. *)
Fixpoint nul_free (s : string) : bool :=
  match s with
  | EmptyString => true
  | String c s' => negb (Ascii.eqb c Str.NUL) && nul_free s'
  end.

(** [r] is what is left of [s] after a prefix without NUL. *)
Definition consumed (s r : string) : Prop :=
  ∃ p, s = (p ++ r)%string ∧ nul_free p = true.

(** *** Identifiers and timers *)

(** The identifiers of the SUBSCRIBE frames on a wire, oldest first. *)
Fixpoint subscribe_ids (w : list (nat * frame)) : list nat :=
  match w with
  | [] => []
  | (_, SUBSCRIBE subId _) :: w' => subId :: subscribe_ids w'
  | _ :: w' => subscribe_ids w'
  end.

(** Strictly increasing, and above [lo]. *)
Fixpoint increasing_from (lo : nat) (ids : list nat) : Prop :=
  match ids with
  | [] => True
  | x :: ids' => lo < x ∧ increasing_from x ids'
  end.

(** Every SUBSCRIBE frame ever sent carries a larger identifier than the
    ones before it, and none exceeds the counter. *)
Definition ids_never_reused (s : state) : Prop :=
  increasing_from 0 (subscribe_ids (wire s))
  ∧ Forall (fun x => x ≤ subscriptionCounter s) (subscribe_ids (wire s)).

(** No two destinations are recorded under one identifier. *)
Definition ids_distinct (s : state) : Prop :=
  ∀ d1 d2 subId,
    subscriptions s !! d1 = Some subId → subscriptions s !! d2 = Some subId →
    d1 = d2.

Definition ids_sound (s : state) : Prop := ids_allocated s ∧ ids_distinct s.

(** The delays the client ever asks of [setTimeout]: the 500 ms of
    [connect()], and 1000 ms doubled up to four times. *)
Definition policy_delay (t : task) : Prop :=
  match t with
  | Timer delay => delay = 500 ∨ ∃ n, n < 5 ∧ delay = 1000 * 2 ^ n
  | BlobText _ => True
  end.

Definition policy_kept (s : state) : Prop :=
  maxReconnectAttempts s = 5 ∧ reconnectDelay s = 1000
  ∧ reconnectAttempts s ≤ 5
  ∧ Forall policy_delay (pending s).

(** A relation [keeping P]: whoever starts in [P] ends in [P]. *)
Definition keeping (P : state -> Prop) (s s' : state) : Prop := P s → P s'.

(** The same account subscribed in two sessions, with [disconnect()] in
    between. *)
Definition subscribed_twice : state :=
  after (handshake
         ++ [Subscribe "ACC1" 1; Disconnect; Connect; Fire 0; SocketOpen 1;
             SocketMessage 1 (Text CONNECTED_frame); Subscribe "ACC1" 1])
    (init silent false).

(** *** The registry of the account callbacks *)

(** The callbacks registered for the updates of an account. *)
Definition account_listeners (accountKey : string) (s : state) : list callback :=
  default [] (JsMap.get (account_destination accountKey) (callbacks s)).

(** The callbacks and what they do are as before. *)
Definition same_listeners (s s' : state) : Prop :=
  callbacks s' = callbacks s ∧ raises s' = raises s.

(** One half of [unsubscribeFromMarketData]: the callback is taken out
    of its list, and with the last callback the destination goes. *)
Definition unsubscribe_half (d : string) (cb : callback)
    (registry_of : state -> registry) (set_registry : registry -> state -> state)
    (s : state) : outcome unit * state :=
  match JsMap.get d (registry_of s) with
  | Some cbs =>
      let cbs' := remove_first cb cbs in
      if length cbs' =? 0 then
        drop_subscription d
          (set_registry (JsMap.remove d (JsMap.set d cbs' (registry_of s))) s)
      else (Ret tt, set_registry (JsMap.set d cbs' (registry_of s)) s)
  | None => (Ret tt, s)
  end.

(** *** Legacy market destinations *)

Definition no_market_callbacks (s : state) : Prop := marketCallbacks s = [].

(** The destination that [handleStompMessage] reads off a frame. *)
Definition destination_of (message : string) : string :=
  fst (fst (scan_frame message)).

(** The third branch of the dispatch in [handleStompMessage]: a
    destination under [/market/] that is neither a depth nor a last-trade
    destination. *)
Definition legacy_market_destination (destination : string) : bool :=
  negb (Str.includes destination "/markets/" && Str.includes destination "/depth")
  && negb (Str.includes destination "/markets/"
           && Str.includes destination "/last_trade")
  && Str.startsWith destination "/market/".

(** *** Subscriptions recorded without a frame *)

(** Nothing but the subscription map and its counter has changed, and
    the map has only grown. *)
Definition recorded_only (s s' : state) : Prop :=
  wire s' = wire s ∧ registered_destinations s' = registered_destinations s
  ∧ (ws_open s' = ws_open s ∧ connected s' = connected s)
  ∧ ∀ d, is_Some (subscriptions s !! d) → is_Some (subscriptions s' !! d).

(** Two sockets were asked for, as after [connect()], [disconnect()],
    [connect()] in a row; the first has opened and has sent CONNECT, the
    second is the transport and still connecting. *)
Definition second_socket_opening : state :=
  after [Subscribe "ACC1" 1; Connect; Connect; Fire 0; SocketOpen 0; Fire 0]
    (init silent false).

(** The page was left, the socket has closed, and the text of a Blob
    that the socket had delivered is still to come. *)
Definition blob_outstanding : state :=
  after [Connect; Fire 0; SocketOpen 0; SocketMessage 0 (Blob CONNECTED_frame);
         Disconnect; SocketClose 0]
    (init silent false).

(** No callback for market data is registered. *)
Definition no_market_data (s : state) : Prop :=
  marketCallbacks s = [] ∧ depthCallbacks s = [] ∧ lastTradeCallbacks s = [].

(** The last branch of the dispatch in [handleStompMessage]. *)
Definition account_branch (destination : string) : bool :=
  negb (Str.includes destination "/markets/" && Str.includes destination "/depth")
  && negb (Str.includes destination "/markets/"
           && Str.includes destination "/last_trade")
  && negb (Str.startsWith destination "/market/").

(** *** Events of a socket that is not the transport *)

(** A second [connect()] came while the first socket was connecting, so
    two sockets exist; the session is connected over the second. *)
Definition connected_over_second : state :=
  after [Connect; Fire 0; Connect; Fire 0; SocketOpen 1;
         SocketMessage 1 (Text CONNECTED_frame)]
    (init silent false).

(** *** Callbacks that call the client *)

(** No invocation follows one that raises. *)
Definition ends_at_exception (s : state) (invoked : list (callback * json)) : Prop :=
  ∀ l1 c v l2, invoked = l1 ++ (c, v) :: l2 → raises s c v = true → l2 = [].

(** The invocations made so far and what the callbacks do are as
    before. *)
Definition same_deliveries (s s' : state) : Prop :=
  delivered s' = delivered s ∧ raises s' = raises s.

(** Three callbacks listen on ACC1 and none of them throws. *)
Definition three_listeners : state :=
  after (handshake ++ [Subscribe "ACC1" 1; Subscribe "ACC1" 2; Subscribe "ACC1" 3])
    (init silent false).

(** Callback 1 removes itself when it is invoked; the others call
    nothing. *)
Definition first_leaves : callback -> json -> state -> list Reentrant.action :=
  fun cb _ _ =>
    if cb =? 1 then [Reentrant.Call (Reentrant.DoUnsubscribe "ACC1" 1)] else [].

(** Callback 1 calls [disconnect()] when it is invoked. *)
Definition first_disconnects : callback -> json -> state -> list Reentrant.action :=
  fun cb _ _ => if cb =? 1 then [Reentrant.Call Reentrant.DoDisconnect] else [].

(** Callbacks 1 and 2 listen on ACC1 and neither throws. *)
Definition two_quiet_listeners : state :=
  after (handshake ++ [Subscribe "ACC1" 1; Subscribe "ACC1" 2]) (init silent false).

(** * Properties *)

(** Closed goals about concrete runs: a conjunction of equations, each
    settled by evaluating both sides. *)
Ltac by_evaluation :=
  repeat match goal with |- _ ∧ _ => split end;
  solve [vm_compute; reflexivity].

Create HintDb monad_ops.
#[global] Hint Unfold mbind mret M_bind M_ret get modify throw when defer : monad_ops.

Ltac run_monad := autounfold with monad_ops; simpl.

(** ** [JSON.parse] on the payload of the examples *)

Example parse_balance : Json.parse balance_text = Some balance_update.
Proof. vm_compute. reflexivity. Qed.

(** With a NUL behind it the value is read in full; the NUL is what is
    left over, and it is not white space. *)
Example value_before_nul :
  Json.value (2 * String.length (balance_text ++ Str.nul) + 2)
    (balance_text ++ Str.nul)
  = Some (balance_update, Str.nul).
Proof. vm_compute. reflexivity. Qed.

Example parse_rejects_trailing_nul : Json.parse (balance_text ++ Str.nul) = None.
Proof. vm_compute. reflexivity. Qed.

Lemma JSON_parse_result (text : string) (s : state) :
  JSON_parse text s
  = (match Json.parse text with Some v => Ret v | None => Exn SyntaxError end, s).
Proof. unfold JSON_parse. destruct (Json.parse text); reflexivity. Qed.

(** ** Strings and maps *)

Lemma string_length_app (s1 s2 : string) :
  String.length (s1 ++ s2)%string = String.length s1 + String.length s2.
Proof. induction s1 as [|c s1 IH]; simpl; [reflexivity | rewrite IH; reflexivity]. Qed.

Lemma string_app_inj_r (s1 s2 t : string) :
  (s1 ++ t)%string = (s2 ++ t)%string → s1 = s2.
Proof.
  revert s2. induction s1 as [|c s1 IH]; intros [|c2 s2] H.
  - reflexivity.
  - exfalso. apply (f_equal String.length) in H.
    rewrite !string_length_app in H. simpl in H. lia.
  - exfalso. apply (f_equal String.length) in H.
    rewrite !string_length_app in H. simpl in H. lia.
  - change (String c (s1 ++ t) = String c2 (s2 ++ t))%string in H.
    injection H as -> H. f_equal. apply IH, H.
Qed.

(** No two account keys share a destination. *)
Lemma account_destination_inj (k1 k2 : string) :
  account_destination k1 = account_destination k2 → k1 = k2.
Proof.
  unfold account_destination. intros H.
  apply (inj (String.app "/account/")) in H.
  apply string_app_inj_r in H. exact H.
Qed.

Lemma JsMap_get_set {V} (k : string) (v : V) (m : JsMap.t V) :
  JsMap.get k (JsMap.set k v m) = Some v.
Proof.
  induction m as [|[k' v'] m IH]; simpl.
  - rewrite String.eqb_refl. reflexivity.
  - destruct (String.eqb k k') eqn:E; simpl.
    + rewrite String.eqb_refl. reflexivity.
    + rewrite E. exact IH.
Qed.

Lemma JsMap_get_remove {V} (k : string) (m : JsMap.t V) :
  JsMap.get k (JsMap.remove k m) = None.
Proof.
  induction m as [|[k' v'] m IH]; simpl; [reflexivity|].
  destruct (String.eqb k k') eqn:E; simpl; [exact IH|].
  rewrite E. exact IH.
Qed.

Lemma JsMap_get_set_ne {V} (k k' : string) (v : V) (m : JsMap.t V) :
  k' ≠ k → JsMap.get k' (JsMap.set k v m) = JsMap.get k' m.
Proof.
  intros Hne. induction m as [|[k0 v0] m IH]; simpl.
  - destruct (String.eqb_spec k' k); [contradiction | reflexivity].
  - destruct (String.eqb_spec k k0) as [->|Hk]; simpl.
    + destruct (String.eqb_spec k' k0); [contradiction | reflexivity].
    + destruct (String.eqb k' k0); [reflexivity | exact IH].
Qed.

Lemma JsMap_get_remove_ne {V} (k k' : string) (m : JsMap.t V) :
  k' ≠ k → JsMap.get k' (JsMap.remove k m) = JsMap.get k' m.
Proof.
  intros Hne. induction m as [|[k0 v0] m IH]; simpl; [reflexivity|].
  destruct (String.eqb_spec k k0) as [->|Hk]; simpl.
  - destruct (String.eqb_spec k' k0); [contradiction | exact IH].
  - destruct (String.eqb k' k0); [reflexivity | exact IH].
Qed.

Lemma JsMap_keys_get {V} (k : string) (m : JsMap.t V) :
  k ∈ JsMap.keys m ↔ is_Some (JsMap.get k m).
Proof.
  unfold JsMap.keys. induction m as [|[k' v] m IH]; simpl.
  - split; [intros H; inversion H | intros [? [=]]].
  - rewrite elem_of_cons, IH. destruct (String.eqb_spec k k') as [->|Hne].
    + split; eauto.
    + split; [intros [?|?]; [contradiction | assumption] | tauto].
Qed.

Lemma JsMap_set_set {V} (k : string) (v v' : V) (m : JsMap.t V) :
  JsMap.set k v (JsMap.set k v' m) = JsMap.set k v m.
Proof.
  induction m as [|[k0 v0] m IH]; simpl.
  - rewrite String.eqb_refl. reflexivity.
  - destruct (String.eqb k k0) eqn:E; simpl.
    + rewrite String.eqb_refl. reflexivity.
    + rewrite E, IH. reflexivity.
Qed.

(** The two statements that register a callback, in one step. *)
Lemma push_in_two_steps (d : string) (cb : callback) (r : registry) :
  let r' := if negb (JsMap.has d r) then JsMap.set d [] r else r in
  JsMap.get d r' = Some (default [] (JsMap.get d r))
  ∧ JsMap.set d (default [] (JsMap.get d r) ++ [cb]) r' = push_callback d cb r.
Proof.
  unfold JsMap.has, push_callback.
  destruct (JsMap.get d r) as [cbs|] eqn:Hget; simpl.
  - split; [exact Hget | reflexivity].
  - split; [apply JsMap_get_set | apply JsMap_set_set].
Qed.

Lemma remove_first_only (cb : callback) : remove_first cb [cb] = [].
Proof. simpl. rewrite Nat.eqb_refl. reflexivity. Qed.

(** ** Loops and callbacks *)

Lemma forEach_cons {A} (x : A) (xs : list A) (body : A -> M unit) (s : state) :
  forEach (x :: xs) body s
  = match body x s with
    | (Ret _, s') => forEach xs body s'
    | (Exn e, s') => (Exn e, s')
    end.
Proof. reflexivity. Qed.

Lemma forEach_app {A} (xs ys : list A) (body : A -> M unit) (s : state) :
  forEach (xs ++ ys) body s
  = match forEach xs body s with
    | (Ret _, s1) => forEach ys body s1
    | (Exn e, s1) => (Exn e, s1)
    end.
Proof.
  revert s. induction xs as [|x xs IH]; intros s; [reflexivity|].
  rewrite <- app_comm_cons, !forEach_cons.
  destruct (body x s) as [[[]|e] s1]; [apply IH | reflexivity].
Qed.

Lemma forEach_unchanged {A} (xs : list A) (body : A -> M unit) (s : state) :
  (∀ x, x ∈ xs → body x s = (Ret tt, s)) → forEach xs body s = (Ret tt, s).
Proof.
  induction xs as [|x xs IH]; intros H; [reflexivity|].
  rewrite forEach_cons, (H x) by (apply list_elem_of_here).
  apply IH. intros y Hy. apply H, list_elem_of_further, Hy.
Qed.

Lemma invoke_result (data : json) (cb : callback) (s : state) :
  invoke data cb s
  = (if raises s cb data then Exn (Thrown cb) else Ret tt,
     set_delivered (delivered s ++ [(cb, data)]) s).
Proof. unfold invoke. run_monad. destruct (raises s cb data); reflexivity. Qed.

Lemma forEach_invoke_quiet (data : json) (cbs : list callback) (s : state) :
  (∀ c, c ∈ cbs → raises s c data = false) →
  forEach cbs (invoke data) s
  = (Ret tt, set_delivered (delivered s ++ List.map (fun c => (c, data)) cbs) s).
Proof.
  revert s. induction cbs as [|c cbs IH]; intros s Hq.
  - simpl. rewrite app_nil_r. destruct s; reflexivity.
  - rewrite forEach_cons, invoke_result.
    rewrite (Hq c) by (apply list_elem_of_here).
    rewrite IH by (intros c' Hc'; simpl; apply Hq, list_elem_of_further, Hc').
    simpl. rewrite <- app_assoc. reflexivity.
Qed.

Lemma forEach_invoke_raise (data : json) (before after : list callback)
    (cb : callback) (s : state) :
  (∀ c, c ∈ before → raises s c data = false) →
  raises s cb data = true →
  forEach (before ++ cb :: after) (invoke data) s
  = (Exn (Thrown cb),
     set_delivered (delivered s ++ List.map (fun c => (c, data)) (before ++ [cb])) s).
Proof.
  revert s. induction before as [|c before IH]; intros s Hq Hr.
  - simpl app. rewrite forEach_cons, invoke_result, Hr. reflexivity.
  - rewrite <- app_comm_cons, forEach_cons, invoke_result.
    rewrite (Hq c) by (apply list_elem_of_here).
    rewrite IH; simpl; [|intros c' Hc'; apply Hq, list_elem_of_further, Hc' | exact Hr].
    rewrite <- app_assoc. reflexivity.
Qed.

(** ** What the methods compute *)

Lemma ws_open_inv (s : state) :
  ws_open s = true → ∃ i, ws s = Some i ∧ readyState_of s i = OPEN.
Proof.
  unfold ws_open. destruct (ws s) as [i|]; [|discriminate].
  destruct (readyState_of s i) eqn:E; try discriminate. eauto.
Qed.

Lemma disconnect_result (s : state) : disconnect s = (Ret tt, disconnected s).
Proof.
  unfold disconnect, disconnected, socket_close, ws_send. run_monad.
  destruct (ws s) as [i|] eqn:Hws; simpl; [|reflexivity].
  destruct (connected s), (readyState_of s i) eqn:Hrs; simpl;
    rewrite ?Hws; simpl; unfold readyState_of in *; simpl;
    rewrite ?Hrs; simpl; rewrite ?Hrs; reflexivity.
Qed.

Lemma disconnected_pending (s : state) : pending (disconnected s) = pending s.
Proof.
  unfold disconnected.
  destruct (ws s); [destruct (readyState_of s _), (connected s)|]; reflexivity.
Qed.

Lemma disconnected_ctorThrows (s : state) :
  ctorThrows (disconnected s) = ctorThrows s.
Proof.
  unfold disconnected.
  destruct (ws s); [destruct (readyState_of s _), (connected s)|]; reflexivity.
Qed.

Lemma connectInternal_opens (s : state) :
  ctorThrows s = false →
  connectInternal s
  = (Ret tt,
     set_ws (Some (length (sockets s))) (set_sockets (sockets s ++ [CONNECTING]) s)).
Proof.
  intros H. unfold connectInternal, try_catch, new_WebSocket. run_monad.
  rewrite H. reflexivity.
Qed.

(** A pending timer that runs makes a connection attempt. *)
Lemma fire_timer (s : state) (k delay : nat) :
  pending s !! k = Some (Timer delay) →
  ctorThrows s = false →
  step (Fire k) s
  = Some (set_ws (Some (length (sockets s)))
            (set_sockets (sockets s ++ [CONNECTING])
               (set_pending (delete k (pending s)) s))).
Proof.
  intros Hk Hctor. unfold step. simpl enabled.
  rewrite bool_decide_eq_true_2 by (rewrite Hk; eauto).
  f_equal. unfold handle. run_monad. rewrite Hk.
  rewrite connectInternal_opens by exact Hctor. reflexivity.
Qed.

Lemma subscribeToDestination_known (d : string) (s : state) :
  is_Some (subscriptions s !! d) → subscribeToDestination d s = (Ret tt, s).
Proof.
  intros [subId H]. unfold subscribeToDestination. run_monad. rewrite H. reflexivity.
Qed.

Lemma subscribeToDestination_fresh (d : string) (s : state) (i : nat) :
  subscriptions s !! d = None →
  ws s = Some i → readyState_of s i = OPEN →
  subscribeToDestination d s
  = (Ret tt,
     set_wire (wire s ++ [(i, SUBSCRIBE (S (subscriptionCounter s)) d)])
       (set_subscriptions (<[d := S (subscriptionCounter s)]> (subscriptions s))
          (set_subscriptionCounter (S (subscriptionCounter s)) s))).
Proof.
  intros Hd Hws Hrs.
  unfold subscribeToDestination, ws_send, ws_open, readyState_of in *.
  run_monad. simpl in Hrs. rewrite Hd. simpl.
  repeat (rewrite ?Hws, ?Hrs; simpl). reflexivity.
Qed.

Lemma drop_subscription_sent (d : string) (s : state) (subId i : nat) :
  subscriptions s !! d = Some subId → subId ≠ 0 →
  ws s = Some i → readyState_of s i = OPEN →
  drop_subscription d s
  = (Ret tt,
     set_subscriptions (delete d (subscriptions s))
       (set_wire (wire s ++ [(i, UNSUBSCRIBE subId)]) s)).
Proof.
  intros Hd Hid Hws Hrs.
  unfold drop_subscription, ws_send, ws_open, readyState_of in *.
  run_monad. simpl in Hrs. rewrite Hd. simpl.
  destruct subId as [|n]; [congruence|].
  repeat (rewrite ?Hws, ?Hrs; simpl). reflexivity.
Qed.

Lemma drop_subscription_skipped (d : string) (s : state) :
  truthy_id (subscriptions s !! d) && ws_open s = false →
  drop_subscription d s = (Ret tt, s).
Proof. intros H. unfold drop_subscription. run_monad. rewrite H. reflexivity. Qed.

Lemma subscribe_result (accountKey : string) (cb : callback) (s : state) :
  let d := account_destination accountKey in
  let s0 := set_callbacks (push_callback d cb (callbacks s)) s in
  subscribe accountKey cb s
  = if connected s && ws_open s then subscribeToDestination d s0 else (Ret tt, s0).
Proof.
  intros d s0. subst s0.
  destruct (push_in_two_steps d cb (callbacks s)) as [Hget Hset].
  unfold subscribe. fold d. unfold mbind, M_bind, get, when, modify, mret, M_ret.
  destruct (negb (JsMap.has d (callbacks s))); simpl in *;
    rewrite Hget; simpl; rewrite Hset;
    unfold ws_open, readyState_of; simpl;
    match goal with |- context [if ?c then _ else _] => destruct c end;
    reflexivity.
Qed.

Lemma subscribeToMarketData_result (instrumentKey : string) (dcb lcb : callback)
    (s : state) :
  let dd := depth_destination instrumentKey in
  let ld := last_trade_destination instrumentKey in
  let s0 := set_lastTradeCallbacks (push_callback ld lcb (lastTradeCallbacks s))
              (set_depthCallbacks (push_callback dd dcb (depthCallbacks s)) s) in
  subscribeToMarketData instrumentKey dcb lcb s
  = if connected s && ws_open s
    then (subscribeToDestination dd ;; subscribeToDestination ld) s0
    else (Ret tt, s0).
Proof.
  intros dd ld s0. subst s0.
  destruct (push_in_two_steps dd dcb (depthCallbacks s)) as [Hget1 Hset1].
  destruct (push_in_two_steps ld lcb (lastTradeCallbacks s)) as [Hget2 Hset2].
  unfold subscribeToMarketData. fold dd ld.
  unfold get, when, modify.
  unfold mbind at 1 2 3 4 5 6 7 8 9 10. unfold M_bind, mret, M_ret.
  destruct (negb (JsMap.has dd (depthCallbacks s))); simpl in *;
    rewrite Hget1; simpl; rewrite Hset1;
    (destruct (negb (JsMap.has ld (lastTradeCallbacks s))); simpl in *;
     rewrite Hget2; simpl; rewrite Hset2;
     unfold ws_open, readyState_of; simpl;
     match goal with |- context [if ?c then _ else _] => destruct c end;
     reflexivity).
Qed.

Lemma unsubscribe_result (accountKey : string) (cb : callback) (s : state) :
  let d := account_destination accountKey in
  unsubscribe accountKey cb s
  = match JsMap.get d (callbacks s) with
    | Some cbs =>
        let cbs' := remove_first cb cbs in
        if (length cbs' =? 0)%nat then
          drop_subscription d
            (set_callbacks (JsMap.remove d (JsMap.set d cbs' (callbacks s))) s)
        else (Ret tt, set_callbacks (JsMap.set d cbs' (callbacks s)) s)
    | None => (Ret tt, s)
    end.
Proof.
  unfold unsubscribe. run_monad.
  destruct (JsMap.get (account_destination accountKey) (callbacks s)) as [cbs|];
    [|reflexivity].
  simpl. destruct (length (remove_first cb cbs) =? 0)%nat; reflexivity.
Qed.

(** [parseMessage] on a CONNECTED frame. *)
Lemma parseMessage_CONNECTED (message : string) (s : state) :
  Str.startsWith message "CONNECTED" = true →
  parseMessage message s
  = resubscribeAll (set_reconnectAttempts 0 (set_connected true s)).
Proof. intros H. unfold parseMessage. rewrite H. reflexivity. Qed.

Lemma handleStompMessage_completes (message : string) (s : state) :
  fst (handleStompMessage message s) = Ret tt.
Proof.
  unfold handleStompMessage.
  destruct (scan_frame message) as [[destination body] inBody].
  destruct (Str.truthy destination && Str.truthy body); [|reflexivity].
  unfold when, try_catch.
  match goal with |- fst (match ?m s with _ => _ end) = _ =>
    destruct (m s) as [[[]|e] s'] end; reflexivity.
Qed.

(** A frame for an account destination goes to the last branch of the
    router. *)
Lemma handleStompMessage_account (message d body : string) (inBody : bool)
    (s : state) :
  scan_frame message = (d, body, inBody) →
  Str.truthy d && Str.truthy body = true →
  Str.includes d "/markets/" = false →
  Str.startsWith d "/market/" = false →
  handleStompMessage message s
  = try_catch (accountUpdate ← JSON_parse body; notifyCallbacks d accountUpdate)
      (mret tt) s.
Proof.
  intros Hscan Htruthy Hmarkets Hmarket.
  unfold handleStompMessage. rewrite Hscan, Htruthy, Hmarkets, Hmarket.
  reflexivity.
Qed.

Lemma scan_balance_frame :
  scan_frame balance_frame
  = ("/account/ACC1/updates", (balance_text ++ Str.nul)%string, true).
Proof. vm_compute. reflexivity. Qed.

Lemma scan_balance_frame_lf :
  scan_frame balance_frame_lf = ("/account/ACC1/updates", balance_text, true).
Proof. vm_compute. reflexivity. Qed.

Lemma resubscribeAll_forEach (s : state) :
  resubscribeAll s = forEach (registered_destinations s) subscribeToDestination s.
Proof.
  unfold registered_destinations, resubscribeAll, mbind, M_bind, get.
  rewrite forEach_app.
  destruct (forEach (JsMap.keys (callbacks s)) _ s) as [[[]|e1] s1]; [|reflexivity].
  rewrite forEach_app.
  destruct (forEach (JsMap.keys (marketCallbacks s)) _ s1) as [[[]|e2] s2];
    [|reflexivity].
  rewrite forEach_app.
  destruct (forEach (JsMap.keys (depthCallbacks s)) _ s2) as [[[]|e3] s3];
    reflexivity.
Qed.

(** [subscribeToDestination] returns early for a destination that is in
    the subscription map, and nothing takes a destination out of that map
    when the socket closes: so on the CONNECTED frame of a reconnection
    the destinations subscribed before are all skipped. *)
Lemma resubscribeAll_skips_recorded (s : state) :
  (∀ d, d ∈ registered_destinations s → is_Some (subscriptions s !! d)) →
  resubscribeAll s = (Ret tt, s).
Proof.
  unfold registered_destinations. intros H.
  unfold resubscribeAll. run_monad.
  repeat (rewrite forEach_unchanged;
          [|intros d Hd; apply subscribeToDestination_known, H;
            rewrite !elem_of_app; tauto]).
  reflexivity.
Qed.

(** ** Relating the state before and after a computation

    [R] is any reflexive and transitive relation between states; a
    computation [respects] it when its final state is related to its
    initial state, whether it returns or throws.  The combinators of [M]
    preserve this, so a method respects [R] as soon as the field updates
    it performs do. *)

Section Respects.

Variable R : state -> state -> Prop.
Hypothesis R_refl : ∀ s, R s s.
Hypothesis R_trans : ∀ s1 s2 s3, R s1 s2 → R s2 s3 → R s1 s3.

Lemma respects_ret {A} (a : A) : respects R (mret a).
Proof. intros s. apply R_refl. Qed.

Lemma respects_get : respects R get.
Proof. intros s. apply R_refl. Qed.

Lemma respects_throw {A} (e : exn) : respects R (@throw A e).
Proof. intros s. apply R_refl. Qed.

Lemma respects_modify (f : state -> state) :
  (∀ s, R s (f s)) → respects R (modify f).
Proof. intros H s. apply H. Qed.

Lemma respects_bind {A B} (m : M A) (f : A -> M B) :
  respects R m → (∀ a, respects R (f a)) → respects R (m ≫= f).
Proof.
  intros Hm Hf s. unfold mbind, M_bind. specialize (Hm s).
  destruct (m s) as [[a|e] s']; simpl in *; [|assumption].
  eapply R_trans; [exact Hm | apply Hf].
Qed.

Lemma respects_try_catch (body handler : M unit) :
  respects R body → respects R handler → respects R (try_catch body handler).
Proof.
  intros Hb Hh s. unfold try_catch. specialize (Hb s).
  destruct (body s) as [[a|e] s']; simpl in *; [assumption|].
  eapply R_trans; [exact Hb | apply Hh].
Qed.

Lemma respects_when (b : bool) (m : M unit) : respects R m → respects R (when b m).
Proof. intros H. destruct b; [exact H | apply respects_ret]. Qed.

Lemma respects_forEach {A} (xs : list A) (body : A -> M unit) :
  (∀ x, respects R (body x)) → respects R (forEach xs body).
Proof.
  intros H. induction xs as [|x xs IH]; simpl.
  - apply respects_ret.
  - apply respects_bind; [apply H | intros _; exact IH].
Qed.

End Respects.

(** Goals of the form [respects R m] are split along the structure of
    [m]; what remains are the field updates, handed to [tac]. *)
Ltac respects_with tac :=
  repeat first
    [ apply respects_ret; [solve [tac]]
    | apply respects_get; [solve [tac]]
    | apply respects_throw; [solve [tac]]
    | apply respects_bind; [solve [tac] | | intros ?]
    | apply respects_try_catch; [solve [tac] | |]
    | apply respects_when; [solve [tac] |]
    | apply respects_forEach; [solve [tac] | solve [tac] | intros ?]
    | apply respects_modify; solve [tac]
    | match goal with
      | |- respects _ (match ?x with _ => _ end) => destruct x
      | |- respects _ (if ?x then _ else _) => destruct x
      | |- respects _ (let '(_, _) := ?x in _) => destruct x
      end ].

(** ** Invariants of the reachable states *)

Lemma push_callback_nonempty (d : string) (cb : callback) (r : registry) :
  lists_nonempty r → lists_nonempty (push_callback d cb r).
Proof.
  intros Hr d' cbs. unfold push_callback.
  destruct (String.eqb_spec d' d) as [->|Hne].
  - rewrite JsMap_get_set. intros [= <-]. intros H.
    apply app_eq_nil in H as [_ H]. discriminate.
  - rewrite JsMap_get_set_ne by exact Hne. apply Hr.
Qed.

Lemma splice_nonempty (d : string) (cbs : list callback) (r : registry) :
  lists_nonempty r → cbs ≠ [] → lists_nonempty (JsMap.set d cbs r).
Proof.
  intros Hr Hcbs d' cbs'. destruct (String.eqb_spec d' d) as [->|Hne].
  - rewrite JsMap_get_set. intros [= <-]. exact Hcbs.
  - rewrite JsMap_get_set_ne by exact Hne. apply Hr.
Qed.

Lemma delete_nonempty (d : string) (cbs : list callback) (r : registry) :
  lists_nonempty r → lists_nonempty (JsMap.remove d (JsMap.set d cbs r)).
Proof.
  intros Hr d' cbs'. destruct (String.eqb_spec d' d) as [->|Hne].
  - rewrite JsMap_get_remove. discriminate.
  - rewrite JsMap_get_remove_ne, JsMap_get_set_ne by exact Hne. apply Hr.
Qed.

Lemma keeps_well_formed_refl (s : state) : keeps_well_formed s s.
Proof. intros H. exact H. Qed.

Lemma keeps_well_formed_trans (s1 s2 s3 : state) :
  keeps_well_formed s1 s2 → keeps_well_formed s2 s3 → keeps_well_formed s1 s3.
Proof. intros H12 H23 H. apply H23, H12, H. Qed.

Lemma length_cell_insert (l : list readyState) (i : nat) (r : readyState) :
  length (<[i := r]> l) = length l.
Proof. apply length_insert. Qed.

Ltac wf_fields :=
  first
    [ exact keeps_well_formed_refl
    | exact keeps_well_formed_trans
    | intros;
      match goal with
      | |- keeps_well_formed _ _ =>
          let H := fresh "H" in
          intros H; destruct H as ((Hc & Hm & Hd & Hl) & Hids & Hws);
          unfold well_formed, registries_nonempty, ids_allocated, ws_exists in *;
          simpl in *;
          repeat split;
          try assumption;
          try (intros ? ?; rewrite ?length_app, ?length_cell_insert;
               intros; simpl;
               try match goal with
                   | Hi : Some _ = Some _ |- _ => injection Hi as <-
                   end;
               try match goal with
                   | Hw : ∀ i, ws _ = Some i → _, Hi : ws _ = Some _ |- _ =>
                       specialize (Hw _ Hi)
                   end;
               lia)
      end ].

Lemma subscribeToDestination_wf (d : string) :
  respects keeps_well_formed (subscribeToDestination d).
Proof.
  intros s. destruct (subscriptions s !! d) as [subId|] eqn:Hd.
  - rewrite subscribeToDestination_known by eauto. apply keeps_well_formed_refl.
  - assert (Hids : ∀ s', ids_allocated s →
               subscriptions s' = <[d := S (subscriptionCounter s)]> (subscriptions s) →
               subscriptionCounter s' = S (subscriptionCounter s) →
               ids_allocated s').
    { intros s' H Hs Hc d' subId'. rewrite Hs, Hc.
      destruct (decide (d = d')) as [<-|Hne].
      - rewrite lookup_insert_eq. intros [= <-]. lia.
      - rewrite lookup_insert_ne by exact Hne. intros H'.
        specialize (H _ _ H'). lia. }
    unfold subscribeToDestination, ws_send. run_monad. rewrite Hd. simpl.
    unfold ws_open, readyState_of. simpl.
    destruct (ws s) as [i|] eqn:Hws; simpl;
      [destruct (default CLOSED (sockets s !! i)) eqn:Hrs; simpl;
       rewrite ?Hws; simpl; rewrite ?Hrs; simpl|];
      intros ((Hc & Hm & Hdp & Hl) & Hid & Hw);
      (split; [repeat split; assumption|]);
      (split; [eapply Hids; [exact Hid | reflexivity | reflexivity]|]);
      intros j Hj; simpl in *; apply Hw; congruence.
Qed.

Lemma drop_subscription_wf (d : string) :
  respects keeps_well_formed (drop_subscription d).
Proof.
  intros s. destruct (truthy_id (subscriptions s !! d) && ws_open s) eqn:Hguard.
  - apply andb_true_iff in Hguard as [Hid Hopen].
    destruct (subscriptions s !! d) as [subId|] eqn:Hd; [|discriminate].
    simpl in Hid. apply negb_true_iff, Nat.eqb_neq in Hid.
    destruct (ws_open_inv s Hopen) as (i & Hws & Hrs).
    rewrite (drop_subscription_sent d s subId i) by assumption.
    intros (Hreg & Hids & Hw). split; [exact Hreg|]. split; [|exact Hw].
    intros d' subId'. simpl. intros H.
    apply lookup_delete_Some in H as [_ H]. apply (Hids _ _ H).
  - rewrite drop_subscription_skipped by exact Hguard.
    apply keeps_well_formed_refl.
Qed.

(** Splitting a goal [respects keeps_well_formed m] along [m], with the
    two lemmas above at the calls they are about. *)
Ltac wf_go :=
  repeat first
    [ apply subscribeToDestination_wf
    | apply drop_subscription_wf
    | apply respects_ret; [wf_fields]
    | apply respects_get; [wf_fields]
    | apply respects_throw; [wf_fields]
    | apply respects_bind; [wf_fields | | intros ?]
    | apply respects_try_catch; [wf_fields | |]
    | apply respects_when; [wf_fields |]
    | apply respects_forEach; [wf_fields | wf_fields | intros ?]
    | apply respects_modify; solve [wf_fields]
    | match goal with
      | |- respects _ (match ?x with _ => _ end) => destruct x eqn:?
      | |- respects _ (if ?x then _ else _) => destruct x eqn:?
      | |- respects _ (let '(_, _) := ?x in _) => destruct x eqn:?
      end ].

Lemma subscribe_wf (k : string) (cb : callback) :
  respects keeps_well_formed (subscribe k cb).
Proof.
  intros s. rewrite subscribe_result.
  set (s0 := set_callbacks _ s).
  assert (H0 : keeps_well_formed s s0).
  { intros ((Hc & Hrest) & Hids & Hw). split; [|split; assumption].
    split; [|exact Hrest]. apply push_callback_nonempty, Hc. }
  destruct (connected s && ws_open s); [|exact H0].
  apply (keeps_well_formed_trans s s0); [exact H0|].
  apply subscribeToDestination_wf.
Qed.

Lemma well_formed_intro (s : state) :
  lists_nonempty (callbacks s) → lists_nonempty (marketCallbacks s) →
  lists_nonempty (depthCallbacks s) → lists_nonempty (lastTradeCallbacks s) →
  ids_allocated s → ws_exists s → well_formed s.
Proof.
  intros Hc Hm Hd Hl Hids Hw.
  split; [split; [|split; [|split]]|split]; assumption.
Qed.

(** The splice and the deletion that follows it, taken together: in
    between, the registry may hold an empty list. *)
Ltac splice_then_delete d cbs' :=
  intros s; destruct cbs' as [|c cbs'];
  [ unfold mbind, M_bind, modify, when; simpl;
    match goal with
    | |- keeps_well_formed _ (snd (drop_subscription _ ?s0)) =>
        apply (keeps_well_formed_trans s s0);
        [|apply (drop_subscription_wf d s0)]
    end;
    intros ((Hc & Hm & Hd & Hl) & Hids & Hw);
    apply well_formed_intro; simpl; try assumption;
    apply delete_nonempty; assumption
  | unfold mbind, M_bind, modify, when; simpl;
    intros ((Hc & Hm & Hd & Hl) & Hids & Hw);
    apply well_formed_intro; simpl; try assumption;
    apply splice_nonempty; [assumption | discriminate] ].

Lemma unsubscribe_splice_wf (d : string) (cbs' : list callback) :
  respects keeps_well_formed
    (modify (fun s => set_callbacks (JsMap.set d cbs' (callbacks s)) s) ;;
     when (length cbs' =? 0)%nat
       (modify (fun s => set_callbacks (JsMap.remove d (callbacks s)) s) ;;
        drop_subscription d)).
Proof. splice_then_delete d cbs'. Qed.

Lemma depth_splice_wf (d : string) (cbs' : list callback) :
  respects keeps_well_formed
    (modify (fun s => set_depthCallbacks (JsMap.set d cbs' (depthCallbacks s)) s) ;;
     when (length cbs' =? 0)%nat
       (modify (fun s => set_depthCallbacks (JsMap.remove d (depthCallbacks s)) s) ;;
        drop_subscription d)).
Proof. splice_then_delete d cbs'. Qed.

Lemma lastTrade_splice_wf (d : string) (cbs' : list callback) :
  respects keeps_well_formed
    (modify (fun s =>
       set_lastTradeCallbacks (JsMap.set d cbs' (lastTradeCallbacks s)) s) ;;
     when (length cbs' =? 0)%nat
       (modify (fun s =>
          set_lastTradeCallbacks (JsMap.remove d (lastTradeCallbacks s)) s) ;;
        drop_subscription d)).
Proof. splice_then_delete d cbs'. Qed.

Lemma unsubscribe_wf (k : string) (cb : callback) :
  respects keeps_well_formed (unsubscribe k cb).
Proof.
  unfold unsubscribe.
  apply respects_bind; [wf_fields | apply respects_get; wf_fields | intros s0].
  destruct (JsMap.get _ (callbacks s0)) as [cbs|].
  - apply unsubscribe_splice_wf.
  - apply respects_ret; wf_fields.
Qed.

Lemma unsubscribeFromMarketData_wf (k : string) (d l : callback) :
  respects keeps_well_formed (unsubscribeFromMarketData k d l).
Proof.
  unfold unsubscribeFromMarketData.
  apply respects_bind; [wf_fields | apply respects_get; wf_fields | intros s0].
  apply respects_bind; [wf_fields | | intros _].
  - destruct (JsMap.get _ (depthCallbacks s0)) as [cbs|].
    + apply depth_splice_wf.
    + apply respects_ret; wf_fields.
  - apply respects_bind; [wf_fields | apply respects_get; wf_fields | intros s1].
    destruct (JsMap.get _ (lastTradeCallbacks s1)) as [cbs|].
    + apply lastTrade_splice_wf.
    + apply respects_ret; wf_fields.
Qed.

Lemma subscribeToMarketData_wf (k : string) (d l : callback) :
  respects keeps_well_formed (subscribeToMarketData k d l).
Proof.
  intros s. rewrite subscribeToMarketData_result.
  set (s0 := set_lastTradeCallbacks _ _).
  assert (H0 : keeps_well_formed s s0).
  { intros ((Hc & Hm & Hd & Hl) & Hids & Hw).
    apply well_formed_intro; simpl; try assumption;
      apply push_callback_nonempty; assumption. }
  destruct (connected s && ws_open s); [|exact H0].
  apply (keeps_well_formed_trans s s0); [exact H0|].
  revert s0 H0. generalize (depth_destination k), (last_trade_destination k).
  intros dd ld s0 _.
  assert (Hboth : respects keeps_well_formed
            (subscribeToDestination dd ;; subscribeToDestination ld)) by wf_go.
  apply Hboth.
Qed.

Lemma connect_wf : respects keeps_well_formed connect.
Proof. unfold connect. wf_go. Qed.

Lemma sendRequest_wf (k : string) (sc : scope) :
  respects keeps_well_formed (sendRequest k sc).
Proof. unfold sendRequest, ws_send. wf_go. Qed.

Lemma attemptReconnect_wf : respects keeps_well_formed attemptReconnect.
Proof. unfold attemptReconnect. wf_go. Qed.

Lemma connectInternal_wf : respects keeps_well_formed connectInternal.
Proof.
  intros s. destruct (ctorThrows s) eqn:Hctor.
  - unfold connectInternal, try_catch, new_WebSocket. run_monad. rewrite Hctor.
    apply attemptReconnect_wf.
  - rewrite connectInternal_opens by exact Hctor.
    intros ((Hc & Hm & Hd & Hl) & Hids & Hw).
    apply well_formed_intro; simpl; try assumption.
    intros i [= <-]. simpl. rewrite length_app. simpl. lia.
Qed.

Lemma resubscribeAll_wf : respects keeps_well_formed resubscribeAll.
Proof. unfold resubscribeAll. wf_go. Qed.

Lemma handleStompMessage_wf (message : string) :
  respects keeps_well_formed (handleStompMessage message).
Proof.
  unfold handleStompMessage, notifyCallbacks, notifyMarketCallbacks,
    notifyDepthCallbacks, notifyLastTradeCallbacks, JSON_parse, invoke.
  wf_go.
Qed.

Lemma parseMessage_wf (message : string) :
  respects keeps_well_formed (parseMessage message).
Proof.
  unfold parseMessage, JSON_parse.
  destruct (Str.startsWith message "CONNECTED");
    [|destruct (Str.startsWith message "MESSAGE")].
  - apply respects_bind; [wf_fields | apply respects_modify; wf_fields | intros _].
    apply respects_bind; [wf_fields | apply respects_modify; wf_fields | intros _].
    apply resubscribeAll_wf.
  - apply handleStompMessage_wf.
  - wf_go.
Qed.

Lemma onopen_wf : respects keeps_well_formed onopen.
Proof. unfold onopen, sendConnect, ws_send. wf_go. Qed.

Lemma onclose_wf : respects keeps_well_formed onclose.
Proof.
  unfold onclose.
  apply respects_bind; [wf_fields | apply respects_modify; wf_fields | intros _].
  apply attemptReconnect_wf.
Qed.

Lemma disconnect_wf : respects keeps_well_formed disconnect.
Proof.
  intros s _. rewrite disconnect_result. unfold disconnected.
  assert (Hempty : lists_nonempty []) by (intros d cbs; discriminate).
  destruct (ws s) eqn:Hws; [destruct (readyState_of s _), (connected s)|];
    (apply well_formed_intro; unfold ids_allocated, ws_exists; simpl;
     try exact Hempty;
     [intros d subId; rewrite lookup_empty; discriminate
     |rewrite ?Hws; intros i; discriminate]).
Qed.

Lemma socket_event_wf (i : nat) (r : readyState) :
  respects keeps_well_formed
    (modify (fun s => set_sockets (<[i := r]> (sockets s)) s)).
Proof.
  apply respects_modify. intros s ((Hc & Hm & Hd & Hl) & Hids & Hw).
  apply well_formed_intro; simpl; try assumption.
  intros j Hj. simpl in *. rewrite length_insert. apply Hw, Hj.
Qed.

Lemma handle_wf (e : event) : respects keeps_well_formed (handle e).
Proof.
  destruct e as [| |a c|a c|a c1 c2|a c1 c2|a sc|k|i|i [text|content]|i|i];
    simpl.
  - apply connect_wf.
  - apply disconnect_wf.
  - apply subscribe_wf.
  - apply unsubscribe_wf.
  - apply subscribeToMarketData_wf.
  - apply unsubscribeFromMarketData_wf.
  - apply sendRequest_wf.
  - apply respects_bind; [wf_fields | apply respects_get; wf_fields | intros s0].
    apply respects_bind; [wf_fields | apply respects_modify; wf_fields | intros _].
    destruct (pending s0 !! k) as [[delay|text]|].
    + apply connectInternal_wf.
    + apply parseMessage_wf.
    + apply respects_ret; wf_fields.
  - apply respects_bind; [wf_fields | apply socket_event_wf | intros _].
    apply onopen_wf.
  - apply parseMessage_wf.
  - unfold onmessage, handleMessage. wf_go.
  - unfold onerror. wf_go.
  - apply respects_bind; [wf_fields | apply socket_event_wf | intros _].
    apply onclose_wf.
Qed.

(** Every reachable state is well formed. *)
Lemma run_well_formed (es : list event) (s s' : state) :
  well_formed s → run es s = Some s' → well_formed s'.
Proof.
  revert s. induction es as [|e es IH]; intros s Hwf; simpl.
  - intros [= <-]. exact Hwf.
  - unfold step. destruct (enabled e s); [|discriminate].
    apply IH, (handle_wf e s), Hwf.
Qed.

Lemma init_well_formed (raises : callback -> json -> bool) (ctorThrows : bool) :
  well_formed (init raises ctorThrows).
Proof.
  apply well_formed_intro; unfold ids_allocated, ws_exists; simpl.
  1-4: intros d cbs; discriminate.
  - intros d subId. rewrite lookup_empty. discriminate.
  - intros i. discriminate.
Qed.

Lemma reachable_well_formed (s : state) : reachable s → well_formed s.
Proof.
  intros (raises & ctorThrows & es & Hrun).
  exact (run_well_formed es _ s (init_well_formed raises ctorThrows) Hrun).
Qed.

(** ** C1: resubscription after a reconnection *)

Section Resubscription.

Variable i : nat.

Lemma forEach_subscribe (ds : list string) (s : state) :
  transport_open i s →
  ∃ s' emitted,
    forEach ds subscribeToDestination s = (Ret tt, s')
    ∧ wire s' = wire s ++ emitted
    ∧ (∀ d, d ∈ ds → subscriptions s !! d = None → subscribes_to d emitted = 1)
    ∧ (∀ d, d ∉ ds ∨ is_Some (subscriptions s !! d) → subscribes_to d emitted = 0).
Proof.
  revert s. induction ds as [|d0 ds IH]; intros s [Hws Hrs].
  - exists s, []. split; [reflexivity|]. split; [symmetry; apply app_nil_r|].
    split; [intros d Hd; inversion Hd | reflexivity].
  - rewrite forEach_cons.
    destruct (subscriptions s !! d0) as [subId|] eqn:Hd0.
    + rewrite subscribeToDestination_known by eauto.
      destruct (IH s (conj Hws Hrs)) as (s' & emitted & Hrun & Hw & Hone & Hnone).
      exists s', emitted. repeat (split; [assumption|]). split.
      * intros d Hd Hfresh. apply Hone; [|exact Hfresh].
        apply elem_of_cons in Hd as [->|Hd]; [congruence | exact Hd].
      * intros d [Hd|Hd]; apply Hnone; [|right; exact Hd].
        left. intros Hin. apply Hd. right. exact Hin.
    + rewrite (subscribeToDestination_fresh d0 s i) by assumption.
      set (s1 := set_wire _ _).
      destruct (IH s1 (conj Hws Hrs)) as (s' & emitted & Hrun & Hw & Hone & Hnone).
      exists s', ((i, SUBSCRIBE (S (subscriptionCounter s)) d0) :: emitted).
      split; [exact Hrun|].
      split; [rewrite Hw; simpl; rewrite <- app_assoc; reflexivity|].
      assert (Hcount : ∀ d, subscribes_to d
                 ((i, SUBSCRIBE (S (subscriptionCounter s)) d0) :: emitted)
               = (if String.eqb d0 d then 1 else 0) + subscribes_to d emitted).
      { intros d. unfold subscribes_to. simpl.
        destruct (String.eqb d0 d); reflexivity. }
      split.
      * intros d Hd Hfresh. rewrite Hcount.
        destruct (String.eqb_spec d0 d) as [<-|Hne].
        -- rewrite Hnone; [reflexivity|]. right. simpl.
           rewrite lookup_insert_eq. eauto.
        -- apply elem_of_cons in Hd as [->|Hd]; [congruence|].
           rewrite Hone; [reflexivity | exact Hd|]. simpl.
           rewrite lookup_insert_ne by exact Hne. exact Hfresh.
      * intros d Hd. rewrite Hcount.
        destruct (String.eqb_spec d0 d) as [<-|Hne].
        -- exfalso. destruct Hd as [Hd|[x Hx]]; [|congruence].
           apply Hd. left.
        -- rewrite Hnone; [reflexivity|].
           destruct Hd as [Hd|Hd].
           ++ left. intros Hin. apply Hd. right. exact Hin.
           ++ right. simpl. rewrite lookup_insert_ne by exact Hne. exact Hd.
Qed.

(** On a CONNECTED frame over an open transport, every registered
    destination that is not in the subscription map is sent one
    SUBSCRIBE, and every other destination none: neither those without a
    callback list, nor those the map still holds from before. *)
Lemma CONNECTED_subscribes (message : string) (s : state) :
  Str.startsWith message "CONNECTED" = true →
  transport_open i s →
  ∃ s' emitted,
    parseMessage message s = (Ret tt, s')
    ∧ wire s' = wire s ++ emitted
    ∧ (∀ d, d ∈ registered_destinations s → subscriptions s !! d = None →
            subscribes_to d emitted = 1)
    ∧ (∀ d, d ∉ registered_destinations s ∨ is_Some (subscriptions s !! d) →
            subscribes_to d emitted = 0).
Proof.
  intros Hmsg Hopen.
  rewrite parseMessage_CONNECTED by exact Hmsg.
  rewrite resubscribeAll_forEach.
  apply (forEach_subscribe (registered_destinations s)
           (set_reconnectAttempts 0 (set_connected true s))).
  exact Hopen.
Qed.

Lemma app_nonempty {A} (l1 l2 : list A) :
  l1 ++ l2 ≠ [] ↔ l1 ≠ [] ∨ l2 ≠ [].
Proof.
  destruct l1 as [|x l1]; simpl; split.
  - intros H. right. exact H.
  - intros [H|H]; [congruence | exact H].
  - intros _. left. discriminate.
  - intros _. discriminate.
Qed.

Lemma keys_iff_listed (r : registry) (d : string) :
  lists_nonempty r → d ∈ JsMap.keys r ↔ default [] (JsMap.get d r) ≠ [].
Proof.
  intros Hr. rewrite JsMap_keys_get.
  destruct (JsMap.get d r) as [cbs|] eqn:Hget; simpl.
  - split; [intros _; apply (Hr d cbs Hget) | eauto].
  - split; [intros [? [=]] | congruence].
Qed.

(** In a reachable state the registered destinations are those with at
    least one callback. *)
Lemma registered_iff_listened (s : state) (d : string) :
  well_formed s → d ∈ registered_destinations s ↔ listeners s d ≠ [].
Proof.
  intros ((Hc & Hm & Hd & Hl) & _).
  unfold registered_destinations, listeners. rewrite !elem_of_app.
  rewrite (keys_iff_listed _ d Hc), (keys_iff_listed _ d Hm),
    (keys_iff_listed _ d Hd), (keys_iff_listed _ d Hl).
  rewrite !app_nonempty. tauto.
Qed.

(** The same in the words of C1: in a reachable state, a CONNECTED
    frame sends one SUBSCRIBE for every destination that has a callback
    and no recorded subscription, and none for a destination without
    callbacks or with a recorded subscription. *)
Lemma CONNECTED_subscribes_reachable (message : string) (s : state) :
  reachable s →
  Str.startsWith message "CONNECTED" = true →
  transport_open i s →
  ∃ s' emitted,
    parseMessage message s = (Ret tt, s')
    ∧ wire s' = wire s ++ emitted
    ∧ (∀ d, listeners s d ≠ [] → subscriptions s !! d = None →
            subscribes_to d emitted = 1)
    ∧ (∀ d, listeners s d = [] ∨ is_Some (subscriptions s !! d) →
            subscribes_to d emitted = 0).
Proof.
  intros Hreach Hmsg Hopen.
  pose proof (reachable_well_formed s Hreach) as Hwf.
  destruct (CONNECTED_subscribes message s Hmsg Hopen)
    as (s' & emitted & Hrun & Hw & Hone & Hnone).
  exists s', emitted. repeat (split; [assumption|]). split.
  - intros d Hd. apply Hone. apply (registered_iff_listened s d Hwf), Hd.
  - intros d [Hd|Hd]; apply Hnone; [left | right; exact Hd].
    intros Hin. apply (registered_iff_listened s d Hwf) in Hin. contradiction.
Qed.

End Resubscription.

(** C1 at this run: the session is connected again and callback 1 is
    still registered for ACC1, but socket 1 has carried the CONNECT frame
    only; no SUBSCRIBE was sent again for the destination. *)
Theorem no_SUBSCRIBE_after_reconnection :
  ∃ s,
    run reconnection (init silent false) = Some s
    ∧ isConnected s = true
    ∧ ws s = Some 1
    ∧ JsMap.get "/account/ACC1/updates" (callbacks s) = Some [1]
    ∧ sent_on 0 s = [CONNECT; SUBSCRIBE 1 "/account/ACC1/updates"]
    ∧ sent_on 1 s = [CONNECT]
    ∧ subscribes_to "/account/ACC1/updates"
        (List.filter (fun p => (fst p =? 1)%nat) (wire s)) = 0.
Proof. eexists. by_evaluation. Qed.

(** ** C2: disconnect() and pending timers *)

(** C2, as the code has it: [disconnect()] cancels nothing.  A reconnect
    timer that is pending when [disconnect()] is called is still pending
    afterwards, and when it runs it calls [connectInternal], which opens
    a new socket and makes it the session's transport. *)
Theorem disconnect_leaves_timer_armed (s : state) (k delay : nat) :
  pending s !! k = Some (Timer delay) →
  ctorThrows s = false →
  ∃ s1 s2,
    step Disconnect s = Some s1
    ∧ pending s1 = pending s
    ∧ step (Fire k) s1 = Some s2
    ∧ sockets s2 = sockets s1 ++ [CONNECTING]
    ∧ ws s2 = Some (length (sockets s1)).
Proof.
  intros Hk Hctor.
  exists (disconnected s). eexists. split; [|split; [|split]].
  - unfold step. simpl. rewrite disconnect_result. reflexivity.
  - apply disconnected_pending.
  - apply (fire_timer _ k delay).
    + rewrite disconnected_pending. exact Hk.
    + rewrite disconnected_ctorThrows. exact Hctor.
  - split; reflexivity.
Qed.

Lemma disconnect_leaves_timer_armed_witness :
  ∃ s1 s2,
    step Disconnect awaiting_retry = Some s1
    ∧ pending s1 = pending awaiting_retry
    ∧ step (Fire 0) s1 = Some s2
    ∧ sockets s2 = sockets s1 ++ [CONNECTING]
    ∧ ws s2 = Some (length (sockets s1)).
Proof.
  assert (Hk : pending awaiting_retry !! 0 = Some (Timer 1000))
    by (vm_compute; reflexivity).
  assert (Hctor : ctorThrows awaiting_retry = false)
    by (vm_compute; reflexivity).
  exact (disconnect_leaves_timer_armed awaiting_retry 0 1000 Hk Hctor).
Defined.

(** C2 as worded fails: socket 0 closes, which arms a reconnect timer;
    [disconnect()] is called; the timer then runs all the same and opens
    socket 1. *)
Lemma timer_fires_after_disconnect :
  ∃ s s1 s2,
    run [Connect; Fire 0; SocketClose 0] (init silent false) = Some s
    ∧ pending s = [Timer 1000]
    ∧ step Disconnect s = Some s1
    ∧ pending s1 = [Timer 1000]
    ∧ step (Fire 0) s1 = Some s2
    ∧ sockets s1 = [CLOSED]
    ∧ sockets s2 = [CLOSED; CONNECTING]
    ∧ ws s2 = Some 1.
Proof. do 3 eexists. by_evaluation. Qed.

(** Nor does [disconnect()] detach the handlers of the socket it closes:
    the close event that follows runs [onclose], which arms a reconnect
    timer (the counter was just reset), and the timer opens socket 1. *)
Example close_event_after_disconnect_reconnects :
  option_map (fun s => (ws s, sockets s, pending s))
    (run (handshake ++ [Disconnect; SocketClose 0; Fire 0]) (init silent false))
  = Some (Some 1, [CLOSED; CONNECTING], []).
Proof. vm_compute. reflexivity. Qed.

(** ** C3: a callback that throws *)

(** *** The walk over the array itself *)

Lemma registry_named_delivered (r : Reentrant.registry_name)
    (l : list (callback * json)) (s : state) :
  Reentrant.registry_named r (set_delivered l s) = Reentrant.registry_named r s.
Proof. destruct r; reflexivity. Qed.

(** For callbacks that call nothing the array stays as it is, and the
    walk is the walk over the list. *)
Lemma walk_no_calls (script : callback → json → state → list Reentrant.action)
    (r : Reentrant.registry_name) (d : string) (data : json)
    (pre rest : list callback) (s : state) :
  JsMap.get d (Reentrant.registry_named r s) = Some (pre ++ rest) →
  (∀ c, c ∈ rest → ∀ s0, script c data s0 = []) →
  Reentrant.walk script r d data (length rest) (length pre) Reentrant.InMap s
  = forEach rest (invoke data) s.
Proof.
  revert pre s. induction rest as [|c rest IH]; intros pre s Hget Hinert.
  - reflexivity.
  - assert (Hk : Reentrant.array_content r d Reentrant.InMap s !! length pre
                 = Some c).
    { unfold Reentrant.array_content. rewrite Hget.
      apply list_lookup_middle. reflexivity. }
    cbn [length Reentrant.walk]. unfold mbind at 1. unfold M_bind at 1, get.
    cbv beta iota. rewrite Hk.
    rewrite forEach_cons, invoke_result.
    unfold mbind at 1. unfold M_bind at 1.
    unfold Reentrant.invoke, mbind, M_bind, modify, get. cbv beta iota.
    rewrite (Hinert c ltac:(left) s).
    unfold Reentrant.run_calls, mret, M_ret, throw. cbv beta iota.
    change (raises (set_delivered (delivered s ++ [(c, data)]) s) c data)
      with (raises s c data).
    destruct (raises s c data); [reflexivity|].
    specialize (IH (pre ++ [c]) (set_delivered (delivered s ++ [(c, data)]) s)).
    rewrite length_app in IH. simpl in IH. rewrite Nat.add_1_r in IH.
    apply IH.
    + rewrite registry_named_delivered, <- app_assoc. exact Hget.
    + intros c' Hc'. apply Hinert. right. exact Hc'.
Qed.

Lemma notify_no_calls (script : callback → json → state → list Reentrant.action)
    (r : Reentrant.registry_name) (d : string) (data : json) (s : state) :
  (∀ c, c ∈ default [] (JsMap.get d (Reentrant.registry_named r s)) →
        ∀ s0, script c data s0 = []) →
  Reentrant.notify script r d data s
  = match JsMap.get d (Reentrant.registry_named r s) with
    | Some cbs => forEach cbs (invoke data) s
    | None => (Ret tt, s)
    end.
Proof.
  intros Hinert. unfold Reentrant.notify, mbind, M_bind, get. cbv beta iota.
  destruct (JsMap.get d (Reentrant.registry_named r s)) as [cbs|] eqn:Hget;
    [|reflexivity].
  apply (walk_no_calls script r d data [] cbs s); [exact Hget | exact Hinert].
Qed.

Lemma same_deliveries_refl (s : state) : same_deliveries s s.
Proof. split; reflexivity. Qed.

Lemma same_deliveries_trans (s1 s2 s3 : state) :
  same_deliveries s1 s2 → same_deliveries s2 s3 → same_deliveries s1 s3.
Proof. intros [H1 H2] [H3 H4]. split; congruence. Qed.

Ltac deliveries_fields :=
  first [ exact same_deliveries_refl | exact same_deliveries_trans
        | intros; split; reflexivity ].

(** The public methods invoke no callback. *)
Lemma perform_deliveries (c : Reentrant.client_call) :
  respects same_deliveries (Reentrant.perform c).
Proof.
  destruct c; simpl;
    unfold connect, disconnect, socket_close, subscribe, unsubscribe,
      subscribeToMarketData, unsubscribeFromMarketData, sendRequest,
      subscribeToDestination, defer, ws_send;
    respects_with deliveries_fields.
Qed.

Lemma act_deliveries (x : Reentrant.action) :
  respects same_deliveries (Reentrant.act x).
Proof.
  destruct x as [c|c]; simpl; [apply perform_deliveries|].
  apply respects_try_catch;
    [deliveries_fields | apply perform_deliveries
    | apply respects_ret; deliveries_fields].
Qed.

Lemma run_calls_deliveries (r : Reentrant.registry_name) (d : string)
    (xs : list Reentrant.action) (a : Reentrant.array_ref) :
  respects same_deliveries (Reentrant.run_calls r d xs a).
Proof.
  revert a. induction xs as [|x xs IH]; intros a; simpl.
  - apply respects_ret; deliveries_fields.
  - apply respects_bind; [deliveries_fields | apply respects_get; deliveries_fields
                         | intros s0].
    apply respects_bind; [deliveries_fields | apply act_deliveries | intros _].
    apply respects_bind; [deliveries_fields | apply respects_get; deliveries_fields
                         | intros s1].
    apply IH.
Qed.

Lemma ends_at_exception_nil (s : state) : ends_at_exception s [].
Proof. intros l1 c v l2 H. destruct l1; discriminate. Qed.

Lemma ends_at_exception_cons (s : state) (c : callback) (v : json)
    (invoked : list (callback * json)) :
  raises s c v = false → ends_at_exception s invoked →
  ends_at_exception s ((c, v) :: invoked).
Proof.
  intros Hc Hends l1 c' v' l2 Heq Hraise. destruct l1 as [|x l1]; simpl in Heq.
  - injection Heq as <- <- _. congruence.
  - injection Heq as _ Heq. apply (Hends l1 c' v' l2 Heq Hraise).
Qed.

Lemma ends_at_exception_one (s : state) (c : callback) (v : json) :
  ends_at_exception s [(c, v)].
Proof.
  intros l1 c' v' l2 Heq _. destruct l1 as [|x l1]; simpl in Heq.
  - injection Heq as _ _ <-. reflexivity.
  - injection Heq as _ Heq. destruct l1; discriminate.
Qed.

Lemma ends_at_exception_same (s s' : state) (invoked : list (callback * json)) :
  raises s' = raises s → ends_at_exception s' invoked → ends_at_exception s invoked.
Proof. intros Hr H l1 c v l2 Heq Hraise. apply (H l1 c v l2 Heq). rewrite Hr. exact Hraise. Qed.

(** One invocation: the callback is recorded, and whatever it calls, it
    invokes nobody. *)
Lemma invoke_live_result (script : callback → json → state → list Reentrant.action)
    (r : Reentrant.registry_name) (d : string) (data : json) (cb : callback)
    (a : Reentrant.array_ref) (s : state) :
  delivered (snd (Reentrant.invoke script r d data cb a s))
  = delivered s ++ [(cb, data)]
  ∧ raises (snd (Reentrant.invoke script r d data cb a s)) = raises s
  ∧ (raises s cb data = true →
     ∃ e, fst (Reentrant.invoke script r d data cb a s) = Exn e).
Proof.
  pose proof (run_calls_deliveries r d (script cb data s) a
                (set_delivered (delivered s ++ [(cb, data)]) s)) as [Hd Hr].
  unfold Reentrant.invoke, mbind, M_bind, modify, get. cbv beta iota.
  destruct (Reentrant.run_calls r d (script cb data s) a
              (set_delivered (delivered s ++ [(cb, data)]) s)) as [[a'|e] s1];
    simpl in Hd, Hr.
  - rewrite Hr. destruct (raises s cb data); simpl;
      (split; [exact Hd|]); (split; [exact Hr|]); [eauto | discriminate].
  - simpl. split; [exact Hd|]. split; [exact Hr|]. eauto.
Qed.

Lemma walk_step (script : callback → json → state → list Reentrant.action)
    (r : Reentrant.registry_name) (d : string) (data : json) (n k : nat)
    (a : Reentrant.array_ref) (s : state) :
  Reentrant.walk script r d data (S n) k a s
  = match Reentrant.array_content r d a s !! k with
    | Some cb =>
        match Reentrant.invoke script r d data cb a s with
        | (Ret a', s1) => Reentrant.walk script r d data n (S k) a' s1
        | (Exn e, s1) => (Exn e, s1)
        end
    | None => Reentrant.walk script r d data n (S k) a s
    end.
Proof.
  cbn [Reentrant.walk]. unfold mbind at 1. unfold M_bind at 1, get.
  cbv beta iota. destruct (Reentrant.array_content r d a s !! k); reflexivity.
Qed.

(** The walk over the array, whether it ends or is cut short: no
    invocation follows one that raised, and if one raised the walk has
    thrown. *)
Lemma walk_ends (script : callback → json → state → list Reentrant.action)
    (r : Reentrant.registry_name) (d : string) (data : json) (n k : nat)
    (a : Reentrant.array_ref) (s : state) :
  ∃ invoked,
    delivered (snd (Reentrant.walk script r d data n k a s))
    = delivered s ++ invoked
    ∧ raises (snd (Reentrant.walk script r d data n k a s)) = raises s
    ∧ ends_at_exception s invoked
    ∧ (∀ c v, (c, v) ∈ invoked → raises s c v = true →
       ∃ e, fst (Reentrant.walk script r d data n k a s) = Exn e).
Proof.
  revert k a s. induction n as [|n IH]; intros k a s.
  - exists []. split; [symmetry; apply app_nil_r|].
    split; [reflexivity|]. split; [apply ends_at_exception_nil|].
    intros c v Hin. inversion Hin.
  - rewrite walk_step.
    destruct (Reentrant.array_content r d a s !! k) as [cb|]; [|apply IH].
    destruct (invoke_live_result script r d data cb a s) as (Hd & Hr & Hexn).
    destruct (Reentrant.invoke script r d data cb a s) as [[a'|e] s1] eqn:Hinv;
      simpl in Hd, Hr, Hexn.
    + assert (Hcb : raises s cb data = false).
      { destruct (raises s cb data); [|reflexivity].
        destruct (Hexn eq_refl) as [e He]. discriminate. }
      destruct (IH (S k) a' s1) as (invoked & Hd' & Hr' & Hends & Hesc).
      exists ((cb, data) :: invoked).
      split; [rewrite Hd', Hd, <- app_assoc; reflexivity|].
      split; [congruence|].
      split.
      * apply ends_at_exception_cons; [exact Hcb|].
        apply (ends_at_exception_same s s1); assumption.
      * intros c v Hin Hraise. apply elem_of_cons in Hin as [Heq|Hin].
        -- injection Heq as -> ->. congruence.
        -- apply (Hesc c v Hin). rewrite Hr. exact Hraise.
    + exists [(cb, data)]. simpl.
      split; [exact Hd|]. split; [exact Hr|].
      split; [apply ends_at_exception_one|]. intros c v _ _. eauto.
Qed.

(** The dispatch with callbacks that call the client: whatever they
    call, [handleStompMessage] returns normally, and among the
    invocations it has made none comes after one that raised. *)
Lemma exception_ends_live_dispatch
    (script : callback → json → state → list Reentrant.action)
    (message : string) (s : state) :
  ∃ s' invoked,
    Reentrant.handleStompMessage script message s = (Ret tt, s')
    ∧ delivered s' = delivered s ++ invoked
    ∧ ends_at_exception s invoked.
Proof.
  assert (Hnone : ∃ s' invoked,
             (Ret tt, s) = (Ret tt, s')
             ∧ delivered s' = delivered s ++ invoked ∧ ends_at_exception s invoked).
  { exists s, []. split; [reflexivity|].
    split; [symmetry; apply app_nil_r | apply ends_at_exception_nil]. }
  assert (Hnotify : ∀ r d body,
             ∃ s' invoked,
               try_catch (v ← JSON_parse body; Reentrant.notify script r d v)
                 (mret tt) s = (Ret tt, s')
               ∧ delivered s' = delivered s ++ invoked
               ∧ ends_at_exception s invoked).
  { intros r d body. unfold try_catch, mbind, M_bind. rewrite JSON_parse_result.
    destruct (Json.parse body) as [v|]; [|exact Hnone].
    unfold Reentrant.notify, mbind, M_bind, get. cbv beta iota.
    destruct (JsMap.get d (Reentrant.registry_named r s)) as [cbs|]; [|exact Hnone].
    destruct (walk_ends script r d v (length cbs) 0 Reentrant.InMap s)
      as (invoked & Hd & _ & Hends & _).
    destruct (Reentrant.walk script r d v (length cbs) 0 Reentrant.InMap s)
      as [[[]|e] s']; simpl in Hd; exists s', invoked;
      (split; [reflexivity|]); (split; [exact Hd | exact Hends]). }
  unfold Reentrant.handleStompMessage.
  destruct (scan_frame message) as [[destination body] inBody].
  destruct (Str.truthy destination && Str.truthy body); [|exact Hnone].
  unfold when.
  repeat match goal with |- context [if ?c then _ else _] => destruct c end.
  - apply (Hnotify Reentrant.Depth).
  - apply (Hnotify Reentrant.LastTrade).
  - apply (Hnotify Reentrant.Market).
  - apply (Hnotify Reentrant.Account).
Qed.

(** With callbacks that call nothing it is the dispatch of the events. *)
Lemma handleStompMessage_no_calls (message : string) (s : state) :
  Reentrant.handleStompMessage Reentrant.no_calls message s
  = handleStompMessage message s.
Proof.
  assert (Hnotify : ∀ r d v s0,
             Reentrant.notify Reentrant.no_calls r d v s0
             = match JsMap.get d (Reentrant.registry_named r s0) with
               | Some cbs => forEach cbs (invoke v) s0
               | None => (Ret tt, s0)
               end).
  { intros r d v s0. apply notify_no_calls. reflexivity. }
  unfold Reentrant.handleStompMessage, handleStompMessage.
  destruct (scan_frame message) as [[destination body] inBody].
  destruct (Str.truthy destination && Str.truthy body); [|reflexivity].
  unfold when, try_catch.
  repeat match goal with |- context [if ?c then _ else _] => destruct c end;
    unfold mbind, M_bind; rewrite JSON_parse_result;
    (destruct (Json.parse body) as [v|]; [|reflexivity]);
    unfold Reentrant.notifyCallbacks, Reentrant.notifyMarketCallbacks,
      Reentrant.notifyDepthCallbacks, Reentrant.notifyLastTradeCallbacks;
    rewrite Hnotify;
    unfold notifyCallbacks, notifyMarketCallbacks, notifyDepthCallbacks,
      notifyLastTradeCallbacks, mbind, M_bind, get; simpl Reentrant.registry_named;
    match goal with
    | |- context [JsMap.get ?d ?r] => destruct (JsMap.get d r)
    end; reflexivity.
Qed.

(** *** The dispatch *)

(** C3, as the code has it: when a callback raises, the dispatch ends
    with it, whatever the callbacks call on the client while they run.
    No invocation is guarded on its own: in each of the four [notify]
    methods no callback is invoked after one that raised, and the
    method has then thrown.  The exception is swallowed by the one
    [try]/[catch] around the whole dispatch: for every message and
    every state [handleStompMessage] returns normally, and among the
    invocations it has made none comes after one that raised. *)
Theorem exception_ends_dispatch
    (script : callback → json → state → list Reentrant.action) (s : state) :
  (∀ r destination data,
     ∃ invoked,
       delivered (snd (Reentrant.notify script r destination data s))
       = delivered s ++ invoked
       ∧ ends_at_exception s invoked
       ∧ (∀ c v, (c, v) ∈ invoked → raises s c v = true →
          ∃ e, fst (Reentrant.notify script r destination data s) = Exn e))
  ∧ ∀ message,
      ∃ s' invoked,
        Reentrant.handleStompMessage script message s = (Ret tt, s')
        ∧ delivered s' = delivered s ++ invoked
        ∧ ends_at_exception s invoked.
Proof.
  split; [|intros message; apply exception_ends_live_dispatch].
  intros r destination data.
  unfold Reentrant.notify, mbind, M_bind, get. cbv beta iota.
  destruct (JsMap.get destination (Reentrant.registry_named r s)) as [cbs|].
  - destruct (walk_ends script r destination data (length cbs) 0 Reentrant.InMap s)
      as (invoked & Hd & _ & Hends & Hesc).
    exists invoked. split; [exact Hd|]. split; [exact Hends | exact Hesc].
  - exists []. split; [symmetry; apply app_nil_r|].
    split; [apply ends_at_exception_nil|]. intros c v Hin. inversion Hin.
Qed.

(** A callback that removes itself takes the turn of the next one. *)
Example self_removal_skips_the_next :
  delivered (snd (Reentrant.notifyCallbacks first_leaves
                    "/account/ACC1/updates" balance_update three_listeners))
  = [(1, balance_update); (3, balance_update)].
Proof. vm_compute. reflexivity. Qed.

(** [disconnect()] clears the maps, not the array that is being walked. *)
Example walk_goes_on_after_disconnect :
  delivered (snd (Reentrant.notifyCallbacks first_disconnects
                    "/account/ACC1/updates" balance_update three_listeners))
  = [(1, balance_update); (2, balance_update); (3, balance_update)]
  ∧ callbacks (snd (Reentrant.notifyCallbacks first_disconnects
                      "/account/ACC1/updates" balance_update three_listeners))
    = [].
Proof. split; vm_compute; reflexivity. Qed.

(** C3 as worded fails: callbacks 1 and 2 listen on the same destination,
    callback 1 throws, and a MESSAGE for that destination reaches
    callback 1 only. *)
Lemma callback_after_exception_not_invoked :
  ∃ s s',
    run (handshake ++ [Subscribe "ACC1" 1; Subscribe "ACC1" 2])
      (init first_throws false) = Some s
    ∧ JsMap.get "/account/ACC1/updates" (callbacks s) = Some [1; 2]
    ∧ step (SocketMessage 0
              (Text (MESSAGE_frame "/account/ACC1/updates"
                       (balance_text ++ Str.lf)%string))) s = Some s'
    ∧ delivered s' = [(1, balance_update)].
Proof. do 2 eexists. by_evaluation. Qed.

(** ** C4: the reconnection policy *)

(** C4: with the default base delay of 1000 ms and bound of 5,
    [attemptReconnect] retries exactly when the attempt count is below 5,
    and then arms the timer of attempt [n] (the count after the
    increment) with [1000 * 2^(n-1)] ms: 1000, 2000, 4000 ms for the
    attempts 1, 2, 3; at a count of 5 nothing is armed. *)
Theorem reconnect_policy_default (s : state) :
  reconnectDelay s = 1000 →
  maxReconnectAttempts s = 5 →
  attemptReconnect s
  = (Ret tt,
     if spec_shouldRetry (reconnectAttempts s) then
       let n := S (reconnectAttempts s) in
       set_pending (pending s ++ [Timer (spec_nextDelay n)])
         (set_reconnectAttempts n s)
     else s)
  ∧ (reconnectAttempts s = 0 →
     pending (snd (attemptReconnect s)) = pending s ++ [Timer 1000])
  ∧ (reconnectAttempts s = 1 →
     pending (snd (attemptReconnect s)) = pending s ++ [Timer 2000])
  ∧ (reconnectAttempts s = 2 →
     pending (snd (attemptReconnect s)) = pending s ++ [Timer 4000])
  ∧ (reconnectAttempts s = 5 → attemptReconnect s = (Ret tt, s))
  ∧ spec_nextDelay 1 = 1000 ∧ spec_nextDelay 2 = 2000 ∧ spec_nextDelay 3 = 4000
  ∧ spec_shouldRetry 5 = false.
Proof.
  intros Hdelay Hmax.
  assert (Hrun : attemptReconnect s
    = (Ret tt,
       if spec_shouldRetry (reconnectAttempts s) then
         let n := S (reconnectAttempts s) in
         set_pending (pending s ++ [Timer (spec_nextDelay n)])
           (set_reconnectAttempts n s)
       else s)).
  { unfold attemptReconnect, spec_shouldRetry, spec_nextDelay. run_monad.
    rewrite Hmax.
    destruct (reconnectAttempts s <? 5)%nat; simpl; rewrite ?Hdelay; reflexivity. }
  split; [exact Hrun|].
  repeat split; try reflexivity; intros Hn; rewrite Hrun, Hn; reflexivity.
Qed.

Lemma reconnect_policy_default_witness :
  pending (snd (attemptReconnect (init silent false))) = [Timer 1000].
Proof.
  destruct (reconnect_policy_default (init silent false) eq_refl eq_refl)
    as (_ & H0 & _).
  exact (H0 eq_refl).
Defined.

(** ** C5: where the attempt counter is reset *)

Ltac kept := unfold attempts_kept; intros; simpl in *; congruence.

Lemma resubscribeAll_kept : respects attempts_kept resubscribeAll.
Proof. unfold resubscribeAll. respects_with kept. Qed.

Lemma handleStompMessage_kept (message : string) :
  respects attempts_kept (handleStompMessage message).
Proof.
  unfold handleStompMessage, notifyCallbacks, notifyMarketCallbacks,
    notifyDepthCallbacks, notifyLastTradeCallbacks, JSON_parse.
  respects_with kept.
Qed.

Lemma subscribe_kept (k : string) (cb : callback) :
  respects attempts_kept (subscribe k cb).
Proof. unfold subscribe. respects_with kept. Qed.

Lemma unsubscribe_kept (k : string) (cb : callback) :
  respects attempts_kept (unsubscribe k cb).
Proof. unfold unsubscribe. respects_with kept. Qed.

Lemma subscribeToMarketData_kept (k : string) (d l : callback) :
  respects attempts_kept (subscribeToMarketData k d l).
Proof. unfold subscribeToMarketData. respects_with kept. Qed.

Lemma unsubscribeFromMarketData_kept (k : string) (d l : callback) :
  respects attempts_kept (unsubscribeFromMarketData k d l).
Proof. unfold unsubscribeFromMarketData. respects_with kept. Qed.

Lemma sendRequest_kept (k : string) (sc : scope) :
  respects attempts_kept (sendRequest k sc).
Proof. unfold sendRequest. respects_with kept. Qed.

Lemma connect_kept : respects attempts_kept connect.
Proof. unfold connect. respects_with kept. Qed.

Lemma onopen_kept : respects attempts_kept onopen.
Proof. unfold onopen, sendConnect. respects_with kept. Qed.

(** [parseMessage] on anything but a CONNECTED frame. *)
Lemma parseMessage_kept (message : string) :
  Str.startsWith message "CONNECTED" = false →
  respects attempts_kept (parseMessage message).
Proof.
  intros H. unfold parseMessage. rewrite H.
  destruct (Str.startsWith message "MESSAGE").
  - apply handleStompMessage_kept.
  - unfold JSON_parse. respects_with kept.
Qed.

(** The only increment is the one of [attemptReconnect]. *)
Lemma attemptReconnect_counts (s : state) :
  counted_once s (snd (attemptReconnect s)).
Proof.
  unfold attemptReconnect, counted_once. run_monad.
  destruct (reconnectAttempts s <? maxReconnectAttempts s)%nat; simpl; auto.
Qed.

Lemma connectInternal_counts (s : state) :
  counted_once s (snd (connectInternal s)).
Proof.
  destruct (ctorThrows s) eqn:Hctor.
  - unfold connectInternal, try_catch, new_WebSocket. run_monad. rewrite Hctor.
    apply attemptReconnect_counts.
  - rewrite connectInternal_opens by exact Hctor. left. reflexivity.
Qed.

Lemma handle_CONNECTED (e : event) (s : state) :
  receives_CONNECTED e s = true → reconnectAttempts (snd (handle e s)) = 0.
Proof.
  destruct e as [| | | | | | |k|i|i [text|content]|i|i]; simpl; try discriminate.
  - destruct (pending s !! k) as [[delay|text]|] eqn:Hk; try discriminate.
    intros H. unfold handle. run_monad. rewrite Hk.
    rewrite parseMessage_CONNECTED by exact H.
    rewrite (resubscribeAll_kept _). reflexivity.
  - intros H. unfold onmessage, handleMessage.
    rewrite parseMessage_CONNECTED by exact H.
    rewrite (resubscribeAll_kept _). reflexivity.
Qed.

Lemma handle_counts (e : event) (s : state) :
  receives_CONNECTED e s = false → e ≠ Disconnect →
  counted_once s (snd (handle e s)).
Proof.
  destruct e as [| |a c|a c|a c1 c2|a c1 c2|a sc|k|i|i [text|content]|i|i];
    simpl; intros Hrecv Hne.
  - left. apply connect_kept.
  - congruence.
  - left. apply subscribe_kept.
  - left. apply unsubscribe_kept.
  - left. apply subscribeToMarketData_kept.
  - left. apply unsubscribeFromMarketData_kept.
  - left. apply sendRequest_kept.
  - run_monad. destruct (pending s !! k) as [[delay|text]|] eqn:Hk; simpl.
    + apply (connectInternal_counts (set_pending _ s)).
    + left. apply (parseMessage_kept text Hrecv (set_pending _ s)).
    + left. reflexivity.
  - left. apply (onopen_kept (set_sockets _ s)).
  - left. apply (parseMessage_kept text Hrecv).
  - left. reflexivity.
  - left. reflexivity.
  - unfold onclose. run_monad.
    apply (attemptReconnect_counts (set_connected false (set_sockets _ s))).
Qed.

(** C5, as the code has it: the reconnect attempt counter is put to zero
    by the step that receives a CONNECTED frame and by [disconnect()];
    every other step leaves it where it was or adds one to it. *)
Theorem attempts_reset_by_CONNECTED_and_disconnect (e : event) (s s' : state) :
  step e s = Some s' →
  (receives_CONNECTED e s = true ∨ e = Disconnect → reconnectAttempts s' = 0)
  ∧ (receives_CONNECTED e s = false → e ≠ Disconnect →
     reconnectAttempts s' = reconnectAttempts s
     ∨ reconnectAttempts s' = S (reconnectAttempts s)).
Proof.
  unfold step. destruct (enabled e s); [|discriminate].
  intros [= <-]. split.
  - intros [Hrecv | ->].
    + apply handle_CONNECTED, Hrecv.
    + simpl. rewrite disconnect_result. unfold disconnected.
      destruct (ws s); [destruct (readyState_of s _), (connected s)|]; reflexivity.
  - intros Hrecv Hne. apply handle_counts; assumption.
Qed.

Lemma attempts_reset_by_CONNECTED_and_disconnect_witness :
  step (SocketClose 0) opening_session
  = Some (snd (handle (SocketClose 0) opening_session))
  ∧ (reconnectAttempts (snd (handle (SocketClose 0) opening_session))
     = reconnectAttempts opening_session
     ∨ reconnectAttempts (snd (handle (SocketClose 0) opening_session))
       = S (reconnectAttempts opening_session)).
Proof.
  assert (H : step (SocketClose 0) opening_session
              = Some (snd (handle (SocketClose 0) opening_session)))
    by reflexivity.
  split; [exact H|].
  apply (attempts_reset_by_CONNECTED_and_disconnect _ _ _ H);
    [reflexivity | discriminate].
Defined.

(** C5 as worded fails: after one failed attempt the counter is 1, and
    [disconnect()] puts it back to zero although no CONNECTED frame was
    received. *)
Lemma attempts_reset_without_CONNECTED :
  ∃ s s', run [Connect; Fire 0; SocketClose 0] (init silent false) = Some s
          ∧ reconnectAttempts s = 1
          ∧ step Disconnect s = Some s'
          ∧ receives_CONNECTED Disconnect s = false
          ∧ reconnectAttempts s' = 0.
Proof. do 2 eexists. by_evaluation. Qed.

(** ** C6: connect() while a transport exists *)

Lemma outstanding_lookup (l : list readyState) (i : nat) (r : readyState) :
  l !! i = Some r → is_outstanding r = true →
  1 ≤ length (List.filter is_outstanding l).
Proof.
  revert i. induction l as [|x l IH]; intros [|i] Hl Hr; simpl in *;
    try discriminate.
  - injection Hl as ->. rewrite Hr. simpl. lia.
  - specialize (IH i Hl Hr). destruct (is_outstanding x); simpl; lia.
Qed.

(** C6, as the code has it: [connect()] returns at once when the
    transport is open or the connected flag is set, which covers
    AwaitingAck and Connected.  While Opening it is not a no-op: it arms
    a further timer, and when that timer runs a second socket is created
    while the first is still connecting, so two transports are
    outstanding. *)
Theorem connect_guard (s : state) :
  (is_AwaitingAck s = true ∨ is_Connected s = true → connect s = (Ret tt, s))
  ∧ (is_Opening s = true → ctorThrows s = false →
     ∃ s1 s2,
       step Connect s = Some s1
       ∧ pending s1 = pending s ++ [Timer 500]
       ∧ step (Fire (length (pending s))) s1 = Some s2
       ∧ sockets s2 = sockets s ++ [CONNECTING]
       ∧ 2 ≤ outstanding s2).
Proof.
  split.
  - unfold is_AwaitingAck, is_Connected, connect. run_monad.
    intros [H|H]; apply andb_true_iff in H as [Hopen Hc]; rewrite Hopen; reflexivity.
  - unfold is_Opening. intros Hopening Hctor.
    destruct (ws s) as [i|] eqn:Hws; [|discriminate].
    apply andb_true_iff in Hopening as [Hrs Hc].
    apply negb_true_iff in Hc.
    assert (Hi : sockets s !! i = Some CONNECTING).
    { unfold readyState_of in Hrs.
      destruct (sockets s !! i) as [[]|]; simpl in Hrs; try discriminate; reflexivity. }
    assert (Hstep : step Connect s = Some (set_pending (pending s ++ [Timer 500]) s)).
    { unfold step, handle, connect, ws_open, readyState_of. run_monad.
      rewrite Hws, Hi, Hc. reflexivity. }
    eexists. eexists. split; [exact Hstep|]. split; [reflexivity|].
    split; [|split].
    + apply (fire_timer _ _ 500); [|exact Hctor].
      simpl. rewrite lookup_app_r by lia. rewrite Nat.sub_diag. reflexivity.
    + reflexivity.
    + unfold outstanding. simpl. rewrite List.filter_app, length_app. simpl.
      pose proof (outstanding_lookup _ _ _ Hi eq_refl). lia.
Qed.

Lemma connect_guard_witness :
  ∃ s1 s2,
    step Connect opening_session = Some s1
    ∧ pending s1 = pending opening_session ++ [Timer 500]
    ∧ step (Fire (length (pending opening_session))) s1 = Some s2
    ∧ sockets s2 = sockets opening_session ++ [CONNECTING]
    ∧ 2 ≤ outstanding s2.
Proof.
  assert (Hopening : is_Opening opening_session = true) by (vm_compute; reflexivity).
  assert (Hctor : ctorThrows opening_session = false) by (vm_compute; reflexivity).
  exact (proj2 (connect_guard opening_session) Hopening Hctor).
Defined.

(** C6 as worded fails: while socket 0 is still connecting, [connect()]
    arms a timer, and when it runs socket 1 is created next to socket 0. *)
Lemma connect_while_opening_opens_second_transport :
  ∃ s s1 s2,
    run [Connect; Fire 0] (init silent false) = Some s
    ∧ is_Opening s = true
    ∧ step Connect s = Some s1
    ∧ pending s1 = [Timer 500]
    ∧ step (Fire 0) s1 = Some s2
    ∧ sockets s2 = [CONNECTING; CONNECTING]
    ∧ outstanding s2 = 2.
Proof. do 3 eexists. by_evaluation. Qed.

(** ** C7: SUBSCRIBE and UNSUBSCRIBE frames of one destination *)

Section Balance.

Variable accountKey : string.
Let d := account_destination accountKey.







End Balance.



Example subscribes_and_unsubscribes_on_the_wire :
  wire (snd (make_calls "ACC1"
               [CallSubscribe 1; CallSubscribe 2; CallUnsubscribe 1;
                CallUnsubscribe 2; CallSubscribe 3] connected_session))
  = [(0, CONNECT);
     (0, SUBSCRIBE 1 "/account/ACC1/updates");
     (0, UNSUBSCRIBE 1);
     (0, SUBSCRIBE 2 "/account/ACC1/updates")].
Proof. vm_compute. reflexivity. Qed.


(** And in the other direction: [disconnect()] forgets the subscription
    without an UNSUBSCRIBE frame, and in the next session the
    destination is subscribed again: two SUBSCRIBE frames and no
    UNSUBSCRIBE frame. *)
Example two_subscribe_frames_across_disconnect :
  ∃ s,
    run (handshake
         ++ [Subscribe "ACC1" 1; Disconnect; Connect; Fire 0; SocketOpen 1;
             SocketMessage 1 (Text CONNECTED_frame); Subscribe "ACC1" 1])
      (init silent false) = Some s
    ∧ wire s = [(0, CONNECT); (0, SUBSCRIBE 1 "/account/ACC1/updates");
                (0, DISCONNECT); (1, CONNECT);
                (1, SUBSCRIBE 2 "/account/ACC1/updates")]
    ∧ subscribes_to (account_destination "ACC1") (wire s) = 2
    ∧ unsubscribes (wire s) = 0.
Proof. eexists. by_evaluation. Qed.

(** ** C8: removing the last callback *)

Lemma after_reachable (es : list event) (raises : callback -> json -> bool)
    (ctorThrows : bool) :
  is_Some (run es (init raises ctorThrows)) →
  reachable (after es (init raises ctorThrows)).
Proof.
  intros [s H]. exists raises, ctorThrows, es. unfold after. rewrite H. reflexivity.
Qed.

(** C8, as the code has it: when [unsubscribe] removes the last callback
    of a destination, the destination's callback list is deleted.  When
    a subscription is recorded for the destination and the transport is
    open, an UNSUBSCRIBE frame with its identifier is sent and the
    subscription is deleted; when the transport is not open (or no
    subscription is recorded), nothing is sent and the subscription map
    is left as it was. *)
Theorem unsubscribe_last_callback (s : state) (accountKey : string) (cb : callback) :
  let d := account_destination accountKey in
  reachable s →
  JsMap.get d (callbacks s) = Some [cb] →
  ∃ s', unsubscribe accountKey cb s = (Ret tt, s')
        ∧ JsMap.get d (callbacks s') = None
        ∧ (∀ subId i,
             subscriptions s !! d = Some subId →
             ws s = Some i → readyState_of s i = OPEN →
             subscriptions s' !! d = None
             ∧ wire s' = wire s ++ [(i, UNSUBSCRIBE subId)])
        ∧ (ws_open s = false ∨ subscriptions s !! d = None →
             subscriptions s' = subscriptions s ∧ wire s' = wire s).
Proof.
  intros d Hreach Hget.
  destruct (reachable_well_formed s Hreach) as (_ & Hids & _).
  pose proof (unsubscribe_result accountKey cb s) as Hrun. simpl in Hrun.
  fold d in Hrun. rewrite Hget, remove_first_only in Hrun. simpl in Hrun.
  set (s0 := set_callbacks (JsMap.remove d (JsMap.set d [] (callbacks s))) s) in *.
  destruct (truthy_id (subscriptions s !! d) && ws_open s) eqn:Hguard.
  - apply andb_true_iff in Hguard as [Hid Hopen].
    destruct (subscriptions s !! d) as [subId|] eqn:Hd; [|discriminate].
    simpl in Hid. apply negb_true_iff, Nat.eqb_neq in Hid.
    destruct (ws_open_inv s Hopen) as (i & Hws & Hrs).
    rewrite (drop_subscription_sent d s0 subId i) in Hrun by assumption.
    eexists. split; [exact Hrun|]. simpl. split; [apply JsMap_get_remove|]. split.
    + intros subId' i' Hd' Hws' _.
      assert (subId' = subId) as -> by congruence.
      assert (i' = i) as -> by congruence.
      split; [apply lookup_delete_eq | reflexivity].
    + intros [Hclosed|Hnone]; congruence.
  - rewrite (drop_subscription_skipped d s0) in Hrun by exact Hguard.
    exists s0. split; [exact Hrun|]. simpl. split; [apply JsMap_get_remove|]. split.
    + intros subId i Hd Hws Hrs. exfalso.
      pose proof (Hids _ _ Hd) as Hpos.
      rewrite Hd in Hguard. unfold ws_open in Hguard. rewrite Hws, Hrs in Hguard.
      simpl in Hguard. destruct subId; [lia | discriminate].
    + intros _. split; reflexivity.
Qed.

Lemma unsubscribe_last_callback_witness :
  ∃ s', unsubscribe "ACC1" 1 listener_offline = (Ret tt, s')
        ∧ subscriptions s' = subscriptions listener_offline
        ∧ wire s' = wire listener_offline.
Proof.
  assert (Hreach : reachable listener_offline).
  { apply after_reachable. vm_compute. eauto. }
  assert (Hget : JsMap.get (account_destination "ACC1") (callbacks listener_offline)
                 = Some [1]) by (vm_compute; reflexivity).
  destruct (unsubscribe_last_callback listener_offline "ACC1" 1 Hreach Hget)
    as (s' & Hrun & _ & _ & Hclosed).
  exists s'. split; [exact Hrun|].
  apply Hclosed. left. vm_compute. reflexivity.
Defined.

(** C8 as worded fails: the socket has closed, the last callback of ACC1
    is removed, and the subscription of ACC1 (identifier 1) is still in
    the map. *)
Lemma subscription_kept_when_transport_closed :
  ∃ s s',
    run (handshake ++ [Subscribe "ACC1" 1; SocketClose 0]) (init silent false)
    = Some s
    ∧ JsMap.get "/account/ACC1/updates" (callbacks s) = Some [1]
    ∧ subscriptions s !! "/account/ACC1/updates" = Some 1
    ∧ step (Unsubscribe "ACC1" 1) s = Some s'
    ∧ JsMap.get "/account/ACC1/updates" (callbacks s') = None
    ∧ subscriptions s' !! "/account/ACC1/updates" = Some 1.
Proof. do 2 eexists. by_evaluation. Qed.

(** ** C9: the balance update of ACC1 *)

(** C9 at the frame the grammar gives: the line scan leaves the NUL at
    the end of the body, [JSON.parse] rejects it, the [catch] swallows
    the error, and no callback is invoked, in whatever state the frame
    arrives. *)
Theorem balance_frame_dropped (s : state) :
  handleStompMessage balance_frame s = (Ret tt, s)
  ∧ ∃ s0 s1,
      run (handshake ++ [Subscribe "ACC1" 1; Subscribe "ACC2" 2; Subscribe "ACC1" 3])
        (init silent false) = Some s0
      ∧ JsMap.get "/account/ACC1/updates" (callbacks s0) = Some [1; 3]
      ∧ step (SocketMessage 0 (Text balance_frame)) s0 = Some s1
      ∧ delivered s1 = [].
Proof.
  split.
  - rewrite (handleStompMessage_account _ _ _ _ s scan_balance_frame)
      by (vm_compute; reflexivity).
    unfold try_catch, mbind, M_bind.
    rewrite JSON_parse_result, parse_rejects_trailing_nul. reflexivity.
  - do 2 eexists. by_evaluation.
Qed.

(** With the NUL on a line of its own the frame is dispatched: every
    callback registered for ACC1 receives the parsed object, in
    registration order, provided none of them throws, and nothing else
    is invoked. *)
Lemma balance_frame_lf_dispatched (s : state) (cbs : list callback) :
  JsMap.get (account_destination "ACC1") (callbacks s) = Some cbs →
  (∀ c, c ∈ cbs → raises s c balance_update = false) →
  handleStompMessage balance_frame_lf s
  = (Ret tt,
     set_delivered (delivered s ++ List.map (fun c => (c, balance_update)) cbs) s).
Proof.
  intros Hget Hquiet.
  rewrite (handleStompMessage_account _ _ _ _ s scan_balance_frame_lf)
    by (vm_compute; reflexivity).
  unfold try_catch, mbind, M_bind.
  rewrite JSON_parse_result, parse_balance.
  unfold notifyCallbacks, mbind, M_bind, get.
  change "/account/ACC1/updates" with (account_destination "ACC1").
  rewrite Hget, forEach_invoke_quiet by exact Hquiet. reflexivity.
Qed.

(** ** C10: disconnect() *)

(** C10: [disconnect()] returns normally from every state, and leaves
    the session not connected, without a transport handle, with the four
    callback registries and the subscription map empty and the reconnect
    attempt counter at zero. *)
Theorem disconnect_never_throws_and_clears (s : state) :
  ∃ s', disconnect s = (Ret tt, s')
        ∧ isConnected s' = false
        ∧ ws s' = None
        ∧ callbacks s' = [] ∧ marketCallbacks s' = []
        ∧ depthCallbacks s' = [] ∧ lastTradeCallbacks s' = []
        ∧ subscriptions s' = ∅
        ∧ reconnectAttempts s' = 0.
Proof.
  exists (disconnected s). split; [apply disconnect_result|].
  unfold disconnected, isConnected.
  destruct (ws s) eqn:Hws; [destruct (readyState_of s _), (connected s)|];
    simpl; rewrite ?Hws; repeat split; reflexivity.
Qed.

(** * Further properties of the client *)

(** ** Records *)

Lemma set_pending_same (s : state) : set_pending (pending s) s = s.
Proof. destruct s; reflexivity. Qed.

Lemma set_delivered_same (s : state) : set_delivered (delivered s) s = s.
Proof. destruct s; reflexivity. Qed.

(** ** [sendRequest] *)

(** X1: [sendRequest] never throws.  On a connected session it hands exactly
    one SEND frame for the account's destination to the transport, and
    the body of that frame is JSON that reads back as the request; on a
    session that is not connected it does nothing at all. *)
Theorem sendRequest_sends_when_connected (accountKey : string) (sc : scope)
    (s : state) :
  (∃ s', sendRequest accountKey sc s = (Ret tt, s')
         ∧ (isConnected s = true →
              ∃ i, ws s = Some i
                   ∧ s' = set_wire
                            (wire s ++ [(i, SEND (account_destination accountKey)
                                              (request_body sc))]) s)
         ∧ (isConnected s = false → s' = s))
  ∧ Json.parse (request_body sc) = Some (request_object sc).
Proof.
  split; [|destruct sc; vm_compute; reflexivity].
  unfold isConnected, sendRequest, mbind, M_bind, get.
  destruct (connected s) eqn:Hc; cbn [negb orb andb].
  - destruct (ws_open s) eqn:Hopen; cbn [negb].
    + destruct (ws_open_inv s Hopen) as (i & Hws & Hrs).
      unfold ws_send, mbind, M_bind, get, modify. rewrite Hws, Hrs.
      eexists. split; [reflexivity|].
      split; [intros _; exists i; split; reflexivity | discriminate].
    + exists s. split; [reflexivity|]. split; [discriminate | reflexivity].
  - exists s. split; [reflexivity|]. split; [discriminate | reflexivity].
Qed.

(** ** Text that is not a STOMP frame *)

(** X2: A message that starts with neither CONNECTED nor MESSAGE goes to the
    JSON fallback, whose result is ignored and whose error is swallowed:
    the client is left exactly as it was. *)
Theorem parseMessage_ignores_other_text (message : string) (s : state) :
  Str.startsWith message "CONNECTED" = false →
  Str.startsWith message "MESSAGE" = false →
  parseMessage message s = (Ret tt, s).
Proof.
  intros H1 H2. unfold parseMessage. rewrite H1, H2.
  unfold try_catch, mbind, M_bind. rewrite JSON_parse_result.
  destruct (Json.parse message); reflexivity.
Qed.

Lemma parseMessage_ignores_other_text_witness :
  parseMessage "{not json" (init silent false) = (Ret tt, init silent false).
Proof.
  apply parseMessage_ignores_other_text; reflexivity.
Defined.

(** ** Messages when nobody listens *)

Lemma handleStompMessage_unheard (message : string) (s : state) :
  no_listeners s → handleStompMessage message s = (Ret tt, s).
Proof.
  intros (Hc & Hm & Hd & Hl). unfold handleStompMessage.
  destruct (scan_frame message) as [[destination body] inBody].
  destruct (Str.truthy destination && Str.truthy body); [|reflexivity].
  unfold when, try_catch.
  repeat match goal with
         | |- context [if ?c then _ else _] => destruct c
         end;
    unfold mbind, M_bind; rewrite JSON_parse_result;
    (destruct (Json.parse body); [|reflexivity]);
    unfold notifyCallbacks, notifyMarketCallbacks, notifyDepthCallbacks,
      notifyLastTradeCallbacks, mbind, M_bind, get;
    rewrite ?Hc, ?Hm, ?Hd, ?Hl; reflexivity.
Qed.

Lemma disconnected_fields (s : state) :
  ws (disconnected s) = None
  ∧ callbacks (disconnected s) = [] ∧ marketCallbacks (disconnected s) = []
  ∧ depthCallbacks (disconnected s) = [] ∧ lastTradeCallbacks (disconnected s) = []
  ∧ subscriptions (disconnected s) = ∅
  ∧ reconnectAttempts (disconnected s) = 0
  ∧ connected (disconnected s) = false.
Proof.
  unfold disconnected.
  destruct (ws s) as [i|] eqn:Hws;
    [destruct (readyState_of s i), (connected s)|];
    simpl; rewrite ?Hws; repeat split; reflexivity.
Qed.

(** X3: After [disconnect()] no callback is ever invoked again by a MESSAGE
    frame that is still under way (for instance on an older socket that
    was never closed): the frame leaves the client as it is. *)
Theorem no_delivery_after_disconnect (message : string) (s : state) :
  handleStompMessage message (snd (disconnect s)) = (Ret tt, snd (disconnect s)).
Proof.
  apply handleStompMessage_unheard. rewrite disconnect_result.
  destruct (disconnected_fields s) as (_ & Hc & Hm & Hd & Hl & _).
  repeat split; assumption.
Qed.

(** ** [disconnect()] twice *)

(** X4: A second [disconnect()] changes nothing. *)
Theorem disconnect_idempotent (s : state) :
  disconnect (snd (disconnect s)) = disconnect s.
Proof.
  rewrite (disconnect_result s). simpl snd.
  rewrite (disconnect_result (disconnected s)). f_equal.
  destruct (disconnected_fields s) as (Hws & Hc & Hm & Hd & Hl & Hsub & Hn & Hconn).
  generalize dependent (disconnected s). intros s1 Hws Hc Hm Hd Hl Hsub Hn Hconn.
  unfold disconnected. rewrite Hws.
  destruct s1; simpl in *; subst; reflexivity.
Qed.

(** ** Binary messages *)

(** X5: A message that arrives as a [Blob] is parsed when its promise runs,
    and then has the effect the same text would have had at once,
    provided nothing else happened in between. *)
Theorem blob_message_as_text (i : nat) (text : string) (s : state) :
  handle (Fire (length (pending s))) (snd (handle (SocketMessage i (Blob text)) s))
  = handle (SocketMessage i (Text text)) s.
Proof.
  assert (Hdel : delete (length (pending s)) (pending s ++ [BlobText text])
                 = pending s).
  { induction (pending s) as [|t l IH]; simpl; [reflexivity|].
    f_equal. exact IH. }
  assert (Hget : (pending s ++ [BlobText text]) !! length (pending s)
                 = Some (BlobText text)).
  { rewrite lookup_app_r by lia. rewrite Nat.sub_diag. reflexivity. }
  cbn [handle]. unfold onmessage, handleMessage, defer.
  unfold mbind, M_bind, get, modify. cbn [snd fst].
  destruct s as [? ? ? ? ? ? ? ? ? ? ? ? ? tasks ? ? ?]. simpl in Hget, Hdel.
  simpl. rewrite Hget, Hdel. reflexivity.
Qed.

(** ** Lines *)

Lemma string_app_nil_r (s : string) : (s ++ "")%string = s.
Proof.
  induction s as [|c s IH]; [reflexivity|].
  change (String c (s ++ "")%string = String c s). f_equal. exact IH.
Qed.

Lemma string_app_assoc (s1 s2 s3 : string) :
  ((s1 ++ s2) ++ s3)%string = (s1 ++ (s2 ++ s3))%string.
Proof.
  induction s1 as [|c s1 IH]; [reflexivity|].
  change (String c ((s1 ++ s2) ++ s3)%string = String c (s1 ++ (s2 ++ s3))%string).
  f_equal. exact IH.
Qed.

Lemma rev_app_app (cur s : string) :
  String.rev_app cur s = (String.rev cur ++ s)%string.
Proof.
  unfold String.rev. revert s. induction cur as [|c cur IH]; intros s; simpl.
  - reflexivity.
  - rewrite IH, (IH (String c "")), string_app_assoc. reflexivity.
Qed.

Lemma split_go_line (cur line : string) :
  lf_free line = true → Str.split_go cur line = [String.rev_app cur line].
Proof.
  revert cur. induction line as [|c line IH]; intros cur H; simpl in *.
  - reflexivity.
  - apply andb_true_iff in H as [Hc H]. apply negb_true_iff in Hc.
    rewrite Hc. apply IH, H.
Qed.



(** ** The line scan *)

Lemma destination_line_not_empty (line : string) :
  is_destination_line line = true → String.eqb line "" = false.
Proof. destruct line; [discriminate | reflexivity]. Qed.

Lemma last_destination_cons (d : string) (line : string) (ds : list string) :
  from_option header_value d (last (line :: ds))
  = from_option header_value (header_value line) (last ds).
Proof.
  destruct ds as [|d' ds]; [reflexivity|].
  change (last (line :: d' :: ds)) with (last (d' :: ds)).
  revert d'. induction ds as [|d'' ds IH]; intros d'; [reflexivity|].
  change (last (d' :: d'' :: ds)) with (last (d'' :: ds)). apply IH.
Qed.

Lemma scan_in_body (post : list string) (d b : string) :
  fold_left scan_line post (d, b, true)
  = (from_option header_value d (last (List.filter is_destination_line post)),
     (b ++ glue (List.filter is_body_line post))%string, true).
Proof.
  revert d b. induction post as [|l post IH]; intros d b.
  - simpl. rewrite string_app_nil_r. reflexivity.
  - cbn [fold_left List.filter]. unfold scan_line at 2, is_body_line.
    fold (is_destination_line l).
    destruct (is_destination_line l) eqn:Hd.
    + rewrite IH, last_destination_cons. reflexivity.
    + cbn [negb andb]. destruct (String.eqb l "") eqn:He; cbn [negb andb].
      * apply IH.
      * destruct (String.eqb l Str.nul); cbn [negb andb].
        -- apply IH.
        -- rewrite IH. cbn [glue fold_right]. rewrite string_app_assoc. reflexivity.
Qed.

Lemma scan_before_body (lines : list string) (d b : string) :
  fold_left scan_line lines (d, b, false)
  = (from_option header_value d (last (List.filter is_destination_line lines)),
     (b ++ glue (List.filter is_body_line (default [] (after_blank lines))))%string,
     bool_decide (is_Some (after_blank lines))).
Proof.
  revert d. induction lines as [|l lines IH]; intros d.
  - simpl. rewrite string_app_nil_r. reflexivity.
  - cbn [fold_left List.filter after_blank]. unfold scan_line at 2.
    fold (is_destination_line l).
    destruct (is_destination_line l) eqn:Hd.
    + rewrite (destination_line_not_empty l Hd), IH, last_destination_cons.
      reflexivity.
    + destruct (String.eqb l "") eqn:He.
      * rewrite scan_in_body. reflexivity.
      * cbn [andb]. apply IH.
Qed.

(** X6: For every message, what the loop over its lines leaves in
    [destination], [body] and [inBody]: the trimmed value of the last
    line that starts with [destination:] (before or after the empty
    line), and the lines after the first empty line put together without
    their line breaks, leaving out the empty ones, a NUL that stands
    alone, and the [destination:] lines. *)
Theorem scan_frame_decodes (message : string) :
  scan_frame message
  = (decoded_destination (Str.split_lines message),
     decoded_body (Str.split_lines message),
     bool_decide (is_Some (after_blank (Str.split_lines message)))).
Proof. unfold scan_frame. apply scan_before_body. Qed.

(** X7: A frame in which no line starts with [destination:], or which has no
    empty line, is dropped: no callback runs, nothing is thrown, the
    client is as before. *)
Theorem frame_without_destination_or_blank_line_dropped (message : string)
    (s : state) :
  Forall (fun l => is_destination_line l = false) (Str.split_lines message)
  ∨ Forall (fun l => l ≠ "") (Str.split_lines message) →
  handleStompMessage message s = (Ret tt, s).
Proof.
  intros H. unfold handleStompMessage, scan_frame. rewrite scan_before_body.
  fold (decoded_destination (Str.split_lines message)).
  change ("" ++ ?b)%string with b.
  fold (decoded_body (Str.split_lines message)).
  assert (Hempty : decoded_destination (Str.split_lines message) = ""
                   ∨ decoded_body (Str.split_lines message) = "").
  { destruct H as [H|H]; [left | right].
    - unfold decoded_destination.
      replace (List.filter is_destination_line (Str.split_lines message))
        with (@nil string); [reflexivity|].
      induction H as [|l ls Hl _ IH]; [reflexivity|].
      simpl. rewrite Hl. exact IH.
    - unfold decoded_body.
      replace (after_blank (Str.split_lines message)) with (@None (list string));
        [reflexivity|].
      induction H as [|l ls Hl _ IH]; [reflexivity|].
      simpl. apply String.eqb_neq in Hl. rewrite Hl. exact IH. }
  destruct Hempty as [-> | ->]; [reflexivity|].
  rewrite andb_false_r. reflexivity.
Qed.

Lemma frame_without_destination_or_blank_line_dropped_witness :
  handleStompMessage
    (join_lines ["MESSAGE"; "subscription:1"; ""; "{}"; Str.nul])
    connected_session
  = (Ret tt, connected_session).
Proof.
  apply frame_without_destination_or_blank_line_dropped.
  left. vm_compute. repeat constructor.
Defined.

(** ** [JSON.parse] never accepts a NUL

    The parser reads a NUL nowhere: not as white space, not in a number
    or a literal, and not inside a string, where control characters are
    refused.  So whatever it has read is free of NUL. *)

Ltac by_character c :=
  destruct c as [[] [] [] [] [] [] [] []]; try reflexivity.

Lemma frac_part_eq (int : Z) (s : string) :
  Json.frac_part int s
  = match s with
    | String c s' =>
        if Ascii.eqb c "." then
          let '(v, n, r) := Json.digits int 0 s' in
          if n =? 0 then None else Some (v, n, r)
        else Some (int, 0, s)
    | EmptyString => Some (int, 0, s)
    end.
Proof. destruct s as [|c s']; [reflexivity|]. by_character c. Qed.

Lemma sign_eq (s' : string) :
  match s' with
  | String "-" t => (true, t)
  | String "+" t => (false, t)
  | _ => (false, s')
  end
  = match s' with
    | String c t =>
        if Ascii.eqb c "-" then (true, t)
        else if Ascii.eqb c "+" then (false, t) else (false, s')
    | EmptyString => (false, s')
    end.
Proof. destruct s' as [|c t]; [reflexivity|]. by_character c. Qed.

Lemma minus_eq (s : string) :
  match s with
  | String "-" t => (true, t)
  | _ => (false, s)
  end
  = match s with
    | String c t => if Ascii.eqb c "-" then (true, t) else (false, s)
    | EmptyString => (false, s)
    end.
Proof. destruct s as [|c t]; [reflexivity|]. by_character c. Qed.

Lemma value_eq (fuel : nat) (s : string) :
  Json.value (S fuel) s
  = match Json.skip_ws s with
    | String c r =>
        let t := String c r in
        if Ascii.eqb c "{" then
          match Json.skip_ws r with
          | String c' r' =>
              if Ascii.eqb c' "}" then Some (JObject [], r')
              else '(ms, r') ← Json.members fuel r; Some (JObject ms, r')
          | EmptyString => '(ms, r') ← Json.members fuel r; Some (JObject ms, r')
          end
        else if Ascii.eqb c "[" then
          match Json.skip_ws r with
          | String c' r' =>
              if Ascii.eqb c' "]" then Some (JArray [], r')
              else '(vs, r') ← Json.elements fuel r; Some (JArray vs, r')
          | EmptyString => '(vs, r') ← Json.elements fuel r; Some (JArray vs, r')
          end
        else if String.prefix "true" t then Some (JBool true, Str.drop 4 t)
        else if String.prefix "false" t then Some (JBool false, Str.drop 5 t)
        else if String.prefix "null" t then Some (JNull, Str.drop 4 t)
        else if Ascii.eqb c Str.DQUOTE then
          '(str, r') ← Json.string_body EmptyString r; Some (JString str, r')
        else Json.number t
    | EmptyString => None
    end.
Proof.
  change (Json.value (S fuel) s) with
    (match Json.skip_ws s with
     | String "{" r =>
         match Json.skip_ws r with
         | String "}" r' => Some (JObject [], r')
         | _ => '(ms, r') ← Json.members fuel r; Some (JObject ms, r')
         end
     | String "[" r =>
         match Json.skip_ws r with
         | String "]" r' => Some (JArray [], r')
         | _ => '(vs, r') ← Json.elements fuel r; Some (JArray vs, r')
         end
     | String "t" (String "r" (String "u" (String "e" r))) => Some (JBool true, r)
     | String "f" (String "a" (String "l" (String "s" (String "e" r)))) =>
         Some (JBool false, r)
     | String "n" (String "u" (String "l" (String "l" r))) => Some (JNull, r)
     | String c r as t =>
         if Ascii.eqb c Str.DQUOTE then
           '(str, r') ← Json.string_body EmptyString r; Some (JString str, r')
         else Json.number t
     | EmptyString => None
     end).
  generalize (Json.skip_ws s). intros t.
  destruct t as [|c r]; [reflexivity|].
  by_character c;
    first
      [ solve [ generalize (Json.skip_ws r); intros t;
                destruct t as [|c' r']; [reflexivity|]; by_character c' ]
      | solve [ repeat (destruct r as [|c' r]; [reflexivity|]; by_character c') ] ].
Qed.

Lemma elements_eq (fuel : nat) (s : string) :
  Json.elements (S fuel) s
  = '(v, r) ← Json.value fuel s;
    match Json.skip_ws r with
    | String c r' =>
        if Ascii.eqb c "]" then Some ([v], r')
        else if Ascii.eqb c "," then
          '(vs, r'') ← Json.elements fuel r'; Some (v :: vs, r'')
        else None
    | EmptyString => None
    end.
Proof.
  change (Json.elements (S fuel) s) with
    ('(v, r) ← Json.value fuel s;
     match Json.skip_ws r with
     | String "]" r' => Some ([v], r')
     | String "," r' => '(vs, r'') ← Json.elements fuel r'; Some (v :: vs, r'')
     | _ => None
     end).
  destruct (Json.value fuel s) as [[v r]|]; [|reflexivity].
  cbn [mbind option_bind]. generalize (Json.skip_ws r). intros t.
  destruct t as [|c r']; [reflexivity|]. by_character c.
Qed.

Lemma members_eq (fuel : nat) (s : string) :
  Json.members (S fuel) s
  = match Json.skip_ws s with
    | String c r =>
        if Ascii.eqb c Str.DQUOTE then
          '(k, r1) ← Json.string_body EmptyString r;
          match Json.skip_ws r1 with
          | String c1 r2 =>
              if Ascii.eqb c1 ":" then
                '(v, r3) ← Json.value fuel r2;
                match Json.skip_ws r3 with
                | String c3 r' =>
                    if Ascii.eqb c3 "}" then Some ([(k, v)], r')
                    else if Ascii.eqb c3 "," then
                      '(ms, r'') ← Json.members fuel r'; Some ((k, v) :: ms, r'')
                    else None
                | EmptyString => None
                end
              else None
          | EmptyString => None
          end
        else None
    | EmptyString => None
    end.
Proof.
  change (Json.members (S fuel) s) with
    (match Json.skip_ws s with
     | String c r =>
         if Ascii.eqb c Str.DQUOTE then
           '(k, r1) ← Json.string_body EmptyString r;
           match Json.skip_ws r1 with
           | String ":" r2 =>
               '(v, r3) ← Json.value fuel r2;
               match Json.skip_ws r3 with
               | String "}" r' => Some ([(k, v)], r')
               | String "," r' =>
                   '(ms, r'') ← Json.members fuel r'; Some ((k, v) :: ms, r'')
               | _ => None
               end
           | _ => None
           end
         else None
     | EmptyString => None
     end).
  destruct (Json.skip_ws s) as [|c r]; [reflexivity|].
  destruct (Ascii.eqb c Str.DQUOTE); [|reflexivity].
  destruct (Json.string_body EmptyString r) as [[k r1]|]; [|reflexivity].
  cbn [mbind option_bind]. generalize (Json.skip_ws r1). intros t.
  destruct t as [|c1 r2]; [reflexivity|]. by_character c1.
  destruct (Json.value fuel r2) as [[v r3]|]; [|reflexivity].
  cbn [mbind option_bind]. cbv beta iota. generalize (Json.skip_ws r3). intros t.
  destruct t as [|c3 r']; [reflexivity|]. by_character c3.
Qed.

Lemma consumed_refl (s : string) : consumed s s.
Proof. exists EmptyString. split; reflexivity. Qed.

Lemma consumed_trans (s1 s2 s3 : string) :
  consumed s1 s2 → consumed s2 s3 → consumed s1 s3.
Proof.
  intros (p & -> & Hp) (q & -> & Hq). exists (p ++ q)%string. split.
  - clear. induction p as [|c p IH]; [reflexivity|].
    change (String c (p ++ q ++ s3) = String c ((p ++ q) ++ s3))%string.
    rewrite IH. reflexivity.
  - clear -Hp Hq. induction p as [|c p IH]; [exact Hq|].
    change (nul_free (String c (p ++ q)%string) = true). simpl in *.
    apply andb_true_iff in Hp as [Hc Hp]. rewrite Hc. simpl. apply IH, Hp.
Qed.

Lemma consumed_char (c : ascii) (s : string) :
  Ascii.eqb c Str.NUL = false → consumed (String c s) s.
Proof.
  intros Hc. exists (String c EmptyString). split; [reflexivity|].
  simpl. rewrite Hc. reflexivity.
Qed.

Lemma consumed_step (c : ascii) (s r : string) :
  Ascii.eqb c Str.NUL = false → consumed s r → consumed (String c s) r.
Proof. intros Hc H. eapply consumed_trans; [apply consumed_char, Hc | exact H]. Qed.

Lemma consumed_nul_free (s r : string) :
  consumed s r → nul_free r = true → nul_free s = true.
Proof.
  intros (p & -> & Hp) Hr. induction p as [|c p IH]; [exact Hr|].
  change (nul_free (String c (p ++ r)%string) = true). simpl in *.
  apply andb_true_iff in Hp as [Hc Hp]. rewrite Hc. simpl. apply IH, Hp.
Qed.

Lemma is_ws_not_NUL (c : ascii) : Json.is_ws c = true → Ascii.eqb c Str.NUL = false.
Proof. by_character c; discriminate. Qed.

Lemma digit_not_NUL (c : ascii) (d : Z) :
  Json.digit c = Some d → Ascii.eqb c Str.NUL = false.
Proof. by_character c; discriminate. Qed.

Lemma eqb_not_NUL (c c' : ascii) :
  Ascii.eqb c c' = true → Ascii.eqb c' Str.NUL = false →
  Ascii.eqb c Str.NUL = false.
Proof. intros H. apply Ascii.eqb_eq in H as ->. auto. Qed.

Lemma unescape_not_NUL (e c' : ascii) :
  Json.unescape e = Some c' → Ascii.eqb e Str.NUL = false.
Proof. by_character e; discriminate. Qed.

Lemma printable_not_NUL (c : ascii) :
  (Ascii.nat_of_ascii c <? 32) = false → Ascii.eqb c Str.NUL = false.
Proof. by_character c; discriminate. Qed.

Lemma skip_ws_consumed (s : string) : consumed s (Json.skip_ws s).
Proof.
  induction s as [|c s IH]; simpl; [apply consumed_refl|].
  destruct (Json.is_ws c) eqn:Hc; [|apply consumed_refl].
  apply consumed_step; [apply is_ws_not_NUL, Hc | exact IH].
Qed.

Lemma skip_ws_nul_free (s : string) :
  Json.skip_ws s = EmptyString → nul_free s = true.
Proof.
  intros H. apply (consumed_nul_free s (Json.skip_ws s) (skip_ws_consumed s)).
  rewrite H. reflexivity.
Qed.

Lemma digits_consumed (acc : Z) (count : nat) (s : string) :
  consumed s (snd (Json.digits acc count s)).
Proof.
  revert acc count. induction s as [|c s IH]; intros acc count; simpl;
    [apply consumed_refl|].
  destruct (Json.digit c) as [d|] eqn:Hc; [|apply consumed_refl].
  apply consumed_step; [apply (digit_not_NUL c d), Hc | apply IH].
Qed.

Lemma int_part_consumed (s r : string) (v : Z) :
  Json.int_part s = Some (v, r) → consumed s r.
Proof.
  destruct s as [|c s]; [discriminate|]. unfold Json.int_part.
  destruct (Json.digit c) as [d|] eqn:Hc; [|discriminate].
  pose proof (digit_not_NUL c d Hc) as Hnul.
  pose proof (digits_consumed d 1 s) as Hds.
  destruct (Json.digits d 1 s) as [[v' n'] r'].
  destruct d; intros [= <- <-]; first [apply consumed_char, Hnul
                                     | apply consumed_step; assumption].
Qed.

Lemma frac_part_consumed (int : Z) (s r : string) (v : Z) (n : nat) :
  Json.frac_part int s = Some (v, n, r) → consumed s r.
Proof.
  rewrite frac_part_eq. destruct s as [|c s]; [intros [= <- <- <-]; apply consumed_refl|].
  destruct (Ascii.eqb c ".") eqn:Hc; [|intros [= <- <- <-]; apply consumed_refl].
  pose proof (digits_consumed int 0 s) as Hds.
  destruct (Json.digits int 0 s) as [[v' n'] r'].
  destruct (n' =? 0); [discriminate|]. intros [= <- <- <-].
  apply consumed_step; [|exact Hds]. apply (eqb_not_NUL c "." Hc). reflexivity.
Qed.

Lemma exp_part_consumed (s r : string) (v : Z) :
  Json.exp_part s = Some (v, r) → consumed s r.
Proof.
  unfold Json.exp_part.
  destruct s as [|c s]; [intros [= <- <-]; apply consumed_refl|].
  destruct (Ascii.eqb c "e" || Ascii.eqb c "E") eqn:Hc;
    [|intros [= <- <-]; apply consumed_refl].
  assert (Hnul : Ascii.eqb c Str.NUL = false).
  { apply orb_true_iff in Hc as [Hc|Hc];
      [apply (eqb_not_NUL c "e" Hc) | apply (eqb_not_NUL c "E" Hc)]; reflexivity. }
  rewrite sign_eq.
  assert (Hsign : ∀ neg s'',
             (match s with
              | String c0 t =>
                  if Ascii.eqb c0 "-" then (true, t)
                  else if Ascii.eqb c0 "+" then (false, t) else (false, s)
              | EmptyString => (false, s)
              end) = (neg, s'') → consumed s s'').
  { intros neg s''. destruct s as [|c0 t]; [intros [= <- <-]; apply consumed_refl|].
    destruct (Ascii.eqb c0 "-") eqn:Hm;
      [intros [= <- <-]; apply consumed_char, (eqb_not_NUL c0 "-" Hm); reflexivity|].
    destruct (Ascii.eqb c0 "+") eqn:Hp;
      [intros [= <- <-]; apply consumed_char, (eqb_not_NUL c0 "+" Hp); reflexivity|].
    intros [= <- <-]. apply consumed_refl. }
  destruct (match s with String _ _ => _ | EmptyString => _ end) as [neg s''].
  specialize (Hsign neg s'' eq_refl).
  pose proof (digits_consumed 0 0 s'') as Hds.
  destruct (Json.digits 0 0 s'') as [[v' n'] r'].
  destruct (n' =? 0); [discriminate|]. intros [= <- <-].
  apply consumed_step; [exact Hnul|]. eapply consumed_trans; eassumption.
Qed.

Lemma number_consumed (s r : string) (v : json) :
  Json.number s = Some (v, r) → consumed s r.
Proof.
  unfold Json.number. rewrite minus_eq.
  assert (Hsign : ∀ neg s1,
             (match s with
              | String c t => if Ascii.eqb c "-" then (true, t) else (false, s)
              | EmptyString => (false, s)
              end) = (neg, s1) → consumed s s1).
  { intros neg s1. destruct s as [|c t]; [intros [= <- <-]; apply consumed_refl|].
    destruct (Ascii.eqb c "-") eqn:Hm;
      [intros [= <- <-]; apply consumed_char, (eqb_not_NUL c "-" Hm); reflexivity|].
    intros [= <- <-]. apply consumed_refl. }
  destruct (match s with String _ _ => _ | EmptyString => _ end) as [neg s1].
  specialize (Hsign neg s1 eq_refl).
  destruct (Json.int_part s1) as [[i s2]|] eqn:Hint; [|discriminate].
  cbn [mbind option_bind].
  destruct (Json.frac_part i s2) as [[[m nfrac] s3]|] eqn:Hfrac; [|discriminate].
  cbn [mbind option_bind].
  destruct (Json.exp_part s3) as [[e s4]|] eqn:Hexp; [|discriminate].
  cbn [mbind option_bind]. intros [= <- <-].
  eapply consumed_trans; [exact Hsign|].
  eapply consumed_trans; [eapply int_part_consumed, Hint|].
  eapply consumed_trans; [eapply frac_part_consumed, Hfrac|].
  eapply exp_part_consumed, Hexp.
Qed.

Lemma string_body_consumed (acc s r str : string) :
  Json.string_body acc s = Some (str, r) → consumed s r.
Proof.
  remember (String.length s) as n eqn:Hn.
  revert acc s Hn. induction n as [n IH] using lt_wf_ind. intros acc s Hn.
  destruct s as [|c s]; [discriminate|]. simpl.
  destruct (Ascii.eqb c Str.DQUOTE) eqn:Hq.
  { intros [= <- <-]. apply consumed_char, (eqb_not_NUL c Str.DQUOTE Hq). reflexivity. }
  destruct (Ascii.eqb c "\") eqn:Hb.
  { destruct s as [|e s]; [discriminate|].
    destruct (Json.unescape e) as [c'|] eqn:He; [|discriminate].
    intros H. apply consumed_step; [apply (eqb_not_NUL c "\" Hb); reflexivity|].
    apply consumed_step; [apply (unescape_not_NUL e c'), He|].
    apply (IH (String.length s)) in H; [exact H | subst n; simpl; lia | reflexivity]. }
  destruct (Ascii.nat_of_ascii c <? 32) eqn:Hp; [discriminate|].
  intros H. apply consumed_step; [apply printable_not_NUL, Hp|].
  apply (IH (String.length s)) in H; [exact H | subst n; simpl; lia | reflexivity].
Qed.

Lemma descent_consumed (fuel : nat) :
  (∀ s v r, Json.value fuel s = Some (v, r) → consumed s r)
  ∧ (∀ s vs r, Json.elements fuel s = Some (vs, r) → consumed s r)
  ∧ (∀ s ms r, Json.members fuel s = Some (ms, r) → consumed s r).
Proof.
  induction fuel as [|fuel (IHv & IHe & IHm)];
    [repeat split; intros; discriminate|].
  assert (Hlit : ∀ c r lit n,
             String.prefix lit (String c r) = true → nul_free lit = true →
             String.length lit = n →
             consumed (String c r) (Str.drop n (String c r))).
  { intros c r lit n. generalize (String c r). clear. intros t. revert t n.
    induction lit as [|l lit IH]; intros t n Hpre Hfree <-; [apply consumed_refl|].
    destruct t as [|c t]; [discriminate|]. simpl in Hpre, Hfree.
    destruct (Ascii.ascii_dec l c) as [->|Hne]; [|discriminate].
    apply andb_true_iff in Hfree as [Hc Hfree]. apply negb_true_iff in Hc.
    simpl. apply consumed_step; [exact Hc|]. apply IH; [exact Hpre | exact Hfree | reflexivity]. }
  split; [|split].
  - intros s v r. rewrite value_eq.
    pose proof (skip_ws_consumed s) as Hs.
    destruct (Json.skip_ws s) as [|c r0]; [discriminate|]. cbv zeta.
    intros H. eapply consumed_trans; [exact Hs|]. revert H.
    destruct (Ascii.eqb c "{") eqn:Hobj.
    { assert (Hc : Ascii.eqb c Str.NUL = false)
        by (apply (eqb_not_NUL c "{" Hobj); reflexivity).
      pose proof (skip_ws_consumed r0) as Hr0.
      assert (Hmem : ('(ms, r') ← Json.members fuel r0; Some (JObject ms, r'))
                     = Some (v, r) → consumed (String c r0) r).
      { destruct (Json.members fuel r0) as [[ms r']|] eqn:Hm; [|discriminate].
        cbn [mbind option_bind]. intros [= <- <-].
        apply consumed_step; [exact Hc | apply (IHm _ _ _ Hm)]. }
      destruct (Json.skip_ws r0) as [|c' r']; [exact Hmem|].
      destruct (Ascii.eqb c' "}") eqn:Hclose; [|exact Hmem].
      intros [= <- <-]. apply consumed_step; [exact Hc|].
      eapply consumed_trans; [exact Hr0|].
      apply consumed_char, (eqb_not_NUL c' "}" Hclose). reflexivity. }
    destruct (Ascii.eqb c "[") eqn:Harr.
    { assert (Hc : Ascii.eqb c Str.NUL = false)
        by (apply (eqb_not_NUL c "[" Harr); reflexivity).
      pose proof (skip_ws_consumed r0) as Hr0.
      assert (Helt : ('(vs, r') ← Json.elements fuel r0; Some (JArray vs, r'))
                     = Some (v, r) → consumed (String c r0) r).
      { destruct (Json.elements fuel r0) as [[vs r']|] eqn:He; [|discriminate].
        cbn [mbind option_bind]. intros [= <- <-].
        apply consumed_step; [exact Hc | apply (IHe _ _ _ He)]. }
      destruct (Json.skip_ws r0) as [|c' r']; [exact Helt|].
      destruct (Ascii.eqb c' "]") eqn:Hclose; [|exact Helt].
      intros [= <- <-]. apply consumed_step; [exact Hc|].
      eapply consumed_trans; [exact Hr0|].
      apply consumed_char, (eqb_not_NUL c' "]" Hclose). reflexivity. }
    destruct (String.prefix "true" (String c r0)) eqn:Htrue.
    { intros [= <- <-]. apply (Hlit c r0 "true" 4 Htrue); reflexivity. }
    destruct (String.prefix "false" (String c r0)) eqn:Hfalse.
    { intros [= <- <-]. apply (Hlit c r0 "false" 5 Hfalse); reflexivity. }
    destruct (String.prefix "null" (String c r0)) eqn:Hnull.
    { intros [= <- <-]. apply (Hlit c r0 "null" 4 Hnull); reflexivity. }
    destruct (Ascii.eqb c Str.DQUOTE) eqn:Hq.
    { destruct (Json.string_body EmptyString r0) as [[str r']|] eqn:Hstr;
        [|discriminate].
      cbn [mbind option_bind]. intros [= <- <-].
      apply consumed_step; [apply (eqb_not_NUL c Str.DQUOTE Hq); reflexivity|].
      apply (string_body_consumed _ _ _ _ Hstr). }
    apply number_consumed.
  - intros s vs r. rewrite elements_eq.
    destruct (Json.value fuel s) as [[v r0]|] eqn:Hv; [|discriminate].
    cbn [mbind option_bind].
    pose proof (skip_ws_consumed r0) as Hr0.
    destruct (Json.skip_ws r0) as [|c r']; [discriminate|].
    intros H. eapply consumed_trans; [apply (IHv _ _ _ Hv)|].
    eapply consumed_trans; [exact Hr0|]. revert H.
    destruct (Ascii.eqb c "]") eqn:Hclose.
    { intros [= <- <-]. apply consumed_char, (eqb_not_NUL c "]" Hclose). reflexivity. }
    destruct (Ascii.eqb c ",") eqn:Hcomma; [|discriminate].
    destruct (Json.elements fuel r') as [[vs' r'']|] eqn:He; [|discriminate].
    cbn [mbind option_bind]. intros [= <- <-].
    apply consumed_step; [apply (eqb_not_NUL c "," Hcomma); reflexivity|].
    apply (IHe _ _ _ He).
  - intros s ms r. rewrite members_eq.
    pose proof (skip_ws_consumed s) as Hs.
    destruct (Json.skip_ws s) as [|c r0]; [discriminate|].
    destruct (Ascii.eqb c Str.DQUOTE) eqn:Hq; [|discriminate].
    destruct (Json.string_body EmptyString r0) as [[k r1]|] eqn:Hk; [|discriminate].
    cbn [mbind option_bind].
    pose proof (skip_ws_consumed r1) as Hr1.
    destruct (Json.skip_ws r1) as [|c1 r2]; [discriminate|].
    destruct (Ascii.eqb c1 ":") eqn:Hcolon; [|discriminate].
    destruct (Json.value fuel r2) as [[v r3]|] eqn:Hv; [|discriminate].
    cbn [mbind option_bind].
    pose proof (skip_ws_consumed r3) as Hr3.
    destruct (Json.skip_ws r3) as [|c3 r']; [discriminate|].
    intros H. eapply consumed_trans; [exact Hs|].
    apply consumed_step; [apply (eqb_not_NUL c Str.DQUOTE Hq); reflexivity|].
    eapply consumed_trans; [apply (string_body_consumed _ _ _ _ Hk)|].
    eapply consumed_trans; [exact Hr1|].
    apply consumed_step; [apply (eqb_not_NUL c1 ":" Hcolon); reflexivity|].
    eapply consumed_trans; [apply (IHv _ _ _ Hv)|].
    eapply consumed_trans; [exact Hr3|]. revert H.
    destruct (Ascii.eqb c3 "}") eqn:Hclose.
    { intros [= <- <-]. apply consumed_char, (eqb_not_NUL c3 "}" Hclose). reflexivity. }
    destruct (Ascii.eqb c3 ",") eqn:Hcomma; [|discriminate].
    destruct (Json.members fuel r') as [[ms' r'']|] eqn:Hm; [|discriminate].
    cbn [mbind option_bind]. intros [= <- <-].
    apply consumed_step; [apply (eqb_not_NUL c3 "," Hcomma); reflexivity|].
    apply (IHm _ _ _ Hm).
Qed.

(** What [JSON.parse] accepts holds no NUL. *)
Lemma parse_nul_free (text : string) (v : json) :
  Json.parse text = Some v → nul_free text = true.
Proof.
  unfold Json.parse.
  destruct (Json.value (2 * String.length text + 2) text) as [[v' r]|] eqn:Hv;
    [|discriminate].
  cbn [mbind option_bind]. intros H.
  apply (consumed_nul_free text r).
  - apply (proj1 (descent_consumed _) _ _ _ Hv).
  - apply skip_ws_nul_free. destruct (Json.skip_ws r); [reflexivity | discriminate].
Qed.

(** ** A frame whose last line runs into the NUL *)

Lemma nul_free_app (s1 s2 : string) :
  nul_free (s1 ++ s2)%string = nul_free s1 && nul_free s2.
Proof.
  induction s1 as [|c s1 IH]; [reflexivity|].
  change (nul_free (String c (s1 ++ s2)%string) = nul_free (String c s1) && nul_free s2).
  simpl. rewrite IH, andb_assoc. reflexivity.
Qed.

Lemma prefix_before_nul (p b : string) :
  nul_free p = true →
  String.prefix p (b ++ Str.nul)%string = true → String.prefix p b = true.
Proof.
  revert b. induction p as [|a p IH]; intros b Hp; [destruct b; reflexivity|].
  simpl in Hp. apply andb_true_iff in Hp as [Ha Hp]. apply negb_true_iff in Ha.
  destruct b as [|c b].
  - change (String.prefix (String a p) (String Str.NUL "") = true → false = true).
    simpl. destruct (Ascii.ascii_dec a Str.NUL) as [->|Hne]; [|auto].
    rewrite Ascii.eqb_refl in Ha. discriminate.
  - change (String.prefix (String a p) (String c (b ++ Str.nul)%string) = true
            → String.prefix (String a p) (String c b) = true).
    simpl. destruct (Ascii.ascii_dec a c); [apply IH, Hp | auto].
Qed.

Lemma split_go_snoc (cur text line : string) :
  lf_free line = true →
  Str.split_go cur (text ++ Str.lf ++ line)
  = Str.split_go cur text ++ [line].
Proof.
  intros Hline. revert cur. induction text as [|c text IH]; intros cur.
  - change (Str.split_go cur (String Str.LF line) = [String.rev cur] ++ [line]).
    simpl. rewrite split_go_line by exact Hline. reflexivity.
  - change (Str.split_go cur (String c (text ++ Str.lf ++ line))
            = Str.split_go cur (String c text) ++ [line]).
    simpl. destruct (Ascii.eqb c Str.LF); rewrite IH; reflexivity.
Qed.

Lemma after_blank_snoc (lines : list string) (line : string) :
  line ≠ "" →
  after_blank (lines ++ [line])
  = match after_blank lines with
    | Some post => Some (post ++ [line])
    | None => None
    end.
Proof.
  intros Hline. induction lines as [|l lines IH]; simpl.
  - destruct (String.eqb_spec line ""); [contradiction | reflexivity].
  - destruct (String.eqb l ""); [reflexivity | exact IH].
Qed.

Lemma glue_app (l1 l2 : list string) :
  glue (l1 ++ l2) = (glue l1 ++ glue l2)%string.
Proof.
  induction l1 as [|l l1 IH]; [reflexivity|].
  simpl. unfold glue in *. simpl. rewrite IH, string_app_assoc. reflexivity.
Qed.

(** The body that the scan yields for a text that ends in a line of
    body and the NUL. *)
Lemma scan_body_before_nul (text last : string) :
  lf_free last = true → last ≠ "" →
  Str.startsWith last "destination:" = false →
  let body := snd (fst (scan_frame (text ++ Str.lf ++ last ++ Str.nul))) in
  body = "" ∨ nul_free body = false.
Proof.
  intros Hlf Hlast Hdest body. subst body.
  assert (Hline_lf : lf_free (last ++ Str.nul)%string = true).
  { clear -Hlf. induction last as [|c last IH]; [reflexivity|].
    change (lf_free (String c (last ++ Str.nul)%string) = true). simpl in *.
    apply andb_true_iff in Hlf as [Hc Hlf]. rewrite Hc. simpl. apply IH, Hlf. }
  assert (Hline_ne : (last ++ Str.nul)%string ≠ "").
  { destruct last; discriminate. }
  assert (Hbody : is_body_line (last ++ Str.nul)%string = true).
  { unfold is_body_line, is_destination_line, Str.startsWith.
    destruct (String.prefix "destination:" (last ++ Str.nul)%string) eqn:Hpre.
    { apply prefix_before_nul in Hpre; [|reflexivity].
      unfold Str.startsWith in Hdest. congruence. }
    assert (H1 : String.eqb (last ++ Str.nul)%string "" = false)
      by (apply String.eqb_neq, Hline_ne).
    assert (H2 : String.eqb (last ++ Str.nul)%string Str.nul = false).
    { apply String.eqb_neq. intros H. apply (f_equal String.length) in H.
      rewrite string_length_app in H. destruct last; [congruence|].
      simpl in H. lia. }
    rewrite H1, H2. reflexivity. }
  unfold scan_frame, Str.split_lines. rewrite split_go_snoc by exact Hline_lf.
  rewrite scan_before_body. cbn [fst snd].
  rewrite after_blank_snoc by exact Hline_ne.
  destruct (after_blank (Str.split_go "" text)) as [post|]; simpl default.
  - right. rewrite List.filter_app, glue_app. simpl List.filter. rewrite Hbody.
    change ("" ++ ?x)%string with x.
    rewrite !nul_free_app. unfold glue at 2. simpl fold_right.
    rewrite !nul_free_app. simpl. rewrite !andb_false_r. reflexivity.
  - left. reflexivity.
Qed.

(** X8: A frame in which the body runs into the terminating NUL, as the
    frame grammar has it and as the client writes its own frames, is
    never delivered: whatever stands before the last line, if the last
    line is not empty, its text stays joined to the NUL, and no such
    body is accepted by [JSON.parse].  No callback is invoked and
    nothing is thrown, whatever is registered; in particular this is so
    for the MESSAGE frame of every destination and every body of one
    line. *)
Theorem body_joined_to_NUL_never_delivered (text last : string) (s : state) :
  lf_free last = true → last ≠ "" →
  Str.startsWith last "destination:" = false →
  handleStompMessage (text ++ Str.lf ++ last ++ Str.nul) s = (Ret tt, s)
  ∧ ∀ destination,
      handleStompMessage (MESSAGE_frame destination last) s = (Ret tt, s).
Proof.
  intros Hlf Hlast Hdest.
  assert (Hall : ∀ text,
            handleStompMessage (text ++ Str.lf ++ last ++ Str.nul) s = (Ret tt, s)).
  { clear text. intros text.
    pose proof (scan_body_before_nul text last Hlf Hlast Hdest) as Hbody.
    unfold handleStompMessage.
    destruct (scan_frame (text ++ Str.lf ++ last ++ Str.nul))
      as [[destination body] inBody].
    cbn [fst snd] in Hbody. cbv zeta in Hbody.
    destruct Hbody as [->|Hnul].
    - rewrite andb_false_r. reflexivity.
    - assert (Hparse : Json.parse body = None).
      { destruct (Json.parse body) as [v|] eqn:Hp; [|reflexivity].
        apply parse_nul_free in Hp. congruence. }
      destruct (Str.truthy destination && Str.truthy body); [|reflexivity].
      unfold when, try_catch.
      repeat match goal with |- context [if ?c then _ else _] => destruct c end;
        unfold mbind, M_bind; rewrite JSON_parse_result, Hparse; reflexivity. }
  split; [apply Hall|].
  intros destination.
  replace (MESSAGE_frame destination last)
    with (("MESSAGE" ++ Str.lf ++ "destination:" ++ destination ++ Str.lf)
          ++ Str.lf ++ last ++ Str.nul)%string; [apply Hall|].
  unfold MESSAGE_frame. rewrite !string_app_assoc. reflexivity.
Qed.

Lemma body_joined_to_NUL_never_delivered_witness :
  handleStompMessage
    (MESSAGE_frame "/markets/AAPL/depth" (request_body orders))
    (after (handshake ++ [SubscribeToMarketData "AAPL" 1 2]) (init silent false))
  = (Ret tt,
     after (handshake ++ [SubscribeToMarketData "AAPL" 1 2]) (init silent false)).
Proof.
  apply (body_joined_to_NUL_never_delivered "" (request_body orders));
    [vm_compute; reflexivity | discriminate | vm_compute; reflexivity].
Defined.

(** ** A frame whose body ends in a line break *)





(** The same with a no-break space, U+00A0, before the destination. *)
Example destination_after_no_break_space :
  Str.trim (String (Ascii.ascii_of_nat 194)
              (String (Ascii.ascii_of_nat 160) "/account/ACC1/updates"))
  = "/account/ACC1/updates"
  ∧ delivered
      (snd (handleStompMessage
              (MESSAGE_frame
                 (String (Ascii.ascii_of_nat 194)
                    (String (Ascii.ascii_of_nat 160) "/account/ACC1/updates"))
                 (balance_text ++ Str.lf))
              two_quiet_listeners))
    = [(1, balance_update); (2, balance_update)].
Proof. split; vm_compute; reflexivity. Qed.

(** ** Invariants, by the same scheme *)

Lemma keeping_refl (P : state -> Prop) (s : state) : keeping P s s.
Proof. intros H. exact H. Qed.

Lemma keeping_trans (P : state -> Prop) (s1 s2 s3 : state) :
  keeping P s1 s2 → keeping P s2 s3 → keeping P s1 s3.
Proof. intros H12 H23 H. apply H23, H12, H. Qed.

(** What is kept by every handler holds in every reachable state. *)
Lemma kept_by_handlers (P : state -> Prop) :
  (∀ raises ctorThrows, P (init raises ctorThrows)) →
  (∀ e, respects (keeping P) (handle e)) →
  ∀ s, reachable s → P s.
Proof.
  intros Hinit Hstep s (raises & ctorThrows & es & Hrun).
  revert Hrun. generalize (Hinit raises ctorThrows).
  generalize (init raises ctorThrows). induction es as [|e es IH]; intros s0 H0; simpl.
  - intros [= <-]. exact H0.
  - unfold step. destruct (enabled e s0); [|discriminate].
    apply IH, (Hstep e s0), H0.
Qed.

(** *** The policy of reconnection is bounded *)

Ltac policy_fields :=
  first
    [ exact (keeping_refl policy_kept)
    | exact (keeping_trans policy_kept)
    | intros; intros (Hmax & Hdelay & Hn & Hp);
      unfold policy_kept; simpl;
      repeat match goal with |- _ ∧ _ => split end;
      first [ assumption | lia
            | apply Forall_app; split; [assumption|];
              apply Forall_singleton; simpl; auto
            | apply Forall_delete; assumption ] ].

Ltac policy_go :=
  repeat first
    [ apply respects_ret; [policy_fields]
    | apply respects_get; [policy_fields]
    | apply respects_throw; [policy_fields]
    | apply respects_bind; [policy_fields | | intros ?]
    | apply respects_try_catch; [policy_fields | |]
    | apply respects_when; [policy_fields |]
    | apply respects_forEach; [policy_fields | policy_fields | intros ?]
    | apply respects_modify; solve [policy_fields]
    | match goal with
      | |- respects _ (match ?x with _ => _ end) => destruct x eqn:?
      | |- respects _ (if ?x then _ else _) => destruct x eqn:?
      | |- respects _ (let '(_, _) := ?x in _) => destruct x eqn:?
      end ].

Lemma attemptReconnect_policy : respects (keeping policy_kept) attemptReconnect.
Proof.
  intros s (Hmax & Hdelay & Hn & Hp).
  unfold attemptReconnect. run_monad. rewrite Hmax.
  destruct (reconnectAttempts s <? 5) eqn:Hlt; simpl.
  - apply Nat.ltb_lt in Hlt. unfold policy_kept. simpl.
    repeat match goal with |- _ ∧ _ => split end; try assumption.
    apply Forall_app. split; [assumption|]. apply Forall_singleton. simpl.
    right. exists (reconnectAttempts s). split; [lia|].
    rewrite Hdelay, Nat.sub_0_r. reflexivity.
  - unfold policy_kept. repeat match goal with |- _ ∧ _ => split end; assumption.
Qed.

Lemma connectInternal_policy : respects (keeping policy_kept) connectInternal.
Proof.
  intros s. destruct (ctorThrows s) eqn:Hctor.
  - unfold connectInternal, try_catch, new_WebSocket. run_monad. rewrite Hctor.
    apply attemptReconnect_policy.
  - rewrite connectInternal_opens by exact Hctor.
    intros H. exact H.
Qed.

Lemma parseMessage_policy (message : string) :
  respects (keeping policy_kept) (parseMessage message).
Proof.
  unfold parseMessage, handleStompMessage, resubscribeAll, notifyCallbacks,
    notifyMarketCallbacks, notifyDepthCallbacks, notifyLastTradeCallbacks,
    JSON_parse, invoke.
  policy_go.
Qed.

Lemma handle_policy (e : event) : respects (keeping policy_kept) (handle e).
Proof.
  destruct e as [| |a c|a c|a c1 c2|a c1 c2|a sc|k|i|i [text|content]|i|i];
    simpl.
  - unfold connect. policy_go.
  - intros s (Hmax & Hdelay & Hn & Hp). rewrite disconnect_result.
    unfold disconnected.
    destruct (ws s); [destruct (readyState_of s _), (connected s)|];
      unfold policy_kept; simpl;
      (repeat match goal with |- _ ∧ _ => split end; first [assumption | lia]).
  - unfold subscribe. policy_go.
  - unfold unsubscribe. policy_go.
  - unfold subscribeToMarketData. policy_go.
  - unfold unsubscribeFromMarketData. policy_go.
  - unfold sendRequest. policy_go.
  - apply respects_bind; [policy_fields | apply respects_get; policy_fields | intros s0].
    apply respects_bind; [policy_fields | apply respects_modify; policy_fields | intros _].
    destruct (pending s0 !! k) as [[delay|text]|].
    + apply connectInternal_policy.
    + apply parseMessage_policy.
    + apply respects_ret; policy_fields.
  - unfold onopen, sendConnect. policy_go.
  - apply parseMessage_policy.
  - unfold onmessage, handleMessage, defer. policy_go.
  - unfold onerror. policy_go.
  - unfold onclose.
    apply respects_bind; [policy_fields | apply respects_modify; policy_fields | intros _].
    apply respects_bind; [policy_fields | apply respects_modify; policy_fields | intros _].
    apply attemptReconnect_policy.
Qed.

(** X10: In every reachable state the attempt counter is at most 5, and every
    timer that is pending was armed for the 500 ms of [connect()] or for
    [1000 * 2^n] ms with [n] below 5: the backoff has no cap of its own,
    but the bound on the attempts caps it at [1000 * 2^4] ms. *)
Theorem backoff_bounded (s : state) :
  reachable s →
  reconnectAttempts s ≤ 5
  ∧ ∀ k delay, pending s !! k = Some (Timer delay) →
      (delay = 500 ∨ ∃ n, n < 5 ∧ delay = 1000 * 2 ^ n)
      ∧ delay ≤ 1000 * 2 ^ 4.
Proof.
  intros Hreach.
  assert (H : policy_kept s).
  { revert s Hreach. apply kept_by_handlers; [|exact handle_policy].
    intros raises ctorThrows. unfold policy_kept. simpl.
    repeat match goal with |- _ ∧ _ => split end; try reflexivity; [lia|].
    constructor. }
  destruct H as (_ & _ & Hn & Hp). split; [exact Hn|].
  intros k delay Hk.
  pose proof (proj1 (Forall_lookup _ _) Hp k _ Hk) as Hd.
  change (delay = 500 ∨ ∃ n, n < 5 ∧ delay = 1000 * 2 ^ n) in Hd.
  split; [exact Hd|].
  destruct Hd as [->|(n & Hlt & ->)].
  - apply Nat.le_trans with (1000 * 1); [|apply Nat.mul_le_mono_l; simpl; lia].
    rewrite Nat.mul_1_r. apply Nat.leb_le. vm_compute. reflexivity.
  - apply Nat.mul_le_mono_l, Nat.pow_le_mono_r; lia.
Qed.

Lemma backoff_bounded_witness :
  reconnectAttempts awaiting_retry ≤ 5
  ∧ ∀ k delay, pending awaiting_retry !! k = Some (Timer delay) →
      (delay = 500 ∨ ∃ n, n < 5 ∧ delay = 1000 * 2 ^ n)
      ∧ delay ≤ 1000 * 2 ^ 4.
Proof.
  apply backoff_bounded. apply after_reachable. vm_compute. eauto.
Defined.

(** *** Subscription identifiers are never reused *)

Lemma subscribe_ids_app (w1 w2 : list (nat * frame)) :
  subscribe_ids (w1 ++ w2) = subscribe_ids w1 ++ subscribe_ids w2.
Proof.
  induction w1 as [|[i f] w1 IH]; [reflexivity|].
  destruct f; simpl; rewrite IH; reflexivity.
Qed.

Lemma increasing_snoc (lo c : nat) (ids : list nat) :
  increasing_from lo ids → Forall (fun x => x ≤ c) ids → lo ≤ c →
  increasing_from lo (ids ++ [S c]).
Proof.
  revert lo. induction ids as [|x ids IH]; intros lo Hinc Hle Hlo; simpl.
  - split; [lia | exact I].
  - destruct Hinc as [Hx Hinc]. apply Forall_cons in Hle as [Hxc Hle].
    split; [exact Hx|]. apply IH; assumption.
Qed.

Lemma increasing_above (lo : nat) (ids : list nat) :
  increasing_from lo ids → Forall (fun x => lo < x) ids.
Proof.
  revert lo. induction ids as [|x ids IH]; intros lo; simpl; [constructor|].
  intros [Hx Hinc]. constructor; [exact Hx|].
  eapply Forall_impl; [apply IH, Hinc|]. simpl. intros y Hy. lia.
Qed.

Lemma increasing_NoDup (lo : nat) (ids : list nat) :
  increasing_from lo ids → NoDup ids.
Proof.
  revert lo. induction ids as [|x ids IH]; intros lo; simpl; [constructor|].
  intros [_ Hinc]. constructor; [|apply (IH x), Hinc].
  intros Hin. pose proof (increasing_above _ _ Hinc) as Habove.
  rewrite Forall_forall in Habove. specialize (Habove _ Hin). lia.
Qed.

Ltac ids_fields :=
  first
    [ exact (keeping_refl ids_never_reused)
    | exact (keeping_trans ids_never_reused)
    | intros; intros [Hinc Hle]; split; simpl; assumption ].

Lemma ws_send_ids (f : frame) :
  (∀ subId d, f ≠ SUBSCRIBE subId d) →
  respects (keeping ids_never_reused) (ws_send f).
Proof.
  intros Hf s [Hinc Hle]. unfold ws_send. run_monad.
  destruct (ws s) as [i|]; simpl; [|split; assumption].
  destruct (readyState_of s i); simpl; try (split; assumption).
  unfold ids_never_reused. simpl. rewrite subscribe_ids_app.
  destruct f; try (simpl; rewrite app_nil_r; split; assumption).
  exfalso. eapply Hf. reflexivity.
Qed.

Lemma subscribeToDestination_ids (d : string) :
  respects (keeping ids_never_reused) (subscribeToDestination d).
Proof.
  intros s [Hinc Hle]. destruct (subscriptions s !! d) as [subId|] eqn:Hd.
  - rewrite subscribeToDestination_known by eauto. split; assumption.
  - assert (Hle' : Forall (fun x => x ≤ S (subscriptionCounter s))
                     (subscribe_ids (wire s))).
    { eapply Forall_impl; [exact Hle|]. simpl. intros x Hx. lia. }
    unfold subscribeToDestination, ws_send. run_monad. rewrite Hd. simpl.
    unfold ws_open, readyState_of. simpl.
    destruct (ws s) as [i|] eqn:Hws; simpl;
      [destruct (default CLOSED (sockets s !! i)) eqn:Hrs; simpl;
       rewrite ?Hws; simpl; rewrite ?Hrs; simpl|];
      unfold ids_never_reused; simpl; try (split; assumption).
    rewrite subscribe_ids_app. simpl. split.
    + apply increasing_snoc; [assumption | assumption | lia].
    + apply Forall_app. split; [exact Hle'|]. apply Forall_singleton. lia.
Qed.

Ltac ids_go :=
  repeat first
    [ apply subscribeToDestination_ids
    | apply ws_send_ids; intros ? ?; discriminate
    | apply respects_ret; [ids_fields]
    | apply respects_get; [ids_fields]
    | apply respects_throw; [ids_fields]
    | apply respects_bind; [ids_fields | | intros ?]
    | apply respects_try_catch; [ids_fields | |]
    | apply respects_when; [ids_fields |]
    | apply respects_forEach; [ids_fields | ids_fields | intros ?]
    | apply respects_modify; solve [ids_fields]
    | match goal with
      | |- respects _ (match ?x with _ => _ end) => destruct x eqn:?
      | |- respects _ (if ?x then _ else _) => destruct x eqn:?
      | |- respects _ (let '(_, _) := ?x in _) => destruct x eqn:?
      end ].

Lemma handle_ids (e : event) : respects (keeping ids_never_reused) (handle e).
Proof.
  destruct e as [| |a c|a c|a c1 c2|a c1 c2|a sc|k|i|i data|i|i]; simpl;
    unfold connect, disconnect, socket_close, subscribe, unsubscribe,
      subscribeToMarketData, unsubscribeFromMarketData, sendRequest,
      connectInternal, new_WebSocket, attemptReconnect, defer,
      onopen, sendConnect, onmessage, handleMessage, onerror, onclose,
      parseMessage, handleStompMessage, resubscribeAll, notifyCallbacks,
      notifyMarketCallbacks, notifyDepthCallbacks, notifyLastTradeCallbacks,
      JSON_parse, invoke;
    ids_go.
Qed.

(** X11: The identifiers of the SUBSCRIBE frames the client has sent, over all
    sockets and in the order of sending, increase strictly: no identifier
    is sent twice, not even after [disconnect()] has cleared the
    subscriptions, since the counter is never reset. *)
Theorem subscription_ids_never_reused (s : state) :
  reachable s →
  increasing_from 0 (subscribe_ids (wire s))
  ∧ NoDup (subscribe_ids (wire s))
  ∧ Forall (fun subId => 1 ≤ subId ≤ subscriptionCounter s)
      (subscribe_ids (wire s)).
Proof.
  intros Hreach.
  assert (H : ids_never_reused s).
  { revert s Hreach. apply kept_by_handlers; [|exact handle_ids].
    intros raises ctorThrows. split; simpl; [exact I | constructor]. }
  destruct H as [Hinc Hle]. split; [exact Hinc|].
  split; [eapply increasing_NoDup, Hinc|].
  pose proof (increasing_above _ _ Hinc) as Habove.
  rewrite Forall_forall in *. intros x Hx.
  specialize (Habove _ Hx). specialize (Hle _ Hx). simpl in *. lia.
Qed.

Lemma subscription_ids_never_reused_witness :
  increasing_from 0 (subscribe_ids (wire subscribed_twice))
  ∧ NoDup (subscribe_ids (wire subscribed_twice))
  ∧ Forall (fun subId => 1 ≤ subId ≤ subscriptionCounter subscribed_twice)
      (subscribe_ids (wire subscribed_twice)).
Proof.
  apply subscription_ids_never_reused. apply after_reachable. vm_compute. eauto.
Defined.

(** *** Recorded identifiers tell the destinations apart *)

Lemma subscribeToDestination_sound (d : string) :
  respects (keeping ids_sound) (subscribeToDestination d).
Proof.
  intros s [Hall Hdis]. destruct (subscriptions s !! d) as [subId|] eqn:Hd.
  - rewrite subscribeToDestination_known by eauto. split; assumption.
  - assert (H : ∀ s',
               subscriptions s' = <[d := S (subscriptionCounter s)]> (subscriptions s) →
               subscriptionCounter s' = S (subscriptionCounter s) →
               ids_sound s').
    { intros s' Hs Hc. split.
      - intros d' subId'. rewrite Hs, Hc.
        destruct (decide (d = d')) as [<-|Hne].
        + rewrite lookup_insert_eq. intros [= <-]. lia.
        + rewrite lookup_insert_ne by exact Hne. intros H'.
          specialize (Hall _ _ H'). lia.
      - intros d1 d2 subId'. rewrite Hs.
        destruct (decide (d = d1)) as [<-|Hne1], (decide (d = d2)) as [<-|Hne2];
          rewrite ?lookup_insert_eq, ?lookup_insert_ne by assumption;
          try reflexivity.
        + intros [= <-] H2. specialize (Hall _ _ H2). lia.
        + intros H1 [= <-]. specialize (Hall _ _ H1). lia.
        + apply Hdis. }
    unfold subscribeToDestination, ws_send. run_monad. rewrite Hd. simpl.
    unfold ws_open, readyState_of. simpl.
    destruct (ws s) as [i|] eqn:Hws; simpl;
      [destruct (default CLOSED (sockets s !! i)) eqn:Hrs; simpl;
       rewrite ?Hws; simpl; rewrite ?Hrs; simpl|];
      apply H; reflexivity.
Qed.

Lemma delete_subscription_sound (d : string) :
  respects (keeping ids_sound)
    (modify (fun s => set_subscriptions (delete d (subscriptions s)) s)).
Proof.
  intros s [Hall Hdis]. split.
  - intros d' subId. simpl. intros H.
    apply lookup_delete_Some in H as [_ H]. apply (Hall _ _ H).
  - intros d1 d2 subId. simpl. intros H1 H2.
    apply lookup_delete_Some in H1 as [_ H1].
    apply lookup_delete_Some in H2 as [_ H2]. apply (Hdis _ _ _ H1 H2).
Qed.

Ltac sound_fields :=
  first
    [ exact (keeping_refl ids_sound)
    | exact (keeping_trans ids_sound)
    | intros; intros [Hall Hdis]; split;
      [ intros ? ?; simpl; first [apply Hall | rewrite lookup_empty; discriminate]
      | intros ? ? ?; simpl; first [apply Hdis | rewrite lookup_empty; discriminate] ] ].

Ltac sound_go :=
  repeat first
    [ apply subscribeToDestination_sound
    | apply delete_subscription_sound
    | apply respects_ret; [sound_fields]
    | apply respects_get; [sound_fields]
    | apply respects_throw; [sound_fields]
    | apply respects_bind; [sound_fields | | intros ?]
    | apply respects_try_catch; [sound_fields | |]
    | apply respects_when; [sound_fields |]
    | apply respects_forEach; [sound_fields | sound_fields | intros ?]
    | apply respects_modify; solve [sound_fields]
    | match goal with
      | |- respects _ (match ?x with _ => _ end) => destruct x eqn:?
      | |- respects _ (if ?x then _ else _) => destruct x eqn:?
      | |- respects _ (let '(_, _) := ?x in _) => destruct x eqn:?
      end ].

Lemma handle_sound (e : event) : respects (keeping ids_sound) (handle e).
Proof.
  destruct e as [| |a c|a c|a c1 c2|a c1 c2|a sc|k|i|i data|i|i]; simpl;
    unfold connect, disconnect, socket_close, subscribe, unsubscribe,
      subscribeToMarketData, unsubscribeFromMarketData, sendRequest,
      connectInternal, new_WebSocket, attemptReconnect, defer,
      onopen, sendConnect, onmessage, handleMessage, onerror, onclose,
      parseMessage, handleStompMessage, resubscribeAll, notifyCallbacks,
      notifyMarketCallbacks, notifyDepthCallbacks, notifyLastTradeCallbacks,
      JSON_parse, invoke, ws_send;
    sound_go.
Qed.

(** X12: In every reachable state the subscription map is injective: two
    destinations are never recorded under the same identifier, so an
    UNSUBSCRIBE frame names one destination; and every recorded
    identifier is at least 1, so the truthiness test [subId && ...] of the
    unsubscribing methods never fails on a recorded identifier. *)
Theorem recorded_ids_distinct (s : state) (d1 d2 : string) (subId : nat) :
  reachable s →
  subscriptions s !! d1 = Some subId → subscriptions s !! d2 = Some subId →
  d1 = d2 ∧ truthy_id (Some subId) = true.
Proof.
  intros Hreach H1 H2.
  assert (H : ids_sound s).
  { revert s Hreach H1 H2. intros s Hreach _ _. revert s Hreach.
    apply kept_by_handlers; [|exact handle_sound].
    intros raises ctorThrows. split.
    - intros d subId'. simpl. rewrite lookup_empty. discriminate.
    - intros d d' subId'. simpl. rewrite lookup_empty. discriminate. }
  destruct H as [Hall Hdis]. split; [apply (Hdis _ _ _ H1 H2)|].
  specialize (Hall _ _ H1). simpl. destruct subId; [lia | reflexivity].
Qed.

Lemma recorded_ids_distinct_witness :
  account_destination "ACC1" = account_destination "ACC1"
  ∧ truthy_id (Some 2) = true.
Proof.
  apply (recorded_ids_distinct subscribed_twice
           (account_destination "ACC1") (account_destination "ACC1") 2).
  - apply after_reachable. vm_compute. eauto.
  - vm_compute. reflexivity.
  - vm_compute. reflexivity.
Defined.

(** ** The registry of [/market/] destinations is never written *)

Ltac market_fields :=
  first
    [ exact (keeping_refl no_market_callbacks)
    | exact (keeping_trans no_market_callbacks)
    | intros; intros H; unfold no_market_callbacks in *; simpl;
      first [exact H | reflexivity] ].

Lemma handle_market (e : event) : respects (keeping no_market_callbacks) (handle e).
Proof.
  destruct e as [| |a c|a c|a c1 c2|a c1 c2|a sc|k|i|i data|i|i]; simpl;
    unfold connect, disconnect, socket_close, subscribe, unsubscribe,
      subscribeToMarketData, unsubscribeFromMarketData, sendRequest,
      connectInternal, new_WebSocket, attemptReconnect, defer,
      onopen, sendConnect, onmessage, handleMessage, onerror, onclose,
      parseMessage, handleStompMessage, resubscribeAll, subscribeToDestination,
      notifyCallbacks, notifyMarketCallbacks, notifyDepthCallbacks,
      notifyLastTradeCallbacks, JSON_parse, invoke, ws_send;
    respects_with market_fields.
Qed.

(** X13: No method of the client registers a callback in [marketCallbacks]:
    in every reachable state that registry is empty, so a MESSAGE frame
    whose destination takes the [/market/] branch of the dispatch is
    parsed and then delivered to nobody. *)
Theorem legacy_market_frames_unheard (message : string) (s : state) :
  reachable s →
  marketCallbacks s = []
  ∧ (legacy_market_destination (destination_of message) = true →
     handleStompMessage message s = (Ret tt, s)).
Proof.
  intros Hreach.
  assert (Hm : no_market_callbacks s).
  { revert s Hreach. apply kept_by_handlers; [|exact handle_market].
    intros raises ctorThrows. reflexivity. }
  split; [exact Hm|].
  unfold legacy_market_destination, destination_of, handleStompMessage.
  destruct (scan_frame message) as [[destination body] inBody]. simpl fst.
  intros Hlegacy.
  apply andb_true_iff in Hlegacy as [Hlegacy Hstarts].
  apply andb_true_iff in Hlegacy as [Hdepth Hlast].
  apply negb_true_iff in Hdepth, Hlast.
  rewrite Hdepth, Hlast, Hstarts.
  destruct (Str.truthy destination && Str.truthy body); [|reflexivity].
  unfold when, try_catch, mbind, M_bind. rewrite JSON_parse_result.
  destruct (Json.parse body) as [v|]; [|reflexivity].
  unfold notifyMarketCallbacks, mbind, M_bind, get.
  unfold no_market_callbacks in Hm. rewrite Hm. reflexivity.
Qed.

Lemma legacy_market_frames_unheard_witness :
  handleStompMessage (MESSAGE_frame "/market/AAPL" (balance_text ++ Str.lf)) connected_session
  = (Ret tt, connected_session).
Proof.
  apply (legacy_market_frames_unheard (MESSAGE_frame "/market/AAPL" (balance_text ++ Str.lf))
           connected_session).
  - apply after_reachable. vm_compute. eauto.
  - vm_compute. reflexivity.
Defined.

(** ** A CONNECTED frame while the transport is not open *)

Lemma subscribeToDestination_offline (d : string) (s : state) :
  ws_open s = false →
  recorded_only s (snd (subscribeToDestination d s))
  ∧ is_Some (subscriptions (snd (subscribeToDestination d s)) !! d)
  ∧ fst (subscribeToDestination d s) = Ret tt.
Proof.
  intros Hclosed. destruct (subscriptions s !! d) as [subId|] eqn:Hd.
  - rewrite subscribeToDestination_known by eauto. simpl.
    split; [|split; [eauto | reflexivity]].
    split; [reflexivity|]. split; [reflexivity|]. split; [split; reflexivity|]. auto.
  - assert (Hrun : subscribeToDestination d s
      = (Ret tt,
         set_subscriptions (<[d := S (subscriptionCounter s)]> (subscriptions s))
           (set_subscriptionCounter (S (subscriptionCounter s)) s))).
    { unfold subscribeToDestination. run_monad. rewrite Hd. simpl.
      change (ws_open (set_subscriptions ?m (set_subscriptionCounter ?n s)))
        with (ws_open s).
      rewrite Hclosed. reflexivity. }
    rewrite Hrun. cbn [fst snd].
    split; [|split; [|reflexivity]].
    + split; [reflexivity|]. split; [reflexivity|]. split; [split; reflexivity|].
      intros d' [x Hx].
      change (is_Some (<[d := S (subscriptionCounter s)]> (subscriptions s) !! d')).
      destruct (decide (d = d')) as [<-|Hne]; [congruence|].
      rewrite lookup_insert_ne by exact Hne. eauto.
    + change (is_Some (<[d := S (subscriptionCounter s)]> (subscriptions s) !! d)).
      rewrite lookup_insert_eq. eauto.
Qed.

Lemma forEach_subscribe_offline (ds : list string) (s : state) :
  ws_open s = false →
  recorded_only s (snd (forEach ds subscribeToDestination s))
  ∧ (∀ d, d ∈ ds →
       is_Some (subscriptions (snd (forEach ds subscribeToDestination s)) !! d))
  ∧ fst (forEach ds subscribeToDestination s) = Ret tt.
Proof.
  revert s. induction ds as [|d0 ds IH]; intros s Hclosed.
  - simpl. split; [|split; [intros d Hd; inversion Hd | reflexivity]].
    split; [reflexivity|]. split; [reflexivity|]. split; [split; reflexivity|]. auto.
  - rewrite forEach_cons.
    destruct (subscribeToDestination_offline d0 s Hclosed)
      as ((Hw & Hr & (Ho & Hc) & Hkeep) & Hd0 & Hret).
    destruct (subscribeToDestination d0 s) as [[[]|e] s1]; [|discriminate].
    simpl in *.
    destruct (IH s1) as ((Hw' & Hr' & (Ho' & Hc') & Hkeep') & Hds & Hret');
      [congruence|].
    split; [|split; [|exact Hret']].
    + split; [congruence|]. split; [congruence|].
      split; [split; congruence|].
      intros d Hd. apply Hkeep', Hkeep, Hd.
    + intros d Hd. apply elem_of_cons in Hd as [->|Hd];
        [apply Hkeep', Hd0 | apply Hds, Hd].
Qed.

(** X14: A CONNECTED frame that is handled while the transport is not open
    (it came over an older socket, or as a Blob whose text arrived late)
    records a subscription for every registered destination and sends
    nothing.  From then on the destinations count as subscribed: a later
    CONNECTED frame, over whatever socket, sends no SUBSCRIBE for them
    either. *)
Theorem CONNECTED_without_open_transport (message : string) (s : state) :
  Str.startsWith message "CONNECTED" = true → ws_open s = false →
  ∃ s1,
    parseMessage message s = (Ret tt, s1)
    ∧ wire s1 = wire s
    ∧ (∀ d, d ∈ registered_destinations s → is_Some (subscriptions s1 !! d))
    ∧ ∀ s2, registered_destinations s2 = registered_destinations s1 →
            subscriptions s2 = subscriptions s1 →
            parseMessage message s2
            = (Ret tt, set_reconnectAttempts 0 (set_connected true s2)).
Proof.
  intros Hmsg Hclosed.
  rewrite parseMessage_CONNECTED by exact Hmsg.
  rewrite resubscribeAll_forEach.
  set (s0 := set_reconnectAttempts 0 (set_connected true s)).
  destruct (forEach_subscribe_offline (registered_destinations s0) s0 Hclosed)
    as ((Hw & Hr & _ & _) & Hds & Hret).
  destruct (forEach (registered_destinations s0) subscribeToDestination s0)
    as [[[]|e] s1]; [|discriminate].
  simpl in *. exists s1. split; [reflexivity|]. split; [exact Hw|].
  split; [exact Hds|].
  intros s2 Hr2 Hs2. rewrite parseMessage_CONNECTED by exact Hmsg.
  apply resubscribeAll_skips_recorded. intros d Hd.
  change (is_Some (subscriptions s2 !! d)). rewrite Hs2. apply Hds.
  change (d ∈ registered_destinations s2) in Hd. rewrite Hr2, Hr in Hd. exact Hd.
Qed.

Lemma CONNECTED_without_open_transport_witness :
  ∃ s1,
    parseMessage CONNECTED_frame second_socket_opening = (Ret tt, s1)
    ∧ wire s1 = wire second_socket_opening
    ∧ (∀ d, d ∈ registered_destinations second_socket_opening →
            is_Some (subscriptions s1 !! d))
    ∧ ∀ s2, registered_destinations s2 = registered_destinations s1 →
            subscriptions s2 = subscriptions s1 →
            parseMessage CONNECTED_frame s2
            = (Ret tt, set_reconnectAttempts 0 (set_connected true s2)).
Proof.
  apply CONNECTED_without_open_transport; reflexivity.
Defined.

(** X15: A CONNECTED frame that is handled when there is no open transport
    (the text of a Blob that arrives after [disconnect()], say) still
    sets the flag [connected].  The session is not connected, since
    there is no transport, but [connect()] reads the flag and returns
    without arming its timer. *)
Theorem late_CONNECTED_blocks_connect (message : string) (s : state) :
  Str.startsWith message "CONNECTED" = true → ws_open s = false →
  let s1 := snd (parseMessage message s) in
  connected s1 = true ∧ isConnected s1 = false ∧ connect s1 = (Ret tt, s1).
Proof.
  intros Hmsg Hclosed s1. subst s1.
  rewrite parseMessage_CONNECTED by exact Hmsg.
  rewrite resubscribeAll_forEach.
  set (s0 := set_reconnectAttempts 0 (set_connected true s)).
  destruct (forEach_subscribe_offline (registered_destinations s0) s0 Hclosed)
    as ((_ & _ & (Ho & Hc) & _) & _ & _).
  set (s1 := snd (forEach (registered_destinations s0) subscribeToDestination s0)) in *.
  change (ws_open s0) with (ws_open s) in Ho. rewrite Hclosed in Ho.
  change (connected s0) with true in Hc.
  split; [exact Hc|]. split.
  - unfold isConnected. rewrite Ho. apply andb_false_r.
  - unfold connect. run_monad. rewrite Ho, Hc. reflexivity.
Qed.

Lemma late_CONNECTED_blocks_connect_witness :
  let s1 := snd (parseMessage CONNECTED_frame blob_outstanding) in
  connected s1 = true ∧ isConnected s1 = false ∧ connect s1 = (Ret tt, s1).
Proof.
  apply late_CONNECTED_blocks_connect; reflexivity.
Defined.

(** ** Registering and removing callbacks *)

Lemma JsMap_set_same {V} (k : string) (v : V) (m : JsMap.t V) :
  JsMap.get k m = Some v → JsMap.set k v m = m.
Proof.
  induction m as [|[k' v'] m IH]; simpl; [discriminate|].
  destruct (String.eqb_spec k k') as [->|Hne].
  - intros [= ->]. reflexivity.
  - intros H. rewrite (IH H). reflexivity.
Qed.

Lemma JsMap_remove_absent {V} (k : string) (m : JsMap.t V) :
  JsMap.get k m = None → JsMap.remove k m = m.
Proof.
  induction m as [|[k' v'] m IH]; simpl; [reflexivity|].
  destruct (String.eqb k k'); [discriminate|].
  intros H. rewrite (IH H). reflexivity.
Qed.

Lemma JsMap_remove_set_absent {V} (k : string) (v : V) (m : JsMap.t V) :
  JsMap.get k m = None → JsMap.remove k (JsMap.set k v m) = m.
Proof.
  induction m as [|[k' v'] m IH]; simpl.
  - rewrite String.eqb_refl. reflexivity.
  - destruct (String.eqb k k') eqn:E; [discriminate|]. simpl. rewrite E.
    intros H. rewrite (IH H). reflexivity.
Qed.

Lemma remove_first_absent (cb : callback) (cbs : list callback) :
  cb ∉ cbs → remove_first cb cbs = cbs.
Proof.
  induction cbs as [|c cbs IH]; simpl; [reflexivity|].
  intros Hnot. destruct (Nat.eqb_spec c cb) as [->|Hne].
  - exfalso. apply Hnot. left.
  - rewrite IH; [reflexivity|]. intros Hin. apply Hnot. right. exact Hin.
Qed.

Lemma remove_first_snoc (cb : callback) (cbs : list callback) :
  cb ∉ cbs → remove_first cb (cbs ++ [cb]) = cbs.
Proof.
  induction cbs as [|c cbs IH]; simpl.
  - rewrite Nat.eqb_refl. reflexivity.
  - intros Hnot. destruct (Nat.eqb_spec c cb) as [->|Hne].
    + exfalso. apply Hnot. left.
    + rewrite IH; [reflexivity|]. intros Hin. apply Hnot. right. exact Hin.
Qed.

Lemma set_callbacks_same (s : state) : set_callbacks (callbacks s) s = s.
Proof. destruct s; reflexivity. Qed.

(** X16: [unsubscribe] with a callback that is not registered for the account
    changes nothing and sends nothing, whether the account has other
    callbacks or none: [indexOf] finds nothing, and in a reachable state
    the list that is left is not empty. *)
Theorem unsubscribe_unregistered_callback (accountKey : string) (cb : callback)
    (s : state) :
  reachable s → cb ∉ account_listeners accountKey s →
  unsubscribe accountKey cb s = (Ret tt, s).
Proof.
  intros Hreach Hnot. unfold account_listeners in Hnot.
  destruct (reachable_well_formed s Hreach) as ((Hc & _) & _).
  rewrite unsubscribe_result.
  destruct (JsMap.get (account_destination accountKey) (callbacks s))
    as [cbs|] eqn:Hget; [|reflexivity].
  simpl in Hnot. cbv zeta. rewrite remove_first_absent by exact Hnot.
  specialize (Hc _ _ Hget).
  destruct cbs as [|c cbs]; [congruence|]. simpl.
  rewrite JsMap_set_same by exact Hget. rewrite set_callbacks_same. reflexivity.
Qed.

Lemma unsubscribe_unregistered_callback_witness :
  unsubscribe "ACC1" 7 two_listeners = (Ret tt, two_listeners).
Proof.
  apply unsubscribe_unregistered_callback.
  - apply after_reachable. vm_compute. eauto.
  - vm_compute. intros H. repeat (apply elem_of_cons in H as [H|H]; [discriminate|]).
    inversion H.
Defined.

Lemma same_listeners_refl (s : state) : same_listeners s s.
Proof. split; reflexivity. Qed.

Lemma same_listeners_trans (s1 s2 s3 : state) :
  same_listeners s1 s2 → same_listeners s2 s3 → same_listeners s1 s3.
Proof. intros [H1 H2] [H3 H4]. split; congruence. Qed.

Ltac listeners_fields :=
  first [ exact same_listeners_refl | exact same_listeners_trans
        | intros; split; reflexivity ].

Lemma subscribeToDestination_listeners (d : string) :
  respects same_listeners (subscribeToDestination d).
Proof. unfold subscribeToDestination, ws_send. respects_with listeners_fields. Qed.

Lemma drop_subscription_listeners (d : string) :
  respects same_listeners (drop_subscription d).
Proof. unfold drop_subscription, ws_send. respects_with listeners_fields. Qed.

(** What [subscribe] leaves in the registry of the account callbacks:
    the new callback behind those registered before. *)
Lemma subscribe_listeners (accountKey : string) (cb : callback) (s : state) :
  callbacks (snd (subscribe accountKey cb s))
  = push_callback (account_destination accountKey) cb (callbacks s)
  ∧ raises (snd (subscribe accountKey cb s)) = raises s.
Proof.
  rewrite subscribe_result. cbv zeta.
  destruct (connected s && ws_open s); [|split; reflexivity].
  destruct (subscribeToDestination_listeners (account_destination accountKey)
              (set_callbacks
                 (push_callback (account_destination accountKey) cb (callbacks s)) s))
    as [Hc Hr].
  split; [exact Hc | exact Hr].
Qed.

(** X17: Callbacks that leave the client alone are invoked in the order
    of their registration: after [subscribe], an update for the account
    goes to the callbacks registered before, in their order, and then to
    the new one, provided none of them calls the client or throws while
    it handles the update.  (A callback that calls the client can change
    this: see [self_removal_skips_the_next].) *)
Theorem callbacks_invoked_in_registration_order
    (script : callback → json → state → list Reentrant.action)
    (accountKey : string) (cb : callback) (data : json) (s : state) :
  (∀ c, c ∈ account_listeners accountKey s ++ [cb] →
        (∀ s0, script c data s0 = []) ∧ raises s c data = false) →
  let s1 := snd (subscribe accountKey cb s) in
  Reentrant.notifyCallbacks script (account_destination accountKey) data s1
  = (Ret tt,
     set_delivered
       (delivered s1
        ++ List.map (fun c => (c, data)) (account_listeners accountKey s ++ [cb]))
       s1).
Proof.
  intros Hquiet s1. destruct (subscribe_listeners accountKey cb s) as [Hc Hr].
  fold s1 in Hc, Hr.
  assert (Hget : JsMap.get (account_destination accountKey) (callbacks s1)
                 = Some (account_listeners accountKey s ++ [cb])).
  { rewrite Hc. unfold push_callback. apply JsMap_get_set. }
  unfold Reentrant.notifyCallbacks. rewrite notify_no_calls.
  - change (Reentrant.registry_named Reentrant.Account s1) with (callbacks s1).
    rewrite Hget. apply forEach_invoke_quiet. intros c Hin. rewrite Hr. apply Hquiet, Hin.
  - change (Reentrant.registry_named Reentrant.Account s1) with (callbacks s1).
    rewrite Hget. intros c Hin. apply Hquiet, Hin.
Qed.

Lemma callbacks_invoked_in_registration_order_witness :
  delivered
    (snd (Reentrant.notifyCallbacks Reentrant.no_calls
            (account_destination "ACC1") balance_update
            (snd (subscribe "ACC1" 3 two_quiet_listeners))))
  = [(1, balance_update); (2, balance_update); (3, balance_update)].
Proof.
  rewrite (callbacks_invoked_in_registration_order Reentrant.no_calls
             "ACC1" 3 balance_update two_quiet_listeners).
  - vm_compute. reflexivity.
  - intros c _. split; reflexivity.
Defined.

(** X18: Registering or removing a callback for one account leaves the
    callbacks of every other account as they were. *)
Theorem other_accounts_untouched (accountKey other : string) (cb : callback)
    (s : state) :
  other ≠ accountKey →
  account_listeners other (snd (subscribe accountKey cb s))
  = account_listeners other s
  ∧ account_listeners other (snd (unsubscribe accountKey cb s))
    = account_listeners other s.
Proof.
  intros Hne.
  assert (Hd : account_destination other ≠ account_destination accountKey).
  { intros H. apply Hne, account_destination_inj, H. }
  unfold account_listeners. split.
  - destruct (subscribe_listeners accountKey cb s) as [-> _].
    unfold push_callback. rewrite JsMap_get_set_ne by exact Hd. reflexivity.
  - rewrite unsubscribe_result. cbv zeta.
    destruct (JsMap.get (account_destination accountKey) (callbacks s)) as [cbs|];
      [|reflexivity].
    destruct (length (remove_first cb cbs) =? 0).
    + set (s0 := set_callbacks _ s).
      assert (H0 : JsMap.get (account_destination other) (callbacks s0)
                   = JsMap.get (account_destination other) (callbacks s)).
      { subst s0. simpl.
        rewrite JsMap_get_remove_ne, JsMap_get_set_ne by exact Hd. reflexivity. }
      rewrite <- H0.
      destruct (drop_subscription_listeners (account_destination accountKey) s0)
        as [-> _].
      reflexivity.
    + simpl. rewrite JsMap_get_set_ne by exact Hd. reflexivity.
Qed.

Lemma other_accounts_untouched_witness :
  account_listeners "ACC1" (snd (subscribe "ACC2" 5 two_listeners))
  = account_listeners "ACC1" two_listeners
  ∧ account_listeners "ACC1" (snd (unsubscribe "ACC2" 5 two_listeners))
    = account_listeners "ACC1" two_listeners.
Proof. apply other_accounts_untouched. discriminate. Defined.

(** X19: [subscribe] and then [unsubscribe] with a callback that was not
    registered for the account bring the registry back to what it was:
    the other callbacks keep their order, and a key that was added for
    the account is deleted again. *)
Theorem subscribe_unsubscribe_restores_registry (accountKey : string)
    (cb : callback) (s : state) :
  reachable s → cb ∉ account_listeners accountKey s →
  callbacks (snd (unsubscribe accountKey cb (snd (subscribe accountKey cb s))))
  = callbacks s.
Proof.
  intros Hreach Hnot. unfold account_listeners in Hnot.
  destruct (reachable_well_formed s Hreach) as ((Hc & _) & _).
  destruct (subscribe_listeners accountKey cb s) as [Hs1 _].
  set (s1 := snd (subscribe accountKey cb s)) in *.
  set (d := account_destination accountKey) in *.
  rewrite unsubscribe_result. fold d. cbv zeta.
  rewrite Hs1. unfold push_callback at 1. rewrite JsMap_get_set.
  rewrite remove_first_snoc by exact Hnot.
  unfold push_callback. rewrite JsMap_set_set.
  destruct (JsMap.get d (callbacks s)) as [cbs|] eqn:Hget; simpl.
  - specialize (Hc _ _ Hget). destruct cbs as [|c cbs]; [congruence|]. simpl.
    apply JsMap_set_same, Hget.
  - destruct (drop_subscription_listeners d
                (set_callbacks (JsMap.remove d (JsMap.set d [] (callbacks s))) s1))
      as [-> _].
    simpl. apply JsMap_remove_set_absent, Hget.
Qed.

Lemma subscribe_unsubscribe_restores_registry_witness :
  callbacks (snd (unsubscribe "ACC1" 7 (snd (subscribe "ACC1" 7 two_listeners))))
  = callbacks two_listeners.
Proof.
  apply subscribe_unsubscribe_restores_registry.
  - apply after_reachable. vm_compute. eauto.
  - vm_compute. intros H. repeat (apply elem_of_cons in H as [H|H]; [discriminate|]).
    inversion H.
Defined.

(** X20: On a connected session, for an account that has no callback and no
    recorded subscription: [subscribe] and then [unsubscribe] with the
    same callback send a SUBSCRIBE and an UNSUBSCRIBE frame with one and
    the same identifier, the next of the counter, and leave the client as
    it was but for these two frames and the counter. *)
Theorem subscribe_unsubscribe_connected (accountKey : string) (cb : callback)
    (s : state) (i : nat) :
  connected s = true → transport_open i s →
  JsMap.get (account_destination accountKey) (callbacks s) = None →
  subscriptions s !! account_destination accountKey = None →
  let d := account_destination accountKey in
  let subId := S (subscriptionCounter s) in
  (subscribe accountKey cb ;; unsubscribe accountKey cb) s
  = (Ret tt,
     set_wire (wire s ++ [(i, SUBSCRIBE subId d); (i, UNSUBSCRIBE subId)])
       (set_subscriptionCounter subId s)).
Proof.
  intros Hconn [Hws Hrs] Hget Hsub d subId.
  change (JsMap.get d (callbacks s) = None) in Hget.
  change (subscriptions s !! d = None) in Hsub.
  assert (Hopen : ws_open s = true).
  { unfold ws_open. rewrite Hws, Hrs. reflexivity. }
  unfold mbind, M_bind. rewrite subscribe_result. fold d. cbv zeta.
  rewrite Hconn, Hopen. simpl andb. cbv iota.
  rewrite (subscribeToDestination_fresh d _ i) by assumption.
  rewrite unsubscribe_result. fold d. cbv zeta.
  unfold push_callback. rewrite Hget.
  change (callbacks (set_wire ?w (set_subscriptions ?m
            (set_subscriptionCounter ?n (set_callbacks ?r s))))) with r.
  rewrite JsMap_get_set. simpl default. rewrite remove_first_only.
  simpl length. simpl Nat.eqb. cbv iota.
  rewrite JsMap_set_set, JsMap_remove_set_absent by exact Hget.
  rewrite (drop_subscription_sent d _ subId i);
    [| simpl; apply lookup_insert_eq | discriminate | exact Hws | exact Hrs].
  f_equal. simpl. rewrite delete_insert_id by exact Hsub.
  rewrite <- app_assoc. simpl.
  destruct s; simpl in *. subst. reflexivity.
Qed.

Lemma subscribe_unsubscribe_connected_witness :
  (subscribe "ACC1" 1 ;; unsubscribe "ACC1" 1) connected_session
  = (Ret tt,
     set_wire (wire connected_session
               ++ [(0, SUBSCRIBE 1 "/account/ACC1/updates"); (0, UNSUBSCRIBE 1)])
       (set_subscriptionCounter 1 connected_session)).
Proof.
  apply (subscribe_unsubscribe_connected "ACC1" 1 connected_session 0);
    [reflexivity | split; reflexivity | reflexivity | reflexivity].
Defined.

(** ** Market data *)

Lemma market_destinations_differ (instrumentKey : string) :
  depth_destination instrumentKey ≠ last_trade_destination instrumentKey.
Proof.
  unfold depth_destination, last_trade_destination. intros H.
  apply (f_equal String.length) in H.
  rewrite !string_length_app in H. simpl in H. lia.
Qed.

Lemma unsubscribeFromMarketData_result (instrumentKey : string)
    (dcb lcb : callback) (s : state) :
  unsubscribeFromMarketData instrumentKey dcb lcb s
  = match unsubscribe_half (depth_destination instrumentKey) dcb
            depthCallbacks set_depthCallbacks s with
    | (Ret _, s1) =>
        unsubscribe_half (last_trade_destination instrumentKey) lcb
          lastTradeCallbacks set_lastTradeCallbacks s1
    | (Exn e, s1) => (Exn e, s1)
    end.
Proof.
  unfold unsubscribeFromMarketData, unsubscribe_half.
  unfold mbind at 1 2. unfold M_bind at 1 2. unfold get at 1. cbv beta iota.
  match goal with
  | |- match ?m s with _ => _ end = match ?m' with _ => _ end =>
      assert (Hhalf : m s = m')
  end.
  { destruct (JsMap.get _ (depthCallbacks s)) as [cbs|]; [|reflexivity].
    run_monad. destruct (length (remove_first dcb cbs) =? 0); reflexivity. }
  rewrite Hhalf.
  match goal with |- match ?x with _ => _ end = _ => destruct x as [[[]|e] s1] end;
    [|reflexivity].
  unfold mbind, M_bind, get. simpl.
  destruct (JsMap.get _ (lastTradeCallbacks s1)) as [cbs|]; [|reflexivity].
  run_monad. destruct (length (remove_first lcb cbs) =? 0); reflexivity.
Qed.

(** X21: On a connected session, for an instrument without callbacks and
    without recorded subscriptions: [subscribeToMarketData] sends two
    SUBSCRIBE frames with consecutive identifiers, the depth destination
    first; [unsubscribeFromMarketData] with the same callbacks then sends
    the two UNSUBSCRIBE frames with these identifiers in the same order,
    and the client is left as it was but for the four frames and the
    counter. *)
Theorem market_data_round_trip (instrumentKey : string) (dcb lcb : callback)
    (s : state) (i : nat) :
  connected s = true → transport_open i s →
  JsMap.get (depth_destination instrumentKey) (depthCallbacks s) = None →
  JsMap.get (last_trade_destination instrumentKey) (lastTradeCallbacks s) = None →
  subscriptions s !! depth_destination instrumentKey = None →
  subscriptions s !! last_trade_destination instrumentKey = None →
  let dd := depth_destination instrumentKey in
  let ld := last_trade_destination instrumentKey in
  let n := subscriptionCounter s in
  subscribeToMarketData instrumentKey dcb lcb s
  = (Ret tt,
     set_wire (wire s ++ [(i, SUBSCRIBE (S n) dd); (i, SUBSCRIBE (S (S n)) ld)])
       (set_subscriptions (<[ld := S (S n)]> (<[dd := S n]> (subscriptions s)))
          (set_subscriptionCounter (S (S n))
             (set_lastTradeCallbacks (JsMap.set ld [lcb] (lastTradeCallbacks s))
                (set_depthCallbacks (JsMap.set dd [dcb] (depthCallbacks s)) s)))))
  ∧ (subscribeToMarketData instrumentKey dcb lcb ;;
     unsubscribeFromMarketData instrumentKey dcb lcb) s
    = (Ret tt,
       set_wire (wire s ++ [(i, SUBSCRIBE (S n) dd); (i, SUBSCRIBE (S (S n)) ld);
                            (i, UNSUBSCRIBE (S n)); (i, UNSUBSCRIBE (S (S n)))])
         (set_subscriptionCounter (S (S n)) s)).
Proof.
  intros Hconn [Hws Hrs] Hgd Hgl Hsd Hsl dd ld n.
  change (JsMap.get dd (depthCallbacks s) = None) in Hgd.
  change (JsMap.get ld (lastTradeCallbacks s) = None) in Hgl.
  change (subscriptions s !! dd = None) in Hsd.
  change (subscriptions s !! ld = None) in Hsl.
  pose proof (market_destinations_differ instrumentKey) as Hne. fold dd ld in Hne.
  assert (Hopen : ws_open s = true).
  { unfold ws_open. rewrite Hws, Hrs. reflexivity. }
  assert (Hfirst : subscribeToMarketData instrumentKey dcb lcb s
    = (Ret tt,
       set_wire (wire s ++ [(i, SUBSCRIBE (S n) dd); (i, SUBSCRIBE (S (S n)) ld)])
         (set_subscriptions (<[ld := S (S n)]> (<[dd := S n]> (subscriptions s)))
            (set_subscriptionCounter (S (S n))
               (set_lastTradeCallbacks (JsMap.set ld [lcb] (lastTradeCallbacks s))
                  (set_depthCallbacks (JsMap.set dd [dcb] (depthCallbacks s)) s)))))).
  { rewrite subscribeToMarketData_result. fold dd ld. cbv zeta.
    rewrite Hconn, Hopen. simpl andb. cbv iota.
    unfold push_callback. rewrite Hgd, Hgl. simpl default. simpl app.
    unfold mbind, M_bind.
    rewrite (subscribeToDestination_fresh dd _ i) by assumption.
    rewrite (subscribeToDestination_fresh ld _ i);
      [| simpl; rewrite lookup_insert_ne by exact Hne; exact Hsl
       | exact Hws | exact Hrs].
    f_equal. simpl. rewrite <- app_assoc. reflexivity. }
  split; [exact Hfirst|].
  unfold mbind, M_bind. rewrite Hfirst.
  rewrite unsubscribeFromMarketData_result. fold dd ld.
  unfold unsubscribe_half at 1. simpl depthCallbacks.
  rewrite JsMap_get_set. cbv zeta. rewrite remove_first_only.
  simpl length. simpl Nat.eqb. cbv iota.
  rewrite JsMap_set_set, JsMap_remove_set_absent by exact Hgd.
  rewrite (drop_subscription_sent dd _ (S n) i);
    [| simpl; rewrite lookup_insert_ne by (intros H; apply Hne; symmetry; exact H);
       apply lookup_insert_eq
     | discriminate | exact Hws | exact Hrs].
  unfold unsubscribe_half. simpl lastTradeCallbacks.
  rewrite JsMap_get_set. cbv zeta. rewrite remove_first_only.
  simpl length. simpl Nat.eqb. cbv iota.
  rewrite JsMap_set_set, JsMap_remove_set_absent by exact Hgl.
  rewrite (drop_subscription_sent ld _ (S (S n)) i);
    [| simpl; rewrite lookup_delete_ne by (intros H; apply Hne; exact H);
       apply lookup_insert_eq
     | discriminate | exact Hws | exact Hrs].
  f_equal. simpl.
  rewrite (delete_insert_ne _ dd ld) by exact Hne.
  rewrite (delete_insert_id (subscriptions s) dd) by exact Hsd.
  rewrite (delete_insert_id (subscriptions s) ld) by exact Hsl.
  rewrite <- !app_assoc. simpl.
  destruct s; simpl in *. subst. reflexivity.
Qed.

Lemma market_data_round_trip_witness :
  (subscribeToMarketData "AAPL" 1 2 ;; unsubscribeFromMarketData "AAPL" 1 2)
    connected_session
  = (Ret tt,
     set_wire (wire connected_session
               ++ [(0, SUBSCRIBE 1 "/markets/AAPL/depth");
                   (0, SUBSCRIBE 2 "/markets/AAPL/last_trade");
                   (0, UNSUBSCRIBE 1); (0, UNSUBSCRIBE 2)])
       (set_subscriptionCounter 2 connected_session)).
Proof.
  apply (market_data_round_trip "AAPL" 1 2 connected_session 0);
    [reflexivity | split; reflexivity | reflexivity | reflexivity
    | reflexivity | reflexivity].
Defined.

(** ** Events of a socket that is not the transport *)

(** X22: The handlers do not look at the socket that raised the event.  When
    a socket other than the transport closes while the session is
    connected over the transport, the session is marked as not connected
    although the transport stays open, and a reconnect is scheduled as
    for the transport itself; when its timer fires, a new socket becomes
    the transport and the open one is left behind, never closed. *)
Theorem close_of_other_socket_drops_session (i j : nat) (s : state) :
  connected s = true → transport_open j s → i ≠ j →
  reconnectAttempts s < maxReconnectAttempts s → ctorThrows s = false →
  let s1 := snd (handle (SocketClose i) s) in
  let s2 := snd (handle (Fire (length (pending s))) s1) in
  isConnected s = true
  ∧ isConnected s1 = false ∧ transport_open j s1
  ∧ pending s1
    = pending s ++ [Timer (reconnectDelay s * 2 ^ reconnectAttempts s)]
  ∧ ws s2 = Some (length (sockets s)) ∧ readyState_of s2 j = OPEN.
Proof.
  intros Hconn [Hws Hrs] Hne Hlt Hctor s1 s2.
  assert (Hj : <[i := CLOSED]> (sockets s) !! j = sockets s !! j).
  { apply list_lookup_insert_ne. exact Hne. }
  assert (H1 : s1 = set_pending
                      (pending s ++ [Timer (reconnectDelay s * 2 ^ reconnectAttempts s)])
                      (set_reconnectAttempts (S (reconnectAttempts s))
                         (set_connected false
                            (set_sockets (<[i := CLOSED]> (sockets s)) s)))).
  { subst s1. unfold handle, onclose, attemptReconnect. run_monad.
    apply Nat.ltb_lt in Hlt. rewrite Hlt. simpl. rewrite Nat.sub_0_r. reflexivity. }
  split; [unfold isConnected, ws_open; rewrite Hconn, Hws, Hrs; reflexivity|].
  split; [rewrite H1; reflexivity|].
  split.
  { rewrite H1. split; [exact Hws|]. unfold readyState_of in *. simpl.
    change (default CLOSED (<[i := CLOSED]> (sockets s) !! j) = OPEN).
    rewrite Hj. exact Hrs. }
  split; [rewrite H1; reflexivity|].
  assert (Hk : pending s1 !! length (pending s)
               = Some (Timer (reconnectDelay s * 2 ^ reconnectAttempts s))).
  { rewrite H1. simpl pending. apply list_lookup_middle. reflexivity. }
  assert (H2 : s2 = set_ws (Some (length (sockets s1)))
                      (set_sockets (sockets s1 ++ [CONNECTING])
                         (set_pending (delete (length (pending s)) (pending s1)) s1))).
  { pose proof (fire_timer s1 (length (pending s)) _ Hk) as Hfire.
    unfold step in Hfire. simpl enabled in Hfire. rewrite Hk in Hfire.
    rewrite bool_decide_eq_true_2 in Hfire by eauto.
    injection (Hfire ltac:(rewrite H1; exact Hctor)) as Hs2. exact Hs2. }
  rewrite H2. split.
  - simpl. rewrite H1. simpl. rewrite length_insert. reflexivity.
  - unfold readyState_of in *. simpl.
    change (default CLOSED ((sockets s1 ++ [CONNECTING]) !! j) = OPEN).
    rewrite H1. simpl sockets.
    rewrite lookup_app_l.
    + rewrite Hj. exact Hrs.
    + rewrite length_insert. apply lookup_lt_is_Some.
      destruct (sockets s !! j); [eauto | discriminate].
Qed.

Lemma close_of_other_socket_drops_session_witness :
  let s1 := snd (handle (SocketClose 0) connected_over_second) in
  let s2 := snd (handle (Fire (length (pending connected_over_second))) s1) in
  isConnected connected_over_second = true
  ∧ isConnected s1 = false ∧ transport_open 1 s1
  ∧ pending s1
    = pending connected_over_second
      ++ [Timer (reconnectDelay connected_over_second
                 * 2 ^ reconnectAttempts connected_over_second)]
  ∧ ws s2 = Some (length (sockets connected_over_second))
  ∧ readyState_of s2 1 = OPEN.
Proof.
  apply (close_of_other_socket_drops_session 0 1 connected_over_second);
    [reflexivity | split; reflexivity | discriminate | vm_compute; lia | reflexivity].
Defined.

(** X23: When a socket other than the transport opens while the session is
    connected over the transport, the open handler clears the flag
    [connected] and sends a second CONNECT frame over the transport: the
    handler reads [this.ws], not the socket that opened. *)
Theorem open_of_other_socket_sends_CONNECT (i j : nat) (s : state) :
  connected s = true → transport_open j s → i ≠ j →
  let s1 := snd (handle (SocketOpen i) s) in
  isConnected s1 = false ∧ transport_open j s1
  ∧ wire s1 = wire s ++ [(j, CONNECT)].
Proof.
  intros Hconn [Hws Hrs] Hne s1.
  assert (Hj : <[i := OPEN]> (sockets s) !! j = sockets s !! j).
  { apply list_lookup_insert_ne. exact Hne. }
  assert (Hrs' : default CLOSED (<[i := OPEN]> (sockets s) !! j) = OPEN).
  { rewrite Hj. exact Hrs. }
  assert (H1 : s1 = set_wire (wire s ++ [(j, CONNECT)])
                      (set_connected false
                         (set_sockets (<[i := OPEN]> (sockets s)) s))).
  { subst s1. unfold handle, onopen, sendConnect, ws_send, ws_open, readyState_of.
    run_monad. rewrite Hws. simpl in Hrs'. rewrite !Hrs'. simpl.
    rewrite Hws. simpl. rewrite !Hrs'. reflexivity. }
  rewrite H1. split; [reflexivity|]. split; [|reflexivity].
  split; [exact Hws | exact Hrs'].
Qed.

Lemma open_of_other_socket_sends_CONNECT_witness :
  let s1 := snd (handle (SocketOpen 0) connected_over_second) in
  isConnected s1 = false ∧ transport_open 1 s1
  ∧ wire s1 = wire connected_over_second ++ [(1, CONNECT)].
Proof.
  apply (open_of_other_socket_sends_CONNECT 0 1 connected_over_second);
    [reflexivity | split; reflexivity | discriminate].
Defined.

(** ** The dashboard's effect for the selected account *)

Lemma sendRequest_offline (accountKey : string) (sc : scope) (s : state) :
  isConnected s = false → sendRequest accountKey sc s = (Ret tt, s).
Proof.
  unfold isConnected, sendRequest. intros H. run_monad.
  destruct (connected s), (ws_open s); simpl in *; try reflexivity. discriminate.
Qed.

Lemma sendRequest_online (accountKey : string) (sc : scope) (s : state) (i : nat) :
  connected s = true → transport_open i s →
  sendRequest accountKey sc s
  = (Ret tt,
     set_wire (wire s ++ [(i, SEND (account_destination accountKey) (request_body sc))])
       s).
Proof.
  intros Hconn [Hws Hrs]. unfold sendRequest, ws_send, ws_open. run_monad.
  rewrite Hconn, Hws, Hrs. cbn [negb orb readyState_eqb]. rewrite Hws.
  cbn [negb orb readyState_eqb]. rewrite Hrs. reflexivity.
Qed.

(** X24: The effect of the dashboard for the selected account, on a session
    that is not connected (as on the first rendering, when [connect()]
    has only armed its timer): the callback is registered and nothing is
    sent; the three requests for the initial data are dropped, and
    nothing keeps them for later. *)
Theorem dashboard_requests_dropped_offline (accountKey : string) (cb : callback)
    (s : state) :
  Str.truthy accountKey = true → isConnected s = false →
  Dashboard.accountEffect accountKey cb s
  = (Ret tt,
     set_callbacks
       (push_callback (account_destination accountKey) cb (callbacks s)) s).
Proof.
  intros Hkey Hoff. unfold Dashboard.accountEffect. rewrite Hkey.
  unfold when, mbind, M_bind. rewrite subscribe_result. cbv zeta.
  unfold isConnected in Hoff. rewrite Hoff.
  rewrite !sendRequest_offline; reflexivity || exact Hoff.
Qed.

Lemma dashboard_requests_dropped_offline_witness :
  Dashboard.accountEffect "ACC1" 1 opening_session
  = (Ret tt,
     set_callbacks
       (push_callback (account_destination "ACC1") 1 (callbacks opening_session))
       opening_session).
Proof. apply dashboard_requests_dropped_offline; reflexivity. Defined.

(** X25: The effect of the dashboard for the selected account, on a
    connected session and for an account without a recorded
    subscription: one SUBSCRIBE frame and then the three requests, in
    the order balance, positions, orders, all for the destination of the
    account. *)
Theorem dashboard_effect_connected (accountKey : string) (cb : callback)
    (s : state) (i : nat) :
  Str.truthy accountKey = true →
  connected s = true → transport_open i s →
  subscriptions s !! account_destination accountKey = None →
  let d := account_destination accountKey in
  ∃ s',
    Dashboard.accountEffect accountKey cb s = (Ret tt, s')
    ∧ wire s'
      = wire s ++ [(i, SUBSCRIBE (S (subscriptionCounter s)) d);
                   (i, SEND d (request_body balance));
                   (i, SEND d (request_body positions));
                   (i, SEND d (request_body orders))]
    ∧ account_listeners accountKey s' = account_listeners accountKey s ++ [cb].
Proof.
  intros Hkey Hconn [Hws Hrs] Hsub d.
  change (subscriptions s !! d = None) in Hsub.
  assert (Hopen : ws_open s = true).
  { unfold ws_open. rewrite Hws, Hrs. reflexivity. }
  unfold Dashboard.accountEffect. rewrite Hkey.
  unfold when, mbind, M_bind. rewrite subscribe_result. fold d. cbv zeta.
  rewrite Hconn, Hopen. simpl andb. cbv iota.
  rewrite (subscribeToDestination_fresh d _ i) by assumption.
  rewrite (sendRequest_online accountKey balance _ i)
    by (try split; assumption).
  rewrite (sendRequest_online accountKey positions _ i)
    by (try split; assumption).
  rewrite (sendRequest_online accountKey orders _ i)
    by (try split; assumption).
  eexists. split; [reflexivity|]. split.
  - simpl. rewrite <- !app_assoc. reflexivity.
  - unfold account_listeners. simpl. fold d. unfold push_callback.
    rewrite JsMap_get_set. reflexivity.
Qed.

Lemma dashboard_effect_connected_witness :
  ∃ s',
    Dashboard.accountEffect "ACC1" 1 connected_session = (Ret tt, s')
    ∧ wire s'
      = wire connected_session
        ++ [(0, SUBSCRIBE (S (subscriptionCounter connected_session))
                  (account_destination "ACC1"));
            (0, SEND (account_destination "ACC1") (request_body balance));
            (0, SEND (account_destination "ACC1") (request_body positions));
            (0, SEND (account_destination "ACC1") (request_body orders))]
    ∧ account_listeners "ACC1" s' = account_listeners "ACC1" connected_session ++ [1].
Proof.
  apply (dashboard_effect_connected "ACC1" 1 connected_session 0);
    [reflexivity | reflexivity | split; reflexivity | reflexivity].
Defined.

(** X26: When the page is unmounted, the clean-up of the mount effect calls
    [disconnect()], which clears the registry; the clean-up of the
    account effect, coming after it, finds nothing to remove, sends
    nothing and does not throw. *)
Theorem dashboard_unmount (accountKey : string) (cb : callback) (s : state) :
  (Dashboard.mountCleanup ;; Dashboard.accountCleanup accountKey cb) s
  = disconnect s.
Proof.
  unfold Dashboard.mountCleanup, Dashboard.accountCleanup, mbind, M_bind.
  rewrite disconnect_result.
  destruct (Str.truthy accountKey); [|reflexivity].
  unfold when. rewrite unsubscribe_result. cbv zeta.
  assert (Hc : callbacks (disconnected s) = []).
  { unfold disconnected. destruct (ws s); [destruct (readyState_of s _)|]; reflexivity. }
  rewrite Hc. reflexivity.
Qed.

(** ** The two revisions of the client *)

(** X27: As long as no callback for market data is registered, the revision
    with market data treats what arrives as the revision before it did:
    a CONNECTED frame, a MESSAGE frame whose destination takes the last
    branch of the dispatch, and any other text; and [disconnect()] does
    the same. *)
Theorem revisions_agree_on_account_traffic (message : string) (s : state) :
  no_market_data s →
  (Str.startsWith message "MESSAGE" = true →
   account_branch (destination_of message) = true) →
  parseMessage message s = AccountOnly.parseMessage message s
  ∧ disconnect s = AccountOnly.disconnect s.
Proof.
  intros (Hm & Hd & Hl) Hbranch. split.
  - unfold parseMessage, AccountOnly.parseMessage.
    destruct (Str.startsWith message "CONNECTED").
    + unfold mbind, M_bind, modify. cbv beta iota.
      unfold resubscribeAll, AccountOnly.resubscribeAll, mbind, M_bind, get.
      cbv beta iota.
      change (marketCallbacks (set_reconnectAttempts 0 (set_connected true s)))
        with (marketCallbacks s).
      change (depthCallbacks (set_reconnectAttempts 0 (set_connected true s)))
        with (depthCallbacks s).
      change (lastTradeCallbacks (set_reconnectAttempts 0 (set_connected true s)))
        with (lastTradeCallbacks s).
      rewrite Hm, Hd, Hl. unfold JsMap.keys. simpl List.map.
      destruct (forEach _ subscribeToDestination _) as [[[]|e] s1]; reflexivity.
    + destruct (Str.startsWith message "MESSAGE"); [|reflexivity].
      specialize (Hbranch eq_refl).
      unfold account_branch, destination_of in Hbranch.
      unfold handleStompMessage, AccountOnly.handleStompMessage.
      destruct (scan_frame message) as [[destination body] inBody].
      simpl fst in Hbranch.
      apply andb_true_iff in Hbranch as [Hbranch Hstarts].
      apply andb_true_iff in Hbranch as [Hdepth Hlast].
      apply negb_true_iff in Hdepth, Hlast, Hstarts.
      rewrite Hdepth, Hlast, Hstarts. reflexivity.
  - rewrite disconnect_result.
    unfold AccountOnly.disconnect, disconnected, socket_close, ws_send. run_monad.
    destruct (ws s) as [i|] eqn:Hws; simpl.
    + destruct (connected s), (readyState_of s i) eqn:Hrs; simpl;
        rewrite ?Hws; simpl; unfold readyState_of in *; simpl;
        rewrite ?Hrs; simpl; rewrite ?Hrs;
        destruct s; simpl in *; subst; reflexivity.
    + destruct s; simpl in *; subst; reflexivity.
Qed.

Lemma revisions_agree_on_account_traffic_witness :
  parseMessage balance_frame_lf two_listeners
  = AccountOnly.parseMessage balance_frame_lf two_listeners
  ∧ disconnect two_listeners = AccountOnly.disconnect two_listeners.
Proof.
  apply revisions_agree_on_account_traffic.
  - repeat split.
  - intros _. vm_compute. reflexivity.
Defined.
